(** * Solar-energy estimator backend: a shallow embedding of [main.py]

    The estimator [compute_energy] is a closed formula over Python [float]s,
    that is IEEE-754 binary64 numbers.  The embedding keeps that arithmetic:
    every operation is the correctly rounded operation of the Standard
    Library's [SpecFloat] at precision 53 and maximal exponent 1024, so the
    theorems below speak about the very bits the program produces.

    The file has two halves.  The first holds every definition: a small
    model of rounding used to reason about [SpecFloat], the Python
    built-ins the program calls, the program itself (the estimator, the
    request boundary, the subscription handler, the greeting and the
    diagnostic endpoints) and the formula as the specification words it.
    The second half holds the facts: digit counting, monotonicity of
    rounding, the interval analysis of the estimator, and the statements
    about the program. *)

From Stdlib Require Import ZArith Bool Lia List String.
From Stdlib Require Import SpecFloat.
Import ListNotations.

Local Open Scope Z_scope.

(** The float specification is stated with the core library's integer
    operations; the arithmetic tactics know those of [BinInt]. *)
Ltac zstd :=
  change IntDef.Z.min with Z.min in *;
  change IntDef.Z.max with Z.max in *;
  change IntDef.Z.eqb with Z.eqb in *;
  change IntDef.Z.leb with Z.leb in *;
  change IntDef.Z.compare with Z.compare in *;
  change IntDef.Z.even with Z.even in *;
  change IntDef.Z.add with Z.add in *;
  change IntDef.Z.sub with Z.sub in *;
  change IntDef.Z.mul with Z.mul in *;
  change IntDef.Z.shiftl with Z.shiftl in *;
  change IntDef.Z.div_eucl with Z.div_eucl in *.


(** ** A model of rounding

    A non-negative real is located on the grid of multiples of [2^e] by a
    cell number [4*m + j]: the multiple [m] below it and [j] in [0..3] for
    "on the grid", "below the midpoint", "on the midpoint" and "above the
    midpoint".  [SpecFloat]'s shift-and-round works on exactly this
    information, and every step of it is monotone in the cell number. *)

(** Sticky division: twice the quotient of [c] by [K], plus one when the
    division leaves a remainder. *)
Definition sdiv (c K : Z) : Z := 2 * (c / K) + (if c mod K =? 0 then 0 else 1).

(** The cell number on a grid [2^n] times coarser. *)
Definition shrc (n c : Z) : Z := sdiv c (2 ^ (n + 1)).

(** The shift record (mantissa, round bit, sticky bit) of a cell number. *)
Definition rec_of_cell (c : Z) : shr_record :=
  {| shr_m := c / 4; shr_r := 2 <=? c mod 4; shr_s := Z.odd c |}.

(** The position of a cell between two grid points. *)
Definition loc_of_cell (c : Z) : location := loc_of_shr_record (rec_of_cell c).

Section RoundingModel.

Variables prec emax : Z.

(** The grid point nearest to a cell, ties to even. *)
Definition rne_cell (c : Z) : Z := round_nearest_even (c / 4) (loc_of_cell c).

(** The last step of [binary_round_aux]: renormalise the rounded mantissa
    and check for overflow. *)
Definition pack (s : bool) (M E : Z) : spec_float :=
  let '(mrs, e) := shr_fexp prec emax M E loc_Exact in
  match shr_m mrs with
  | Z0 => S754_zero s
  | Zpos m => if e <=? emax - prec then S754_finite s m e else S754_infinity s
  | Zneg _ => S754_nan
  end.

(** [binary_round_aux] on the cell [c] of the grid [2^e0]. *)
Definition round_cell (s : bool) (e0 c : Z) : spec_float :=
  binary_round_aux prec emax s (c / 4) e0 (loc_of_cell c).

(** The exponent the result is rounded at. *)
Definition texp (e0 c : Z) : Z := fexp prec emax (Zdigits2 (c / 4) + e0).

(** A float from a positive mantissa, or an infinity past the largest
    exponent. *)
Definition fin (s : bool) (m e : Z) : spec_float :=
  if e <=? emax - prec then S754_finite s (Z.to_pos m) e else S754_infinity s.

(** [pack] in closed form, for a mantissa of at most [2^prec]. *)
Definition pack' (s : bool) (M E : Z) : spec_float :=
  if M =? 0 then S754_zero s
  else if M <? 2 ^ prec then fin s M E
  else fin s (2 ^ (prec - 1)) (E + 1).

(** The magnitude of a finite float, in units of [2^emin]. *)
Definition Vabs (x : spec_float) : Z :=
  match x with
  | S754_finite _ m e => Z.pos m * 2 ^ (e - emin prec emax)
  | _ => 0
  end.

(** The value of a float in units of [2^emin]; an infinity counts as
    [2^emax], beyond every finite value. *)
Definition Vz (x : spec_float) : Z :=
  match x with
  | S754_finite s m e => cond_Zopp s (Z.pos m * 2 ^ (e - emin prec emax))
  | S754_infinity s => cond_Zopp s (2 ^ (emax - emin prec emax))
  | _ => 0
  end.

(** The float nearest to [z * 2^e0]. *)
Definition RZ (e0 z : Z) : spec_float :=
  if z =? 0 then S754_zero false else round_cell (z <? 0) e0 (4 * Z.abs z).

(** A canonical float that is a zero or a finite number. *)
Definition finite_float (x : spec_float) : Prop :=
  valid_binary prec emax x = true /\
  match x with S754_zero _ | S754_finite _ _ _ => True | _ => False end.

(** A canonical float other than NaN. *)
Definition ordered_float (x : spec_float) : Prop :=
  valid_binary prec emax x = true /\
  match x with S754_nan => False | _ => True end.

(** Zero of either sign, a positive number or plus infinity. *)
Definition nonneg_float (y : spec_float) : Prop :=
  match y with
  | S754_zero _ | S754_finite false _ _ | S754_infinity false => True
  | _ => False
  end.

(** Equality of floats up to the sign of zero. *)
Definition zeq (a b : spec_float) : Prop :=
  a = b \/ (exists s s', a = S754_zero s /\ b = S754_zero s').

(** Quotient of a non-negative [z] (in units of [2^emin]) by the positive
    float [my * 2^ey]. *)
Definition Dq (my : positive) (ey : Z) (z : Z) : spec_float :=
  if z =? 0 then S754_zero false
  else round_cell false (emin prec emax - emax)
         (sdiv (2 * (z * 2 ^ (emax - ey))) (Z.pos my)).

End RoundingModel.


(** ** Binary64 arithmetic, as Python's [float] *)

Module F64.

Definition prec : Z := 53.
Definition emax : Z := 1024.

Definition float := spec_float.

(** A Python float is a canonical binary64 datum. *)
Definition is_float (x : float) : Prop := valid_binary prec emax x = true.

Definition add : float -> float -> float := SFadd prec emax.
Definition sub : float -> float -> float := SFsub prec emax.
Definition mul : float -> float -> float := SFmul prec emax.
Definition div : float -> float -> float := SFdiv prec emax.
Definition abs : float -> float := SFabs.
Definition opp : float -> float := SFopp.

Definition ltb : float -> float -> bool := SFltb.
Definition leb : float -> float -> bool := SFleb.
Definition eqb : float -> float -> bool := SFeqb.

(** [float(z)]: conversion of a Python int, exact below [2^53]. *)
Definition of_int (z : Z) : float := binary_normalize prec emax z 0 false.

(** A decimal literal [n/d] (such as [0.9] = [lit 9 10]): the binary64
    number nearest to the quotient, which is what the correctly rounded
    division of the two exactly representable integers returns. *)
Definition lit (n d : Z) : float := div (of_int n) (of_int d).

Definition is_nan (x : float) : bool :=
  match x with S754_nan => true | _ => false end.

Definition is_finite (x : float) : bool :=
  match x with S754_zero _ | S754_finite _ _ _ => true | _ => false end.

(** The real value of a finite float, counted in units of [2^-1074]: every
    finite binary64 number is an integer multiple of that unit.  An
    infinity is given the first power of two above every finite value. *)
Definition scaled (x : float) : Z := Vz prec emax x.

(** Nearest integer, ties to even, of a non-negative value given in units
    of [2^-1074]. *)
Definition round_scaled (z : Z) : Z := rne_cell (sdiv (2 * z) (2 ^ 1074)).

(** A float that is neither an infinity nor NaN. *)
Definition finite (x : float) : Prop := finite_float prec emax x.

(** [lo <= x <= hi] for a well-formed [x]. *)
Definition within (lo hi x : float) : Prop :=
  is_float x /\ leb lo x = true /\ leb x hi = true.

(** [NaN], or a well-formed float whose sign bit is clear or that is a zero:
    the values a product of non-negative factors can take. *)
Definition nonneg_or_nan (x : float) : Prop :=
  x = S754_nan \/ (is_float x /\ nonneg_float x).

End F64.

Import F64.

Declare Scope f64_scope.
Delimit Scope f64_scope with f64.
Infix "+" := add : f64_scope.
Infix "-" := sub : f64_scope.
Infix "*" := mul : f64_scope.
Infix "/" := div : f64_scope.
Infix "<?" := ltb : f64_scope.
Infix "<=?" := leb : f64_scope.
Infix "=?" := eqb : f64_scope.

(** ** Python numbers and built-ins used by the estimator *)

Module Py.

(** [min] and [max] are called with an [int] literal on one side and a
    [float] on the other and return one of their arguments unchanged, so
    the dynamic type of the result is kept. *)
Inductive num :=
| Int (z : Z)
| Float (x : float).

Definition to_float (v : num) : float :=
  match v with
  | Int z => of_int z
  | Float x => x
  end.

(** [a < b].  Python compares an int with a float exactly; for the
    literals of this program ([0], [100], [180], all below [2^53]) that is
    the comparison of the converted values. *)
Definition lt (a b : num) : bool := (to_float a <? to_float b)%f64.

(** [min(a, b)]: the first argument unless the second is strictly
    smaller. *)
Definition min (a b : num) : num := if lt b a then b else a.

(** [max(a, b)]: the first argument unless the second is strictly
    larger. *)
Definition max (a b : num) : num := if lt a b then b else a.

(** Nearest integer to the dyadic [m * 2^e], ties to the even one. *)
Definition nearest_even (m : positive) (e : Z) : Z :=
  match e with
  | Zneg p =>
      let d := 2 ^ Zpos p in
      let q := Zpos m / d in
      let r := Zpos m mod d in
      match 2 * r ?= d with
      | Lt => q
      | Gt => q + 1
      | Eq => if Z.even q then q else q + 1
      end
  | _ => Zpos m * 2 ^ e
  end.

(** [float.__round__()] without [ndigits]: the nearest int, halfway cases
    to even; [ValueError] on NaN and [OverflowError] on an infinity, both
    rendered as [None]. *)
Definition round_float (x : float) : option Z :=
  match x with
  | S754_zero _ => Some 0
  | S754_finite s m e =>
      Some (if s then - nearest_even m e else nearest_even m e)
  | S754_infinity _ | S754_nan => None
  end.

(** [round(v)]: the identity on an int. *)
Definition round (v : num) : option Z :=
  match v with
  | Int z => Some z
  | Float x => round_float x
  end.

End Py.

(** ** Data model (lines 18-28) *)

Record EnergyInput := mkEnergyInput {
  tilt : float;
  azimuth : float;
  irradiance : float;
  area : float
}.

Record EnergyOutput := mkEnergyOutput {
  daily : float;
  monthly : float;
  score : Z
}.

(** ** The estimator (lines 31-39) *)

Section Estimator.

Local Open Scope f64_scope.

Definition f0_5 : float := lit 5 10.
Definition f0_9 : float := lit 9 10.
Definition f0_6 : float := lit 6 10.
Definition f0_18 : float := lit 18 100.
Definition f1_5 : float := lit 15 10.

(** [tiltFactor = 1 - abs(inp.tilt - 30) / 120] *)
Definition tiltFactor (inp : EnergyInput) : float :=
  of_int 1 - abs (tilt inp - of_int 30) / of_int 120.

(** [min(abs(inp.azimuth - 180), 180)] *)
Definition azimuthDeviation (inp : EnergyInput) : float :=
  Py.to_float (Py.min (Py.Float (abs (azimuth inp - of_int 180))) (Py.Int 180)).

(** [facingSouthFactor = 1 - min(abs(inp.azimuth - 180), 180) / 240] *)
Definition facingSouthFactor (inp : EnergyInput) : float :=
  of_int 1 - azimuthDeviation inp / of_int 240.

(** [tiltFactor * 0.9 + facingSouthFactor * 0.6] *)
Definition weightedSum (inp : EnergyInput) : float :=
  tiltFactor inp * f0_9 + facingSouthFactor inp * f0_6.

(** [k = max(0.5, tiltFactor * 0.9 + facingSouthFactor * 0.6)], the
    source's local [k]. *)
Definition k_of (inp : EnergyInput) : float :=
  Py.to_float (Py.max (Py.Float f0_5) (Py.Float (weightedSum inp))).

(** [dailyKWh = inp.irradiance * inp.area * 0.18 * k] *)
Definition dailyKWh (inp : EnergyInput) : float :=
  irradiance inp * area inp * f0_18 * k_of inp.

(** [monthlyKWh = dailyKWh * 30] *)
Definition monthlyKWh (inp : EnergyInput) : float :=
  dailyKWh inp * of_int 30.

(** [(k / 1.5) * 100] *)
Definition percent (inp : EnergyInput) : float :=
  k_of inp / f1_5 * of_int 100.

(** [score = round(min(100, (k / 1.5) * 100))], the source's local
    [score]. *)
Definition score_of (inp : EnergyInput) : option Z :=
  Py.round (Py.min (Py.Int 100) (Py.Float (percent inp))).

(** [EnergyOutput(daily=max(0, dailyKWh), monthly=max(0, monthlyKWh),
    score=score)]; the [float] fields convert an int [0] that [max]
    returns.  [None] stands for an exception raised by [round]. *)
Definition compute_energy (inp : EnergyInput) : option EnergyOutput :=
  match score_of inp with
  | Some s =>
      Some {| daily := Py.to_float (Py.max (Py.Int 0) (Py.Float (dailyKWh inp)));
              monthly := Py.to_float (Py.max (Py.Int 0) (Py.Float (monthlyKWh inp)));
              score := s |}
  | None => None
  end.

End Estimator.

(** ** The request boundary (lines 18-22 and 56-58)

    The framework builds [EnergyInput] from the request body, filling an
    absent field with its default and enforcing the [ge]/[le] bounds of
    each [Field]; a body that fails is answered with status 422 and the
    handler is not called. *)

Record EnergyPayload := mkEnergyPayload {
  p_tilt : option float;
  p_azimuth : option float;
  p_irradiance : option float;
  p_area : option float
}.

Definition with_default (d : float) (o : option float) : float :=
  match o with
  | Some x => x
  | None => d
  end.

(** [ge=bound]: the value satisfies [x >= bound]. *)
Definition ge_ok (bound x : float) : bool := (bound <=? x)%f64.

(** [le=bound]: the value satisfies [x <= bound]. *)
Definition le_ok (bound x : float) : bool := (x <=? bound)%f64.

Definition tilt_ok (x : float) : bool := ge_ok (of_int 0) x && le_ok (of_int 90) x.
Definition azimuth_ok (x : float) : bool := ge_ok (of_int 0) x && le_ok (of_int 360) x.
Definition irradiance_ok (x : float) : bool := ge_ok (of_int 0) x.
Definition area_ok (x : float) : bool := ge_ok (of_int 0) x.

(** The four field constraints of [EnergyInput]. *)
Definition EnergyInput_ok (inp : EnergyInput) : bool :=
  tilt_ok (tilt inp) && azimuth_ok (azimuth inp)
  && irradiance_ok (irradiance inp) && area_ok (area inp).

(** Every field holds a binary64 datum. *)
Definition EnergyInput_wf (inp : EnergyInput) : bool :=
  valid_binary prec emax (tilt inp) && valid_binary prec emax (azimuth inp)
  && valid_binary prec emax (irradiance inp) && valid_binary prec emax (area inp).

(** A valid [EnergyInput]: four floats within the declared bounds. *)
Definition valid_input (inp : EnergyInput) : bool :=
  EnergyInput_wf inp && EnergyInput_ok inp.

(** Defaults of lines 19-22. *)
Definition EnergyInput_fill (p : EnergyPayload) : EnergyInput :=
  {| tilt := with_default (of_int 25) (p_tilt p);
     azimuth := with_default (of_int 180) (p_azimuth p);
     irradiance := with_default (lit 48 10) (p_irradiance p);
     area := with_default (of_int 18) (p_area p) |}.

Definition EnergyInput_validate (p : EnergyPayload) : option EnergyInput :=
  let inp := EnergyInput_fill p in
  if EnergyInput_ok inp then Some inp else None.


Inductive Step := Validated | Computed.

Inductive Response :=
| Ok200 (out : EnergyOutput)
| Unprocessable422
| ServerError500.

(** [def energy_estimate(payload): return compute_energy(payload)] *)
Definition energy_estimate (payload : EnergyInput) : option EnergyOutput :=
  compute_energy payload.

(** [POST /api/energy/estimate]: what ran, and the answer. *)
Definition post_energy_estimate (p : EnergyPayload) : list Step * Response :=
  match EnergyInput_validate p with
  | None => ([Validated], Unprocessable422)
  | Some inp =>
      match energy_estimate inp with
      | Some out => ([Validated; Computed], Ok200 out)
      | None => ([Validated; Computed], ServerError500)
      end
  end.

(** ** Subscription (lines 42-43 and 61-70) *)

Local Open Scope string_scope.

(** A raised exception: its class name and whether the class derives from
    [Exception] (every class does except [BaseException] itself and the
    system-exiting ones such as [KeyboardInterrupt] and [SystemExit]). *)
Record PyException := mkPyException {
  exc_class : string;
  exc_is_Exception : bool
}.

Inductive outcome (A : Type) :=
| Returns (a : A)
| Raises (e : PyException).

Arguments Returns {A} a.
Arguments Raises {A} e.

Record SubscribeInput := mkSubscribeInput { email : string }.

(** The [database] module when it can be imported: its [create_document],
    given a collection name and a document, returns the new id or raises. *)
Record Database := mkDatabase {
  create_document : string -> list (string * string) -> outcome string
}.

Record SubscribeResponse := mkSubscribeResponse {
  status : string;
  stored : bool;
  id : option string
}.

Definition ImportError : PyException :=
  {| exc_class := "ImportError"; exc_is_Exception := true |}.

(** [from database import create_document] *)
Definition import_create_document (env : option Database)
  : outcome (string -> list (string * string) -> outcome string) :=
  match env with
  | Some db => Returns (create_document db)
  | None => Raises ImportError
  end.

(** The body of the [try] block. *)
Definition subscribe_try (env : option Database) (payload : SubscribeInput)
  : outcome SubscribeResponse :=
  match import_create_document env with
  | Raises e => Raises e
  | Returns create =>
      match create "subscriber" [("email", email payload)] with
      | Returns doc_id =>
          Returns {| status := "ok"; stored := true; id := Some doc_id |}
      | Raises e => Raises e
      end
  end.

(** [try: ... except Exception: return {"status": "ok", "stored": False}] *)
Definition subscribe (env : option Database) (payload : SubscribeInput)
  : outcome SubscribeResponse :=
  match subscribe_try env payload with
  | Returns r => Returns r
  | Raises e =>
      if exc_is_Exception e
      then Returns {| status := "ok"; stored := false; id := None |}
      else Raises e
  end.


Local Close Scope string_scope.

(** ** The formula as the specification words it (section 4.1)

    [min] and [max] are the IEEE-754 [minNum] and [maxNum] (the other
    operand when one is NaN) and [round] is rounding to the nearest
    integer, a tie going to the even neighbour. *)

Module Spec.

Local Open Scope f64_scope.

Definition fmin (a b : float) : float :=
  if is_nan a then b else if is_nan b then a else if a <=? b then a else b.

Definition fmax (a b : float) : float :=
  if is_nan a then b else if is_nan b then a else if b <=? a then a else b.

(** Nearest integer to [m / d]: [floor(m/d + 1/2)], lowered by one when
    [m/d] is exactly halfway and that floor is odd. *)
Definition round_ratio (m d : Z) : Z :=
  let n := ((2 * m + d) / (2 * d))%Z in
  if (Z.eqb ((2 * m + d) mod (2 * d)) 0 && Z.odd n)%bool then (n - 1)%Z else n.

Definition fround (x : float) : Z :=
  match x with
  | S754_finite s m e =>
      let n := match e with
               | Zneg p => round_ratio (Zpos m) (2 ^ Zpos p)
               | _ => (Zpos m * 2 ^ e)%Z
               end in
      if s then (- n)%Z else n
  | _ => 0%Z
  end.

(** 1. [tiltFactor = 1 - |tilt - 30| / 120] *)
Definition tiltFactor (inp : EnergyInput) : float :=
  of_int 1 - abs (tilt inp - of_int 30) / of_int 120.

(** 2. [facingSouthFactor = 1 - min(|azimuth - 180|, 180) / 240] *)
Definition facingSouthFactor (inp : EnergyInput) : float :=
  of_int 1 - fmin (abs (azimuth inp - of_int 180)) (of_int 180) / of_int 240.

(** 3. [k = max(0.5, tiltFactor * 0.9 + facingSouthFactor * 0.6)] *)
Definition k (inp : EnergyInput) : float :=
  fmax (lit 5 10) (tiltFactor inp * lit 9 10 + facingSouthFactor inp * lit 6 10).

(** 4. [dailyKWh = irradiance * area * 0.18 * k] *)
Definition dailyKWh (inp : EnergyInput) : float :=
  irradiance inp * area inp * lit 18 100 * k inp.

(** 5. [monthlyKWh = dailyKWh * 30] *)
Definition monthlyKWh (inp : EnergyInput) : float :=
  dailyKWh inp * of_int 30.

(** 6. [score = round(min(100, (k / 1.5) * 100))] *)
Definition score_of (inp : EnergyInput) : Z :=
  fround (fmin (of_int 100) (k inp / lit 15 10 * of_int 100)).

(** 7. [daily = max(0, dailyKWh)], [monthly = max(0, monthlyKWh)] *)
Definition outputs (inp : EnergyInput) : EnergyOutput :=
  {| daily := fmax (of_int 0) (dailyKWh inp);
     monthly := fmax (of_int 0) (monthlyKWh inp);
     score := score_of inp |}.

End Spec.

(** ** Inputs used as examples *)

(** [tilt=30, azimuth=180, irradiance=4.8, area=18] *)
Definition scenario_optimal : EnergyInput :=
  mkEnergyInput (of_int 30) (of_int 180) (lit 48 10) (of_int 18).

(** [tilt=0, azimuth=0, irradiance=0, area=0] *)
Definition scenario_zero : EnergyInput :=
  mkEnergyInput (of_int 0) (of_int 0) (of_int 0) (of_int 0).

(** [5e-324], the smallest positive binary64 number, [2^-1074]. *)
Definition min_subnormal : float := S754_finite false 1 (-1074).

(** [2.2250738585072014e-308], the smallest positive normal number,
    [2^-1022]. *)
Definition min_normal : float := S754_finite false 4503599627370496 (-1074).

(** [30.000000000000004], the float that follows [30.0]. *)
Definition next_after_30 : float := S754_finite false 8444249301319681 (-48).


Definition scenario_tilt (t : float) : EnergyInput :=
  mkEnergyInput t (of_int 180) (lit 48 10) (of_int 18).

Definition scenario_azimuth (a : float) : EnergyInput :=
  mkEnergyInput (of_int 25) a (lit 48 10) (of_int 18).


Definition KeyboardInterrupt : PyException :=
  {| exc_class := "KeyboardInterrupt"; exc_is_Exception := false |}.

Definition ConnectionFailure : PyException :=
  {| exc_class := "ConnectionFailure"; exc_is_Exception := true |}.

(** A database whose [create_document] is interrupted. *)
Definition db_interrupted : Database :=
  mkDatabase (fun _ _ => Raises KeyboardInterrupt).


Definition subscriber : SubscribeInput := mkSubscribeInput "ada@example.org"%string.

(** A database that stores the document under a fixed id. *)
Definition db_working : Database :=
  mkDatabase (fun _ _ => Returns "65f0c0ffee"%string).

(** A request with [irradiance=-0.0], which satisfies [ge=0]. *)
Definition scenario_negative_zero : EnergyInput :=
  mkEnergyInput (of_int 25) (of_int 180) (S754_zero true) (of_int 18).

(** [1e300] *)
Definition f1e300 : float := of_int (10 ^ 300).


(** ** Greeting endpoints (lines 46-53) and the diagnostic endpoint
       (lines 73-115)

    A Python [str] is a sequence of code points, and slicing counts code
    points; the status texts hold characters outside ASCII, which are
    written here by their code point. *)

Local Open Scope string_scope.
Local Open Scope list_scope.

Definition pystr := list N.

(** An ASCII literal as a [str]. *)
Definition text (s : string) : pystr :=
  List.map Ascii.N_of_ascii (list_ascii_of_string s).

(** U+2705, the check mark of the status texts. *)
Definition check_mark : pystr := [9989%N].

(** U+274C, the cross mark. *)
Definition cross_mark : pystr := [10060%N].

(** U+26A0 U+FE0F, the warning sign with its variation selector. *)
Definition warning_sign : pystr := [9888%N; 65039%N].

(** The values the response dicts hold: [None], a [str], a list of
    [str]. *)
Inductive value :=
| VNone
| VStr (s : pystr)
| VList (l : list pystr).

(** A [dict] with [str] keys, in insertion order. *)
Definition dict := list (string * value).

(** [d[k] = v]: an existing key keeps its place. *)
Fixpoint dict_set (k : string) (v : value) (d : dict) : dict :=
  match d with
  | [] => [(k, v)]
  | (k', v') :: rest =>
      if String.eqb k k' then (k, v) :: rest else (k', v') :: dict_set k v rest
  end.

(** [d.get(k)] *)
Fixpoint dict_get (k : string) (d : dict) : option value :=
  match d with
  | [] => None
  | (k', v') :: rest => if String.eqb k k' then Some v' else dict_get k rest
  end.

(** [list(d)]: the keys in order. *)
Definition dict_keys (d : dict) : list string := List.map fst d.

(** [return {"message": "Hello from FastAPI Backend!"}] *)
Definition read_root : dict :=
  [("message", VStr (text "Hello from FastAPI Backend!"))].

(** [return {"message": "Hello from the backend API!"}] *)
Definition hello : dict :=
  [("message", VStr (text "Hello from the backend API!"))].

(** An exception as the diagnostic endpoint looks at it: its class (with
    whether it derives from [Exception]), whether it is an instance of
    [ImportError], and [str(e)]. *)
Record Raised := mkRaised {
  raised : PyException;
  is_ImportError : bool;
  str_of : pystr
}.

Inductive completion (A : Type) :=
| Normal (a : A)
| Abrupt (e : Raised).

Arguments Normal {A} a.
Arguments Abrupt {A} e.

(** The object [db] of the [database] module: its attribute [name] when it
    has one, and what [db.list_collection_names()] does. *)
Record DbHandle := mkDbHandle {
  db_name : option pystr;
  list_collection_names : completion (list pystr)
}.

(** Statements that update the dict [response] and may raise.  What was
    assigned before an exception stays assigned. *)
Definition Stm (A : Type) : Type := dict -> dict * completion A.

Definition ret {A} (a : A) : Stm A := fun d => (d, Normal a).

Definition bind {A B} (m : Stm A) (f : A -> Stm B) : Stm B :=
  fun d =>
    match m d with
    | (d', Normal a) => f a d'
    | (d', Abrupt e) => (d', Abrupt e)
    end.

(** The evaluation of an expression that may raise. *)
Definition eval {A} (c : completion A) : Stm A := fun d => (d, c).

(** [response[k] = v] *)
Definition assign (k : string) (v : value) : Stm unit :=
  fun d => (dict_set k v d, Normal tt).

(** [try: body except ...]: [handler e] is the first clause that matches
    [e], if one does. *)
Definition try_except {A} (body : Stm A) (handler : Raised -> option (Stm A)) : Stm A :=
  fun d =>
    match body d with
    | (d', Normal a) => (d', Normal a)
    | (d', Abrupt e) =>
        match handler e with
        | Some h => h d'
        | None => (d', Abrupt e)
        end
    end.

Declare Scope stm_scope.
Delimit Scope stm_scope with stm.
Notation "x <- m ;; k" := (bind m (fun x => k))
  (at level 61, m at next level, right associativity) : stm_scope.
Notation "m ;; k" := (bind m (fun _ => k))
  (at level 61, right associativity) : stm_scope.
Notation "k ::= v" := (assign k v) (at level 60) : stm_scope.

(** Truth value of what [os.getenv] returns: [None] and the empty string
    are false. *)
Definition truthy (o : option pystr) : bool :=
  match o with
  | Some (_ :: _) => true
  | _ => false
  end.

Section Diagnostics.

Local Open Scope stm_scope.

(** [from database import db]: the object (possibly [None]), or the
    exception the import raises. *)
Variable import_db : completion (option DbHandle).

(** [os.getenv] *)
Variable getenv : string -> option pystr.

(** Lines 76-83. *)
Definition initial_response : dict :=
  [("backend", VStr (check_mark ++ text " Running"));
   ("database", VStr (cross_mark ++ text " Not Available"));
   ("database_url", VNone);
   ("database_name", VNone);
   ("connection_status", VStr (text "Not Connected"));
   ("collections", VList [])].

(** Lines 96-101, the inner [try]. *)
Definition list_collections (db : DbHandle) : Stm unit :=
  try_except
    (collections <- eval (list_collection_names db) ;;
     "collections" ::= VList (firstn 10 collections) ;;
     "database" ::= VStr (check_mark ++ text " Connected & Working"))
    (fun e =>
       if exc_is_Exception (raised e)
       then Some ("database" ::=
                    VStr (warning_sign ++ text "  Connected but Error: "
                          ++ firstn 50 (str_of e)))
       else None).

(** Lines 85-108, the outer [try]. *)
Definition probe_database : Stm unit :=
  try_except
    (db <- eval import_db ;;
     match db with
     | Some db =>
         "database" ::= VStr (check_mark ++ text " Available") ;;
         "database_url" ::= VStr (check_mark ++ text " Configured") ;;
         "database_name" ::=
           VStr (match db_name db with
                 | Some name => name
                 | None => check_mark ++ text " Connected"
                 end) ;;
         "connection_status" ::= VStr (text "Connected") ;;
         list_collections db
     | None =>
         "database" ::= VStr (warning_sign ++ text "  Available but not initialized")
     end)
    (fun e =>
       if is_ImportError e
       then Some ("database" ::=
                    VStr (cross_mark
                          ++ text " Database module not found (run enable-database first)"))
       else if exc_is_Exception (raised e)
       then Some ("database" ::=
                    VStr (cross_mark ++ text " Error: " ++ firstn 50 (str_of e)))
       else None).

(** Lines 110-113. *)
Definition check_environment : Stm unit :=
  "database_url" ::=
    VStr (if truthy (getenv "DATABASE_URL")
          then check_mark ++ text " Set" else cross_mark ++ text " Not Set") ;;
  "database_name" ::=
    VStr (if truthy (getenv "DATABASE_NAME")
          then check_mark ++ text " Set" else cross_mark ++ text " Not Set").

(** [GET /test]: the dict returned, or the exception that escapes. *)
Definition test_database : completion dict :=
  match (probe_database ;; check_environment) initial_response with
  | (response, Normal _) => Normal response
  | (_, Abrupt e) => Abrupt e
  end.

End Diagnostics.

(** The keys of every diagnostic response. *)
Definition response_keys : list string :=
  ["backend"; "database"; "database_url"; "database_name";
   "connection_status"; "collections"].

(** ** Situations used as examples *)

(** [ModuleNotFoundError("No module named 'database'")] *)
Definition module_not_found : Raised :=
  {| raised := {| exc_class := "ModuleNotFoundError"; exc_is_Exception := true |};
     is_ImportError := true;
     str_of := text "No module named 'database'" |}.

(** A [KeyboardInterrupt] while the module is imported. *)
Definition interrupted : Raised :=
  {| raised := KeyboardInterrupt; is_ImportError := false; str_of := [] |}.

(** A driver error whose text has 64 characters. *)
Definition server_timeout : Raised :=
  {| raised := ConnectionFailure;
     is_ImportError := false;
     str_of := text "localhost:27017: [Errno 111] Connection refused, timeout: 30.0s" |}.

(** A database named [solar] with twelve collections. *)
Definition db_solar : DbHandle :=
  {| db_name := Some (text "solar");
     list_collection_names :=
       Normal (List.map text ["c01"; "c02"; "c03"; "c04"; "c05"; "c06";
                              "c07"; "c08"; "c09"; "c10"; "c11"; "c12"]) |}.

(** A database whose listing fails. *)
Definition db_unreachable : DbHandle :=
  {| db_name := Some (text "solar"); list_collection_names := Abrupt server_timeout |}.

(** An environment with [DATABASE_URL] set and [DATABASE_NAME] set to the
    empty string. *)
Definition env_url_only (k : string) : option pystr :=
  if String.eqb k "DATABASE_URL" then Some (text "mongodb://localhost:27017")
  else if String.eqb k "DATABASE_NAME" then Some []
  else None.

Local Close Scope string_scope.


(** * Facts *)

(** ** Counting binary digits *)

Lemma digits2_pos_size p : digits2_pos p = Pos.size p.
Proof. induction p; simpl; congruence. Qed.

Lemma Zdigits2_nonneg m : 0 <= Zdigits2 m.
Proof. destruct m; simpl; lia. Qed.

Lemma Zdigits2_bounds m : 0 < m -> 2 ^ (Zdigits2 m - 1) <= m < 2 ^ Zdigits2 m.
Proof.
  destruct m as [|p|p]; try lia. intros _. simpl Zdigits2.
  rewrite digits2_pos_size.
  pose proof (Pos.size_gt p) as Hgt. pose proof (Pos.size_le p) as Hle.
  split.
  - assert (H2 : 2 ^ Z.pos (Pos.size p) = 2 * 2 ^ (Z.pos (Pos.size p) - 1)).
    { rewrite <- Z.pow_succ_r by lia. f_equal. lia. }
    assert (Hz : 2 ^ Z.pos (Pos.size p) <= 2 * Z.pos p).
    { change (2 * Z.pos p) with (Z.pos p~0). rewrite <- Pos2Z.inj_pow. apply Pos2Z.pos_le_pos. exact Hle. }
    lia.
  - change 2 with (Z.pos 2). rewrite <- Pos2Z.inj_pow. apply Pos2Z.pos_lt_pos. exact Hgt.
Qed.

Lemma Zdigits2_unique m d : 2 ^ (d - 1) <= m < 2 ^ d -> 0 < d -> Zdigits2 m = d.
Proof.
  intros [Hlo Hhi] Hd.
  assert (Hm : 0 < m). { pose proof (Z.pow_pos_nonneg 2 (d - 1)). lia. }
  pose proof (Zdigits2_bounds m Hm) as [Hlo' Hhi'].
  pose proof (Zdigits2_nonneg m).
  destruct (Z.lt_trichotomy (Zdigits2 m) d) as [Hlt|[Heq|Hgt]]; auto; exfalso.
  - assert (2 ^ Zdigits2 m <= 2 ^ (d - 1)) by (apply Z.pow_le_mono_r; lia). lia.
  - assert (2 ^ d <= 2 ^ (Zdigits2 m - 1)) by (apply Z.pow_le_mono_r; lia). lia.
Qed.

Lemma Zdigits2_le m1 m2 : 0 <= m1 <= m2 -> Zdigits2 m1 <= Zdigits2 m2.
Proof.
  intros [H1 H12].
  destruct (Z.eq_dec m1 0) as [->|Hnz]. { apply Zdigits2_nonneg. }
  pose proof (Zdigits2_bounds m1 ltac:(lia)) as [Hlo1 _].
  pose proof (Zdigits2_bounds m2 ltac:(lia)) as [_ Hhi2].
  destruct (Z_lt_le_dec (Zdigits2 m2) (Zdigits2 m1)) as [Hlt|]; auto. exfalso.
  assert (2 ^ Zdigits2 m2 <= 2 ^ (Zdigits2 m1 - 1)) by (apply Z.pow_le_mono_r; lia). lia.
Qed.

Lemma Zdigits2_lt_pow m d : 0 <= m -> 0 <= d -> (Zdigits2 m <= d <-> m < 2 ^ d).
Proof.
  intros Hm Hd. destruct (Z.eq_dec m 0) as [->|Hnz].
  { simpl. pose proof (Z.pow_pos_nonneg 2 d). lia. }
  pose proof (Zdigits2_bounds m ltac:(lia)) as [Hlo Hhi]. split; intros H.
  - assert (2 ^ Zdigits2 m <= 2 ^ d) by (apply Z.pow_le_mono_r; lia). lia.
  - destruct (Z_lt_le_dec d (Zdigits2 m)) as [Hlt|]; auto. exfalso.
    assert (2 ^ d <= 2 ^ (Zdigits2 m - 1)) by (apply Z.pow_le_mono_r; lia). lia.
Qed.

Lemma Zdigits2_mul_pow m k : 0 < m -> 0 <= k -> Zdigits2 (m * 2 ^ k) = Zdigits2 m + k.
Proof.
  intros Hm Hk. pose proof (Zdigits2_bounds m Hm) as [Hlo Hhi].
  pose proof (Zdigits2_nonneg m).
  assert (0 < Zdigits2 m). { destruct m; simpl in *; lia. }
  apply Zdigits2_unique; [|lia].
  replace (Zdigits2 m + k - 1) with ((Zdigits2 m - 1) + k) by lia.
  rewrite !Z.pow_add_r by lia.
  pose proof (Z.pow_pos_nonneg 2 k). nia.
Qed.

Lemma Zdigits2_div_pow m k : 0 <= m -> 0 <= k -> Zdigits2 (m / 2 ^ k) = Z.max (Zdigits2 m - k) 0.
Proof.
  intros Hm Hk. pose proof (Z.pow_pos_nonneg 2 k ltac:(lia) Hk) as Hp.
  destruct (Z.eq_dec m 0) as [->|Hnz].
  { rewrite Z.div_0_l by lia. simpl. lia. }
  pose proof (Zdigits2_bounds m ltac:(lia)) as [Hlo Hhi].
  pose proof (Zdigits2_nonneg m).
  destruct (Z_lt_le_dec k (Zdigits2 m)) as [Hlt|Hge].
  - rewrite Z.max_l by lia. apply Zdigits2_unique; [|lia]. split.
    + apply Z.div_le_lower_bound; [lia|]. rewrite <- Z.pow_add_r by lia.
      replace (k + (Zdigits2 m - k - 1)) with (Zdigits2 m - 1) by lia. lia.
    + apply Z.div_lt_upper_bound; [lia|]. rewrite <- Z.pow_add_r by lia.
      replace (k + (Zdigits2 m - k)) with (Zdigits2 m) by lia. lia.
  - rewrite Z.max_r by lia.
    assert (2 ^ Zdigits2 m <= 2 ^ k) by (apply Z.pow_le_mono_r; lia).
    rewrite Z.div_small by lia. reflexivity.
Qed.



(** ** Cells and sticky shifts *)

Lemma sdiv_nonneg c K : 0 <= c -> 0 < K -> 0 <= sdiv c K.
Proof.
  intros Hc HK. unfold sdiv. pose proof (Z.div_pos c K Hc HK).
  destruct (c mod K =? 0); lia.
Qed.

Lemma sdiv_mono c1 c2 K : 0 < K -> c1 <= c2 -> sdiv c1 K <= sdiv c2 K.
Proof.
  intros HK H. unfold sdiv.
  pose proof (Z.div_mod c1 K ltac:(lia)) as E1. pose proof (Z.div_mod c2 K ltac:(lia)) as E2.
  pose proof (Z.mod_pos_bound c1 K HK). pose proof (Z.mod_pos_bound c2 K HK).
  assert (Hq : c1 / K <= c2 / K) by (apply Z.div_le_mono; lia).
  destruct (c1 mod K =? 0) eqn:T1; destruct (c2 mod K =? 0) eqn:T2; try lia.
  apply Z.eqb_eq in T2. apply Z.eqb_neq in T1.
  destruct (Z.eq_dec (c1 / K) (c2 / K)) as [Heq|]; [|lia]. rewrite Heq in E1. nia.
Qed.

Lemma sdiv_sdiv c K L : 0 < K -> 0 < L -> sdiv (sdiv c K) (2 * L) = sdiv c (K * L).
Proof.
  intros HK HL. unfold sdiv.
  set (q := c / K). set (r := c mod K).
  set (t := if r =? 0 then 0 else 1).
  assert (Ht : 0 <= t <= 1) by (unfold t; destruct (r =? 0); lia).
  assert (Hhalf : (2 * q + t) / 2 = q) by (Z.div_mod_to_equations; lia).
  assert (Hodd : (2 * q + t) mod 2 = t) by (Z.div_mod_to_equations; lia).
  rewrite <- (Z.div_div (2 * q + t) 2 L) by lia. rewrite Hhalf.
  rewrite (Z.rem_mul_r (2 * q + t) 2 L) by lia. rewrite Hhalf, Hodd.
  rewrite <- (Z.div_div c K L) by lia. fold q.
  rewrite (Z.rem_mul_r c K L) by lia. fold q r.
  pose proof (Z.mod_pos_bound q L HL). pose proof (Z.mod_pos_bound c K HK) as Hr. fold r in Hr.
  f_equal. unfold t.
  destruct (Z.eqb_spec r 0) as [T|T];
  destruct (Z.eqb_spec (q mod L) 0) as [T2|T2];
  match goal with |- context [?a =? 0] => destruct (Z.eqb_spec a 0) end;
  match goal with |- context [?a =? 0] => destruct (Z.eqb_spec a 0) end;
  try reflexivity; exfalso; nia.
Qed.

Lemma shrc_0 c : shrc 0 c = c.
Proof. unfold shrc, sdiv. change (2 ^ (0 + 1)) with 2.
  assert (H : c = 2 * (c / 2) + c mod 2) by (apply Z.div_mod; lia).
  assert (H0 : 0 <= c mod 2 < 2) by (apply Z.mod_pos_bound; lia).
  destruct (Z.eqb_spec (c mod 2) 0); lia.
Qed.

Lemma shrc_shrc a b c : 0 <= a -> 0 <= b -> shrc a (shrc b c) = shrc (a + b) c.
Proof.
  intros Ha Hb. unfold shrc.
  replace (2 ^ (a + 1)) with (2 * 2 ^ a) by (rewrite Z.pow_add_r by lia; lia).
  replace (2 ^ (a + b + 1)) with (2 ^ (b + 1) * 2 ^ a)
    by (rewrite <- Z.pow_add_r by lia; f_equal; lia).
  apply sdiv_sdiv; apply Z.pow_pos_nonneg; lia.
Qed.

Lemma shrc_mono n c1 c2 : 0 <= n -> c1 <= c2 -> shrc n c1 <= shrc n c2.
Proof. intros. apply sdiv_mono; auto. apply Z.pow_pos_nonneg; lia. Qed.

Lemma shrc_nonneg n c : 0 <= n -> 0 <= c -> 0 <= shrc n c.
Proof. intros. apply sdiv_nonneg; auto. apply Z.pow_pos_nonneg; lia. Qed.

Lemma shrc_div4 n c : 0 <= n -> shrc n c / 4 = c / 4 / 2 ^ n.
Proof.
  intros Hn. unfold shrc, sdiv.
  pose proof (Z.pow_pos_nonneg 2 n ltac:(lia) Hn) as Hp.
  replace (2 ^ (n + 1)) with (2 * 2 ^ n) by (rewrite Z.pow_add_r by lia; lia).
  set (q := c / (2 * 2 ^ n)).
  set (t := if c mod (2 * 2 ^ n) =? 0 then 0 else 1).
  assert (Ht : 0 <= t <= 1) by (unfold t; destruct (c mod (2 * 2 ^ n) =? 0); lia).
  clearbody t.
  replace ((2 * q + t) / 4) with (q / 2).
  - unfold q. rewrite !Z.div_div by lia. f_equal. lia.
  - clearbody q. Z.div_mod_to_equations. lia.
Qed.

Lemma shrc_exact n m : 0 <= n -> shrc n (4 * (m * 2 ^ n)) = 4 * m.
Proof.
  intros Hn. unfold shrc, sdiv.
  pose proof (Z.pow_pos_nonneg 2 n ltac:(lia) Hn) as Hp.
  replace (2 ^ (n + 1)) with (2 * 2 ^ n) by (rewrite Z.pow_add_r by lia; lia).
  replace (4 * (m * 2 ^ n)) with ((2 * m) * (2 * 2 ^ n)) by lia.
  rewrite Z.div_mul by lia. rewrite Z.mod_mul by lia. rewrite Z.eqb_refl. lia.
Qed.

Lemma shr_1_rec c : 0 <= c -> shr_1 (rec_of_cell c) = rec_of_cell (shrc 1 c).
Proof.
  intros Hc. unfold shrc, sdiv, rec_of_cell. change (2 ^ (1 + 1)) with 4.
  set (m := c / 4).
  assert (Hm : 0 <= m) by (apply Z.div_pos; lia).
  assert (Hs1 : forall m r s, 0 <= m ->
     shr_1 (Build_shr_record m r s) = Build_shr_record (m / 2) (Z.odd m) (r || s)).
  { clear. intros m r s Hm. destruct m as [|[p|p|]|]; try lia; simpl; try reflexivity.
    - f_equal. rewrite Pos2Z.inj_xI. Z.div_mod_to_equations; lia.
    - f_equal. rewrite Pos2Z.inj_xO. Z.div_mod_to_equations; lia. }
  rewrite Hs1 by auto.
  assert (Hr : 0 <= c mod 4 < 4) by (apply Z.mod_pos_bound; lia).
  assert (Hc4 : c = 4 * m + c mod 4) by (apply Z.div_mod; lia).
  set (t := if c mod 4 =? 0 then 0 else 1).
  assert (Ht : 0 <= t <= 1) by (unfold t; destruct (c mod 4 =? 0); lia).
  assert (Hmo : m = 2 * (m / 2) + m mod 2) by (apply Z.div_mod; lia).
  assert (Hm2 : 0 <= m mod 2 < 2) by (apply Z.mod_pos_bound; lia).
  f_equal.
  - Z.div_mod_to_equations; lia.
  - rewrite Zodd_mod.
    assert ((2 * m + t) mod 4 = 2 * (m mod 2) + t) by (Z.div_mod_to_equations; lia).
    rewrite H. destruct (Z.eqb_spec (m mod 2) 1); destruct (Z.leb_spec 2 (2 * (m mod 2) + t)); auto; lia.
  - rewrite (Zodd_mod c), (Zodd_mod (2 * m + t)).
    assert ((2 * m + t) mod 2 = t) by (Z.div_mod_to_equations; lia). rewrite H.
    assert (c mod 2 = (c mod 4) mod 2) by (Z.div_mod_to_equations; lia). rewrite H0.
    unfold t. assert (c mod 4 = 0 \/ c mod 4 = 1 \/ c mod 4 = 2 \/ c mod 4 = 3) by lia.
    destruct H1 as [-> | [-> | [-> | ->]]]; reflexivity.
Qed.

Lemma iter_shr_1_rec p c : 0 <= c ->
  iter_pos shr_1 p (rec_of_cell c) = rec_of_cell (shrc (Z.pos p) c).
Proof.
  revert c. induction p as [p IH|p IH|]; intros c Hc; cbn [iter_pos].
  - rewrite shr_1_rec by auto. rewrite IH by (apply shrc_nonneg; lia).
    rewrite IH by (apply shrc_nonneg; [lia|apply shrc_nonneg; lia]).
    rewrite !shrc_shrc by lia. f_equal. f_equal. lia.
  - rewrite IH by auto. rewrite IH by (apply shrc_nonneg; lia).
    rewrite !shrc_shrc by lia. f_equal. f_equal. lia.
  - apply shr_1_rec; auto.
Qed.

Lemma rec_of_loc_cell c : shr_record_of_loc (c / 4) (loc_of_cell c) = rec_of_cell c.
Proof.
  unfold loc_of_cell, rec_of_cell. simpl.
  destruct (2 <=? c mod 4); destruct (Z.odd c); reflexivity.
Qed.

Section RoundingFacts.

Variables prec emax : Z.
Hypothesis Hprec : 0 < prec.





(** ** [binary_round_aux] in closed form *)

Lemma fexp_ge_emin x : emin prec emax <= fexp prec emax x.
Proof. unfold fexp. lia. Qed.

Lemma fexp_mono x y : x <= y -> fexp prec emax x <= fexp prec emax y.
Proof. unfold fexp. lia. Qed.

Lemma shr_rec_cell c e n : 0 <= c -> 0 <= n ->
  shr (rec_of_cell c) e n = (rec_of_cell (shrc n c), e + n).
Proof.
  intros Hc Hn. unfold shr. destruct n as [|p|p]; try lia.
  - rewrite shrc_0, Z.add_0_r. reflexivity.
  - rewrite iter_shr_1_rec by auto. reflexivity.
Qed.

Lemma round_cell_eq s e0 c : 0 <= c -> e0 <= texp prec emax e0 c ->
  round_cell prec emax s e0 c = pack prec emax s (rne_cell (shrc (texp prec emax e0 c - e0) c)) (texp prec emax e0 c).
Proof.
  intros Hc HE. unfold round_cell, binary_round_aux.
  unfold shr_fexp at 1. rewrite rec_of_loc_cell.
  fold (texp prec emax e0 c). rewrite shr_rec_cell by lia.
  replace (e0 + (texp prec emax e0 c - e0)) with (texp prec emax e0 c) by lia.
  reflexivity.
Qed.

Lemma rne_cell_bounds c : 0 <= c -> c / 4 <= rne_cell c <= c / 4 + 1.
Proof.
  intros Hc. unfold rne_cell, round_nearest_even, loc_of_cell, rec_of_cell; simpl.
  destruct (2 <=? c mod 4); destruct (Z.odd c); simpl; try lia.
  destruct (Z.even (c / 4)); lia.
Qed.

Lemma rne_cell_mono c1 c2 : 0 <= c1 <= c2 -> rne_cell c1 <= rne_cell c2.
Proof.
  intros [H1 H12]. unfold rne_cell, round_nearest_even, loc_of_cell, rec_of_cell; simpl.
  assert (E1 : c1 = 4 * (c1 / 4) + c1 mod 4) by (apply Z.div_mod; lia).
  assert (E2 : c2 = 4 * (c2 / 4) + c2 mod 4) by (apply Z.div_mod; lia).
  assert (B1 : 0 <= c1 mod 4 < 4) by (apply Z.mod_pos_bound; lia).
  assert (B2 : 0 <= c2 mod 4 < 4) by (apply Z.mod_pos_bound; lia).
  assert (O1 : c1 mod 2 = (c1 mod 4) mod 2) by (Z.div_mod_to_equations; lia).
  assert (O2 : c2 mod 2 = (c2 mod 4) mod 2) by (Z.div_mod_to_equations; lia).
  rewrite (Zodd_mod c1), (Zodd_mod c2), O1, O2.
  assert (Hq : c1 / 4 <= c2 / 4) by (apply Z.div_le_mono; lia).
  destruct (Z.eq_dec (c1 / 4) (c2 / 4)) as [Heq|Hne].
  - rewrite <- Heq in *. set (q := c1 / 4) in *.
    assert (c1 mod 4 = 0 \/ c1 mod 4 = 1 \/ c1 mod 4 = 2 \/ c1 mod 4 = 3) as C1 by lia.
    assert (c2 mod 4 = 0 \/ c2 mod 4 = 1 \/ c2 mod 4 = 2 \/ c2 mod 4 = 3) as C2 by lia.
    destruct C1 as [C1|[C1|[C1|C1]]], C2 as [C2|[C2|[C2|C2]]]; rewrite C1, C2 in *;
      simpl; try lia; destruct (Z.even q); lia.
  - assert (c1 / 4 + 1 <= c2 / 4) by lia.
    destruct (2 <=? c1 mod 4); destruct (Z.eqb ((c1 mod 4) mod 2) 1);
    destruct (2 <=? c2 mod 4); destruct (Z.eqb ((c2 mod 4) mod 2) 1); simpl;
    repeat match goal with |- context [Z.even ?x] => destruct (Z.even x) end; lia.
Qed.

Lemma shr_fexp_exact M E : 0 <= M ->
  shr_fexp prec emax M E loc_Exact =
    let n := fexp prec emax (Zdigits2 M + E) - E in
    if n <=? 0 then (rec_of_cell (4 * M), E)
    else (rec_of_cell (shrc n (4 * M)), E + n).
Proof.
  intros HM. unfold shr_fexp. cbv zeta.
  assert (R : shr_record_of_loc M loc_Exact = rec_of_cell (4 * M)).
  { unfold rec_of_cell. simpl shr_record_of_loc.
    replace (4 * M / 4) with M by (Z.div_mod_to_equations; lia).
    replace (4 * M mod 4) with 0 by (Z.div_mod_to_equations; lia).
    replace (Z.odd (4 * M)) with false; [reflexivity|].
    rewrite Zodd_mod. replace (4 * M mod 2) with 0 by (Z.div_mod_to_equations; lia). reflexivity. }
  rewrite R.
  destruct (Z.leb_spec (fexp prec emax (Zdigits2 M + E) - E) 0) as [Hle|Hgt].
  - unfold shr. destruct (fexp prec emax (Zdigits2 M + E) - E); try reflexivity. lia.
  - apply shr_rec_cell; lia.
Qed.

Lemma pack_zero s E : pack prec emax s 0 E = S754_zero s.
Proof.
  unfold pack. rewrite shr_fexp_exact by lia. cbv zeta.
  destruct (_ <=? 0).
  - reflexivity.
  - unfold shrc, sdiv. simpl (4 * 0). rewrite Zdiv_0_l, Zmod_0_l. reflexivity.
Qed.



Lemma pack_eq s M E : 0 <= M <= 2 ^ prec -> emin prec emax <= E ->
  pack prec emax s M E = pack' prec emax s M E.
Proof.
  intros [HM0 HM1] HE. unfold pack'.
  destruct (Z.eqb_spec M 0) as [->|Hnz]. { apply pack_zero. }
  unfold pack. rewrite shr_fexp_exact by lia. cbv zeta.
  destruct (Z.ltb_spec M (2 ^ prec)) as [Hlt|Hge].
  - assert (Hd : Zdigits2 M <= prec) by (apply Zdigits2_lt_pow; lia).
    replace (_ <=? 0) with true by (symmetry; apply Z.leb_le; unfold fexp; lia).
    unfold rec_of_cell, shr_m.
    replace (4 * M / 4) with M by (Z.div_mod_to_equations; lia).
    unfold fin. destruct M; try lia. reflexivity.
  - assert (HMe : M = 2 ^ prec) by lia. subst M.
    assert (Hd : Zdigits2 (2 ^ prec) = prec + 1).
    { apply Zdigits2_unique; [|lia]. replace (prec + 1 - 1) with prec by lia.
      split; [lia|]. apply Z.pow_lt_mono_r; lia. }
    rewrite Hd.
    replace (fexp prec emax (prec + 1 + E) - E) with 1 by (unfold fexp; lia).
    change (1 <=? 0) with false. cbv iota.
    replace (4 * 2 ^ prec) with (4 * (2 ^ (prec - 1) * 2 ^ 1)).
    2:{ rewrite <- Z.pow_add_r by lia. do 2 f_equal. lia. }
    rewrite shrc_exact by lia. unfold rec_of_cell, shr_m.
    replace (4 * 2 ^ (prec - 1) / 4) with (2 ^ (prec - 1)) by (Z.div_mod_to_equations; lia).
    unfold fin. pose proof (Z.pow_pos_nonneg 2 (prec - 1) ltac:(lia) ltac:(lia)).
    destruct (2 ^ (prec - 1)); try lia. reflexivity.
Qed.

Lemma round_mant_bounds e0 c : 0 <= c -> e0 <= texp prec emax e0 c ->
  0 <= rne_cell (shrc (texp prec emax e0 c - e0) c) <= 2 ^ prec.
Proof.
  intros Hc HE. set (n := texp prec emax e0 c - e0).
  assert (Hn : 0 <= n) by (unfold n; lia).
  pose proof (shrc_nonneg n c Hn Hc) as Hc'.
  pose proof (rne_cell_bounds _ Hc') as [Hlo Hhi].
  rewrite shrc_div4 in Hlo, Hhi by lia.
  assert (Hm : 0 <= c / 4) by (apply Z.div_pos; lia).
  assert (Hq : 0 <= c / 4 / 2 ^ n) by (apply Z.div_pos; [lia|apply Z.pow_pos_nonneg; lia]).
  assert (Hd : Zdigits2 (c / 4 / 2 ^ n) <= prec).
  { rewrite Zdigits2_div_pow by lia. unfold n, texp, fexp. lia. }
  apply Zdigits2_lt_pow in Hd; lia.
Qed.

Lemma round_cell_pack s e0 c : 0 <= c -> e0 <= emin prec emax ->
  round_cell prec emax s e0 c = pack' prec emax s (rne_cell (shrc (texp prec emax e0 c - e0) c)) (texp prec emax e0 c).
Proof.
  intros Hc He0. pose proof (fexp_ge_emin (Zdigits2 (c / 4) + e0)) as HE. fold (texp prec emax e0 c) in HE.
  rewrite round_cell_eq by lia. apply pack_eq; [apply round_mant_bounds; lia|lia].
Qed.

(** ** Rounding is monotone *)

Lemma SFleb_fin_pos m1 e1 m2 e2 : 0 < m1 -> 0 < m2 ->
  e1 < e2 \/ (e1 = e2 /\ m1 <= m2) ->
  SFleb (fin prec emax false m1 e1) (fin prec emax false m2 e2) = true.
Proof.
  intros H1 H2 H. unfold fin.
  destruct (Z.leb_spec e1 (emax - prec)); destruct (Z.leb_spec e2 (emax - prec));
    try reflexivity; try lia.
  unfold SFleb, SFcompare.
  destruct (Z.compare_spec e1 e2) as [Heq|Hlt|Hgt]; try reflexivity; try lia.
  rewrite Pos.compare_cont_spec. simpl.
  destruct (Pos.compare_spec (Z.to_pos m1) (Z.to_pos m2)) as [|?|Hgt]; try reflexivity.
  exfalso. lia.
Qed.

Lemma SFleb_zero_fin s m e : SFleb (S754_zero s) (fin prec emax false m e) = true.
Proof. unfold fin. destruct (_ <=? _); reflexivity. Qed.

Lemma pack'_le M1 E1 M2 E2 :
  0 <= M1 <= 2 ^ prec -> 0 <= M2 <= 2 ^ prec ->
  (E1 = E2 /\ M1 <= M2) \/ (E1 < E2 /\ 2 ^ (prec - 1) <= M2) ->
  SFleb (pack' prec emax false M1 E1) (pack' prec emax false M2 E2) = true.
Proof.
  intros HM1 HM2 H. unfold pack'.
  pose proof (Z.pow_pos_nonneg 2 (prec - 1) ltac:(lia) ltac:(lia)) as Hp1.
  assert (Hp : 2 ^ prec = 2 * 2 ^ (prec - 1)).
  { rewrite <- Z.pow_succ_r by lia. f_equal. lia. }
  destruct (Z.eqb_spec M1 0) as [Hz1|Hnz1].
  { destruct (Z.eqb_spec M2 0); [reflexivity|].
    destruct (M2 <? 2 ^ prec); apply SFleb_zero_fin. }
  destruct (Z.eqb_spec M2 0) as [Hz2|Hnz2]; [lia|].
  destruct (Z.ltb_spec M1 (2 ^ prec)); destruct (Z.ltb_spec M2 (2 ^ prec));
    apply SFleb_fin_pos; lia.
Qed.

Theorem round_cell_mono e0 c1 c2 : e0 <= emin prec emax -> 0 <= c1 <= c2 ->
  SFleb (round_cell prec emax false e0 c1) (round_cell prec emax false e0 c2) = true.
Proof.
  intros He0 [Hc1 Hc12]. rewrite !round_cell_pack by lia.
  pose proof (fexp_ge_emin (Zdigits2 (c1 / 4) + e0)) as HE1. fold (texp prec emax e0 c1) in HE1.
  pose proof (fexp_ge_emin (Zdigits2 (c2 / 4) + e0)) as HE2. fold (texp prec emax e0 c2) in HE2.
  assert (Hm : 0 <= c1 / 4 <= c2 / 4).
  { split; [apply Z.div_pos; lia|apply Z.div_le_mono; lia]. }
  assert (HE : texp prec emax e0 c1 <= texp prec emax e0 c2).
  { unfold texp. apply fexp_mono. pose proof (Zdigits2_le _ _ Hm). lia. }
  apply pack'_le; try (apply round_mant_bounds; lia).
  destruct (Z.eq_dec (texp prec emax e0 c1) (texp prec emax e0 c2)) as [Heq|Hne]; [left|right]; split; try lia.
  - rewrite Heq. apply rne_cell_mono. split.
    + apply shrc_nonneg; lia.
    + apply shrc_mono; lia.
  - set (n := texp prec emax e0 c2 - e0). assert (Hn : 0 <= n) by (unfold n; lia).
    pose proof (shrc_nonneg n c2 Hn ltac:(lia)) as Hc'.
    pose proof (rne_cell_bounds _ Hc') as [Hlo _].
    rewrite shrc_div4 in Hlo by lia.
    assert (Hd : Zdigits2 (c2 / 4 / 2 ^ n) = prec).
    { rewrite Zdigits2_div_pow by lia. unfold n, texp, fexp in *. lia. }
    assert (Hpos : 0 < c2 / 4 / 2 ^ n).
    { destruct (c2 / 4 / 2 ^ n) eqn:Q; simpl in Hd; try lia.
      assert (0 <= Z.neg p); [|lia]. rewrite <- Q.
      apply Z.div_pos; [lia|apply Z.pow_pos_nonneg; lia]. }
    pose proof (Zdigits2_bounds _ Hpos) as [Hb _]. rewrite Hd in Hb. lia.
Qed.

(** ** The result does not depend on the grid the value is given on *)

Lemma texp_shrc e0 k c : 0 <= k -> 0 <= c ->
  e0 + k <= texp prec emax (e0 + k) (shrc k c) -> texp prec emax (e0 + k) (shrc k c) = texp prec emax e0 c.
Proof.
  intros Hk Hc. unfold texp. rewrite shrc_div4 by lia.
  assert (Hm : 0 <= c / 4) by (apply Z.div_pos; lia).
  rewrite Zdigits2_div_pow by lia.
  pose proof (Zdigits2_nonneg (c / 4)). unfold fexp. lia.
Qed.

Lemma round_cell_coarsen s e0 k c : 0 <= k -> 0 <= c ->
  e0 + k <= texp prec emax (e0 + k) (shrc k c) ->
  round_cell prec emax s e0 c = round_cell prec emax s (e0 + k) (shrc k c).
Proof.
  intros Hk Hc HE. pose proof (texp_shrc e0 k c Hk Hc HE) as Ht.
  rewrite (round_cell_eq s e0 c) by lia.
  rewrite (round_cell_eq s (e0 + k) (shrc k c)) by (auto; apply shrc_nonneg; lia).
  rewrite Ht. rewrite shrc_shrc by lia.
  do 3 f_equal. lia.
Qed.

Lemma loc_of_cell_4 m : loc_of_cell (4 * m) = loc_Exact.
Proof.
  unfold loc_of_cell, rec_of_cell, loc_of_shr_record.
  replace (4 * m mod 4) with 0 by (Z.div_mod_to_equations; lia).
  rewrite Zodd_mod. replace (4 * m mod 2) with 0 by (Z.div_mod_to_equations; lia).
  reflexivity.
Qed.

Lemma round_cell_exact s e m :
  binary_round_aux prec emax s m e loc_Exact = round_cell prec emax s e (4 * m).
Proof.
  unfold round_cell. rewrite loc_of_cell_4.
  replace (4 * m / 4) with m by (Z.div_mod_to_equations; lia). reflexivity.
Qed.

(** Rounding an exact dyadic [m * 2^e], read at a finer scale [e0]. *)
Lemma bra_fine s m e e0 : 0 <= m -> e0 <= e ->
  e <= fexp prec emax (Zdigits2 m + e) ->
  binary_round_aux prec emax s m e loc_Exact = round_cell prec emax s e0 (4 * (m * 2 ^ (e - e0))).
Proof.
  intros Hm He HE. rewrite round_cell_exact.
  pose proof (Z.pow_pos_nonneg 2 (e - e0) ltac:(lia) ltac:(lia)) as Hp.
  rewrite (round_cell_coarsen s e0 (e - e0)); try lia.
  - rewrite shrc_exact by lia. f_equal. lia.
  - rewrite shrc_exact by lia. unfold texp.
    replace (4 * m / 4) with m by (Z.div_mod_to_equations; lia).
    replace (e0 + (e - e0)) with e by lia. exact HE.
Qed.

Lemma iter_xO m d : Z.pos (Pos.iter xO m d) = Z.pos m * 2 ^ Z.pos d.
Proof.
  induction d as [|d IH] using Pos.peano_ind.
  - change (Pos.iter xO m 1) with (m~0)%positive. change (2 ^ 1) with 2. lia.
  - rewrite Pos.iter_succ, Pos2Z.inj_xO, IH, Pos2Z.inj_succ, Z.pow_succ_r by lia. lia.
Qed.

Lemma shl_align_spec m e e' :
  let '(mz, ez) := shl_align m e e' in
  ez = Z.min e e' /\ Z.pos mz = Z.pos m * 2 ^ (e - ez).
Proof.
  unfold shl_align. destruct (e' - e) as [|d|d] eqn:Hd.
  - split; [lia|]. replace (e - e) with 0 by lia. lia.
  - split; [lia|]. replace (e - e) with 0 by lia. lia.
  - split; [lia|]. rewrite iter_xO. f_equal. f_equal. lia.
Qed.

Lemma binary_round_fine s m e e0 : e0 <= e -> e0 <= emin prec emax ->
  binary_round prec emax s m e = round_cell prec emax s e0 (4 * (Z.pos m * 2 ^ (e - e0))).
Proof.
  intros He He0. unfold binary_round.
  pose proof (shl_align_spec m e (fexp prec emax (Z.pos (digits2_pos m) + e))) as H.
  destruct (shl_align m e _) as [mz ez]. destruct H as [Hez Hmz].
  pose proof (fexp_ge_emin (Z.pos (digits2_pos m) + e)) as HE.
  assert (Hk : 0 <= e - ez) by lia.
  assert (Hdig : Zdigits2 (Z.pos mz) + ez = Z.pos (digits2_pos m) + e).
  { rewrite Hmz. rewrite Zdigits2_mul_pow by lia. simpl Zdigits2. lia. }
  rewrite (bra_fine s (Z.pos mz) ez e0); try lia.
  - f_equal. rewrite Hmz. rewrite <- Z.mul_assoc. rewrite <- Z.pow_add_r by lia.
    do 3 f_equal. lia.
  - rewrite Hdig. lia.
Qed.

Hypothesis Hemax : prec < emax.




(** ** Canonical floats and their values *)

Lemma bounded_facts m e : bounded prec emax m e = true ->
  emin prec emax <= e <= emax - prec /\
  Zdigits2 (Z.pos m) <= prec /\
  (emin prec emax < e -> Zdigits2 (Z.pos m) = prec) /\
  fexp prec emax (Zdigits2 (Z.pos m) + e) = e.
Proof.
  unfold bounded, canonical_mantissa. intros H.
  apply andb_true_iff in H. destruct H as [H1 H2].
  apply Z.eqb_eq in H1. apply Z.leb_le in H2. simpl Zdigits2.
  unfold fexp in *. lia.
Qed.

Lemma pack'_valid s M E : 0 <= M <= 2 ^ prec -> emin prec emax <= E ->
  (emin prec emax < E -> 2 ^ (prec - 1) <= M) ->
  valid_binary prec emax (pack' prec emax s M E) = true.
Proof.
  intros [HM0 HM1] HE HN. unfold pack'.
  pose proof (Z.pow_pos_nonneg 2 (prec - 1) ltac:(lia) ltac:(lia)) as Hp1.
  destruct (Z.eqb_spec M 0); [reflexivity|].
  destruct (Z.ltb_spec M (2 ^ prec)) as [Hlt|Hge]; unfold fin.
  - destruct (Z.leb_spec E (emax - prec)) as [Hle|]; [|reflexivity].
    simpl. unfold bounded, canonical_mantissa.
    apply andb_true_iff. split; [|apply Z.leb_le; lia]. apply Z.eqb_eq.
    assert (Hd : Zdigits2 M <= prec) by (apply Zdigits2_lt_pow; lia).
    change (Z.pos (digits2_pos (Z.to_pos M))) with (Zdigits2 (Z.pos (Z.to_pos M))).
    rewrite Z2Pos.id by lia.
    destruct (Z.eq_dec E (emin prec emax)) as [->|Hne]; [unfold fexp; lia|].
    assert (Hd2 : prec <= Zdigits2 M).
    { destruct (Z_lt_le_dec (Zdigits2 M) prec) as [Hc|]; [|lia]. exfalso.
      assert (Zdigits2 M <= prec - 1) as Hc' by lia.
      apply Zdigits2_lt_pow in Hc'; lia. }
    unfold fexp. lia.
  - destruct (Z.leb_spec (E + 1) (emax - prec)) as [Hle|]; [|reflexivity].
    simpl. unfold bounded, canonical_mantissa.
    apply andb_true_iff. split; [|apply Z.leb_le; lia]. apply Z.eqb_eq.
    change (Z.pos (digits2_pos (Z.to_pos (2 ^ (prec - 1)))))
      with (Zdigits2 (Z.pos (Z.to_pos (2 ^ (prec - 1))))).
    rewrite Z2Pos.id by lia.
    replace (Zdigits2 (2 ^ (prec - 1))) with prec; [unfold fexp; lia|].
    symmetry. apply Zdigits2_unique; [|lia]. split; [lia|].
    apply Z.pow_lt_mono_r; lia.
Qed.

Lemma round_cell_valid s e0 c : 0 <= c -> e0 <= emin prec emax ->
  valid_binary prec emax (round_cell prec emax s e0 c) = true.
Proof.
  intros Hc He0. rewrite round_cell_pack by lia.
  pose proof (fexp_ge_emin (Zdigits2 (c / 4) + e0)) as HE. fold (texp prec emax e0 c) in HE.
  apply pack'_valid; [apply round_mant_bounds; lia|lia|].
  intros Hgt. set (n := texp prec emax e0 c - e0). assert (Hn : 0 <= n) by (unfold n; lia).
  pose proof (shrc_nonneg n c Hn ltac:(lia)) as Hc'.
  pose proof (rne_cell_bounds _ Hc') as [Hlo _].
  rewrite shrc_div4 in Hlo by lia.
  assert (Hm : 0 <= c / 4) by (apply Z.div_pos; lia).
  assert (Hd : Zdigits2 (c / 4 / 2 ^ n) = prec).
  { rewrite Zdigits2_div_pow by lia. unfold n, texp, fexp in *. lia. }
  assert (Hpos : 0 < c / 4 / 2 ^ n).
  { destruct (c / 4 / 2 ^ n) eqn:Q; simpl in Hd; try lia.
    assert (0 <= Z.neg p); [|lia]. rewrite <- Q.
    apply Z.div_pos; [lia|apply Z.pow_pos_nonneg; lia]. }
  pose proof (Zdigits2_bounds _ Hpos) as [Hb _]. rewrite Hd in Hb. lia.
Qed.

Lemma round_cell_canonical s m e : bounded prec emax m e = true ->
  round_cell prec emax s (emin prec emax) (4 * (Z.pos m * 2 ^ (e - emin prec emax))) = S754_finite s m e.
Proof.
  intros Hb. destruct (bounded_facts m e Hb) as (He & Hd & _ & Hf).
  rewrite <- bra_fine by lia.
  rewrite round_cell_exact. rewrite round_cell_eq; try lia.
  - unfold texp. replace (4 * Z.pos m / 4) with (Z.pos m) by (Z.div_mod_to_equations; lia).
    rewrite Hf. replace (e - e) with 0 by lia. rewrite shrc_0.
    unfold rne_cell. rewrite loc_of_cell_4.
    replace (4 * Z.pos m / 4) with (Z.pos m) by (Z.div_mod_to_equations; lia).
    simpl round_nearest_even.
    assert (Hlt : Z.pos m < 2 ^ prec) by (apply Zdigits2_lt_pow; lia).
    rewrite pack_eq by lia. unfold pack'.
    replace (Z.pos m =? 0) with false by reflexivity.
    replace (Z.pos m <? 2 ^ prec) with true by (symmetry; apply Z.ltb_lt; lia).
    unfold fin. replace (e <=? emax - prec) with true by (symmetry; apply Z.leb_le; lia).
    reflexivity.
  - unfold texp. replace (4 * Z.pos m / 4) with (Z.pos m) by (Z.div_mod_to_equations; lia).
    lia.
Qed.

Lemma emin_nonpos : emin prec emax <= 0.
Proof. unfold emin. lia. Qed.

Lemma binary_normalize_RZ z e : emin prec emax <= e ->
  binary_normalize prec emax z e false = RZ prec emax (emin prec emax) (z * 2 ^ (e - emin prec emax)).
Proof.
  intros He. pose proof (Z.pow_pos_nonneg 2 (e - emin prec emax) ltac:(lia) ltac:(lia)) as Hp.
  unfold RZ, binary_normalize. destruct z as [|m|m].
  - reflexivity.
  - replace (_ =? 0) with false by (symmetry; apply Z.eqb_neq; nia).
    replace (_ <? 0) with false by (symmetry; apply Z.ltb_ge; nia).
    rewrite Z.abs_eq by nia. apply binary_round_fine; lia.
  - replace (_ =? 0) with false by (symmetry; apply Z.eqb_neq; nia).
    replace (_ <? 0) with true by (symmetry; apply Z.ltb_lt; nia).
    replace (Z.abs (Z.neg m * 2 ^ (e - emin prec emax))) with (Z.pos m * 2 ^ (e - emin prec emax)) by nia.
    apply binary_round_fine; lia.
Qed.

Lemma cond_Zopp_mul s a b : cond_Zopp s a * b = cond_Zopp s (a * b).
Proof. destruct s; simpl; lia. Qed.

Lemma SFadd_finite sx mx ex sy my ey :
  emin prec emax <= ex -> emin prec emax <= ey ->
  SFadd prec emax (S754_finite sx mx ex) (S754_finite sy my ey)
  = RZ prec emax (emin prec emax) (Vz prec emax (S754_finite sx mx ex) + Vz prec emax (S754_finite sy my ey)).
Proof.
  intros Hx Hy. unfold SFadd.
  pose proof (shl_align_spec mx ex (Z.min ex ey)) as Ax.
  pose proof (shl_align_spec my ey (Z.min ex ey)) as Ay.
  destruct (shl_align mx ex (Z.min ex ey)) as [mzx ezx].
  destruct (shl_align my ey (Z.min ex ey)) as [mzy ezy].
  destruct Ax as [Ex Mx], Ay as [Ey My]. cbn [fst].
  rewrite binary_normalize_RZ by lia. f_equal.
  rewrite Z.mul_add_distr_r, !cond_Zopp_mul, Mx, My. unfold Vz.
  rewrite <- !Z.mul_assoc, <- !Z.pow_add_r by lia.
  change (IntDef.Z.min ex ey) with (Z.min ex ey).
  replace (ex - ezx + (Z.min ex ey - emin prec emax)) with (ex - emin prec emax) by lia.
  replace (ey - ezy + (Z.min ex ey - emin prec emax)) with (ey - emin prec emax) by lia.
  reflexivity.
Qed.

Lemma canon_lt m1 e1 m2 e2 :
  bounded prec emax m1 e1 = true -> bounded prec emax m2 e2 = true -> e1 < e2 ->
  Z.pos m1 * 2 ^ (e1 - emin prec emax) < Z.pos m2 * 2 ^ (e2 - emin prec emax).
Proof.
  intros B1 B2 Hlt.
  destruct (bounded_facts _ _ B1) as (He1 & Hd1 & _ & _).
  destruct (bounded_facts _ _ B2) as (He2 & _ & Hn2 & _).
  assert (H1 : Z.pos m1 < 2 ^ prec) by (apply Zdigits2_lt_pow; lia).
  pose proof (Zdigits2_bounds (Z.pos m2) ltac:(lia)) as [H2 _].
  rewrite Hn2 in H2 by lia.
  set (a := e1 - emin prec emax). assert (Ha : 0 <= a) by (unfold a; lia).
  replace (e2 - emin prec emax) with (a + 1 + (e2 - e1 - 1)) by (unfold a; lia).
  rewrite !Z.pow_add_r by lia. change (2 ^ 1) with 2.
  pose proof (Z.pow_pos_nonneg 2 a ltac:(lia) Ha).
  pose proof (Z.pow_pos_nonneg 2 (e2 - e1 - 1) ltac:(lia) ltac:(lia)).
  assert (Hp : 2 ^ prec = 2 * 2 ^ (prec - 1)).
  { rewrite <- Z.pow_succ_r by lia. f_equal. lia. }
  set (A := 2 ^ a) in *. set (B := 2 ^ (e2 - e1 - 1)) in *. set (P := 2 ^ (prec - 1)) in *.
  assert (S1 : Z.pos m1 * A < 2 * P * A) by nia.
  assert (S2 : 2 * P * A <= Z.pos m2 * 2 * A) by nia.
  assert (S3 : Z.pos m2 * 2 * A * 1 <= Z.pos m2 * 2 * A * B).
  { apply Z.mul_le_mono_nonneg_l; lia. }
  lia.
Qed.



Lemma finite_ordered x : finite_float prec emax x -> ordered_float prec emax x.
Proof. intros [V F]. split; auto. destruct x; auto. Qed.

Lemma Vabs_lt_inf s m e : bounded prec emax m e = true ->
  Vabs prec emax (S754_finite s m e) < 2 ^ (emax - emin prec emax).
Proof.
  intros Hb. destruct (bounded_facts _ _ Hb) as (He & Hd & _).
  assert (Hm : Z.pos m < 2 ^ prec) by (apply Zdigits2_lt_pow; lia).
  unfold Vabs.
  pose proof (Z.pow_pos_nonneg 2 (e - emin prec emax) ltac:(lia) ltac:(lia)) as Hp.
  assert (Hle : 2 ^ (prec + (e - emin prec emax)) <= 2 ^ (emax - emin prec emax))
    by (apply Z.pow_le_mono_r; lia).
  rewrite Z.pow_add_r in Hle by lia. nia.
Qed.

Lemma Vabs_pos s m e : emin prec emax <= e -> 0 < Vabs prec emax (S754_finite s m e).
Proof.
  intros He. unfold Vabs.
  pose proof (Z.pow_pos_nonneg 2 (e - emin prec emax) ltac:(lia) ltac:(lia)). nia.
Qed.

Lemma Vz_Vabs s m e :
  Vz prec emax (S754_finite s m e) = cond_Zopp s (Vabs prec emax (S754_finite s m e)).
Proof. reflexivity. Qed.

Lemma Zcompare_mul_pos a b c : 0 < c -> (a * c ?= b * c) = (a ?= b).
Proof.
  intros Hc. destruct (Z.compare_spec a b) as [H|H|H].
  - subst. apply Z.compare_refl.
  - apply Z.compare_lt_iff. nia.
  - apply Z.compare_gt_iff. nia.
Qed.

Theorem SFcompare_Vz x y : ordered_float prec emax x -> ordered_float prec emax y ->
  SFcompare x y = Some (Vz prec emax x ?= Vz prec emax y).
Proof.
  intros [Vx Fx] [Vy Fy].
  pose proof (Z.pow_pos_nonneg 2 (emax - emin prec emax) ltac:(lia)
                ltac:(unfold emin; lia)) as HK.
  destruct x as [sx|sx| |sx mx ex]; try contradiction;
  destruct y as [sy|sy| |sy my ey]; try contradiction;
  unfold SFcompare.
  - reflexivity.
  - f_equal. symmetry. unfold Vz.
    destruct sy; unfold cond_Zopp; [apply Z.compare_gt_iff|apply Z.compare_lt_iff]; lia.
  - destruct (bounded_facts _ _ Vy) as (He & _).
    pose proof (Vabs_pos sy my ey ltac:(lia)). rewrite Vz_Vabs.
    f_equal. symmetry. unfold Vz at 1.
    destruct sy; unfold cond_Zopp; [apply Z.compare_gt_iff|apply Z.compare_lt_iff]; lia.
  - f_equal. symmetry. unfold Vz.
    destruct sx; unfold cond_Zopp; [apply Z.compare_lt_iff|apply Z.compare_gt_iff]; lia.
  - f_equal. symmetry. unfold Vz.
    destruct sx, sy; unfold cond_Zopp;
      [apply Z.compare_refl|apply Z.compare_lt_iff|apply Z.compare_gt_iff|apply Z.compare_refl];
      lia.
  - destruct (bounded_facts _ _ Vy) as (He & _).
    pose proof (Vabs_pos sy my ey ltac:(lia)). pose proof (Vabs_lt_inf sy my ey Vy).
    rewrite Vz_Vabs. f_equal. symmetry. unfold Vz at 1.
    destruct sx, sy; unfold cond_Zopp;
      [apply Z.compare_lt_iff|apply Z.compare_lt_iff|apply Z.compare_gt_iff|apply Z.compare_gt_iff];
      lia.
  - destruct (bounded_facts _ _ Vx) as (He & _).
    pose proof (Vabs_pos sx mx ex ltac:(lia)). rewrite Vz_Vabs.
    f_equal. symmetry. unfold Vz at 1.
    destruct sx; unfold cond_Zopp; [apply Z.compare_lt_iff|apply Z.compare_gt_iff]; lia.
  - destruct (bounded_facts _ _ Vx) as (He & _).
    pose proof (Vabs_pos sx mx ex ltac:(lia)). pose proof (Vabs_lt_inf sx mx ex Vx).
    rewrite Vz_Vabs. f_equal. symmetry. unfold Vz at 1.
    destruct sx, sy; unfold cond_Zopp;
      [apply Z.compare_gt_iff|apply Z.compare_lt_iff|apply Z.compare_gt_iff|apply Z.compare_lt_iff];
      lia.
  - destruct (bounded_facts _ _ Vx) as (Hex & _). destruct (bounded_facts _ _ Vy) as (Hey & _).
    pose proof (Vabs_pos sx mx ex ltac:(lia)) as Px.
    pose proof (Vabs_pos sy my ey ltac:(lia)) as Py.
    rewrite !Vz_Vabs. f_equal. symmetry.
    destruct sx, sy; unfold cond_Zopp.
    + rewrite Z.compare_opp. rewrite Pos.compare_cont_spec. cbn [Pos.switch_Eq].
      destruct (Z.compare_spec ex ey) as [Heq|Hlt|Hgt].
      * subst ey. unfold Vabs. rewrite Zcompare_mul_pos by (apply Z.pow_pos_nonneg; lia).
        change (Z.pos my ?= Z.pos mx) with (my ?= mx)%positive.
        rewrite (Pos.compare_antisym mx my). destruct (mx ?= my)%positive; reflexivity.
      * apply Z.compare_gt_iff. exact (canon_lt _ _ _ _ Vx Vy Hlt).
      * apply Z.compare_lt_iff. exact (canon_lt _ _ _ _ Vy Vx Hgt).
    + apply Z.compare_lt_iff. lia.
    + apply Z.compare_gt_iff. lia.
    + rewrite Pos.compare_cont_spec. cbn [Pos.switch_Eq].
      destruct (Z.compare_spec ex ey) as [Heq|Hlt|Hgt].
      * subst ey. unfold Vabs. rewrite Zcompare_mul_pos by (apply Z.pow_pos_nonneg; lia).
        change (Z.pos mx ?= Z.pos my) with (mx ?= my)%positive.
        destruct (mx ?= my)%positive; reflexivity.
      * apply Z.compare_lt_iff. exact (canon_lt _ _ _ _ Vx Vy Hlt).
      * apply Z.compare_gt_iff. exact (canon_lt _ _ _ _ Vy Vx Hgt).
Qed.

Lemma SFleb_Vz x y : ordered_float prec emax x -> ordered_float prec emax y ->
  SFleb x y = true <-> Vz prec emax x <= Vz prec emax y.
Proof.
  intros Hx Hy. unfold SFleb. rewrite SFcompare_Vz by assumption.
  destruct (Z.compare_spec (Vz prec emax x) (Vz prec emax y)); split; intros; try lia; try reflexivity; discriminate.
Qed.

Lemma SFltb_Vz x y : ordered_float prec emax x -> ordered_float prec emax y ->
  SFltb x y = true <-> Vz prec emax x < Vz prec emax y.
Proof.
  intros Hx Hy. unfold SFltb. rewrite SFcompare_Vz by assumption.
  destruct (Z.compare_spec (Vz prec emax x) (Vz prec emax y)); split; intros; try lia; try reflexivity; discriminate.
Qed.


(** ** Signs *)

Lemma pack'_opp M E : pack' prec emax true M E = SFopp (pack' prec emax false M E).
Proof.
  unfold pack', fin. destruct (M =? 0); [reflexivity|].
  destruct (M <? 2 ^ prec); destruct (_ <=? _); reflexivity.
Qed.

Lemma pack'_nonneg M E : nonneg_float (pack' prec emax false M E).
Proof.
  unfold pack', fin. destruct (M =? 0); [exact I|].
  destruct (M <? 2 ^ prec); destruct (_ <=? _); exact I.
Qed.

Lemma round_cell_neg e0 c : 0 <= c -> e0 <= emin prec emax ->
  round_cell prec emax true e0 c = SFopp (round_cell prec emax false e0 c).
Proof. intros. rewrite !round_cell_pack by lia. apply pack'_opp. Qed.

Lemma round_cell_nonneg e0 c : 0 <= c -> e0 <= emin prec emax ->
  nonneg_float (round_cell prec emax false e0 c).
Proof. intros. rewrite round_cell_pack by lia. apply pack'_nonneg. Qed.

Lemma SFleb_opp a b : SFleb (SFopp a) (SFopp b) = SFleb b a.
Proof.
  unfold SFleb.
  destruct a as [sa| sa| |sa ma ea], b as [sb|sb| |sb mb eb]; simpl;
    try reflexivity;
    try (destruct sa; reflexivity); try (destruct sb; reflexivity);
    try (destruct sa, sb; reflexivity).
  destruct sa, sb; simpl; try reflexivity;
    rewrite (Z.compare_antisym ea eb), !Pos.compare_cont_spec;
    rewrite (Pos.compare_antisym ma mb);
    destruct (ea ?= eb); simpl; try reflexivity;
    destruct (ma ?= mb)%positive; reflexivity.
Qed.

Lemma SFleb_nonpos_nonneg a b : nonneg_float a -> nonneg_float b ->
  SFleb (SFopp a) b = true.
Proof.
  destruct a as [sa| sa| |sa ma ea], b as [sb|sb| |sb mb eb]; simpl;
    try contradiction; intros Ha Hb;
    repeat match goal with s : bool |- _ => destruct s end;
    try contradiction; reflexivity.
Qed.

Lemma SFleb_zero_nonneg s b : nonneg_float b -> SFleb (S754_zero s) b = true.
Proof.
  destruct b as [sb|sb| |sb mb eb]; simpl; try contradiction; intros Hb;
    repeat match goal with s : bool |- _ => destruct s end;
    try contradiction; reflexivity.
Qed.

Theorem RZ_mono e0 z1 z2 : e0 <= emin prec emax -> z1 <= z2 ->
  SFleb (RZ prec emax e0 z1) (RZ prec emax e0 z2) = true.
Proof.
  intros He0 Hz. unfold RZ.
  destruct (Z.eqb_spec z1 0) as [Z1|Z1]; destruct (Z.eqb_spec z2 0) as [Z2|Z2].
  - reflexivity.
  - replace (z2 <? 0) with false by (symmetry; apply Z.ltb_ge; lia).
    apply SFleb_zero_nonneg, round_cell_nonneg; lia.
  - replace (z1 <? 0) with true by (symmetry; apply Z.ltb_lt; lia).
    rewrite round_cell_neg by lia.
    apply (SFleb_nonpos_nonneg _ (S754_zero false)); [apply round_cell_nonneg; lia|exact I].
  - destruct (Z.ltb_spec z1 0) as [N1|P1]; destruct (Z.ltb_spec z2 0) as [N2|P2]; try lia.
    + rewrite !round_cell_neg by lia. rewrite SFleb_opp. apply round_cell_mono; lia.
    + rewrite round_cell_neg by lia. apply SFleb_nonpos_nonneg; apply round_cell_nonneg; lia.
    + apply round_cell_mono; lia.
Qed.

Lemma RZ_valid e0 z : e0 <= emin prec emax -> valid_binary prec emax (RZ prec emax e0 z) = true.
Proof.
  intros He0. unfold RZ. destruct (z =? 0); [reflexivity|].
  apply round_cell_valid; lia.
Qed.

Lemma pack'_abs s M E : SFabs (pack' prec emax s M E) = pack' prec emax false M E.
Proof.
  unfold pack', fin. destruct (M =? 0); [reflexivity|].
  destruct (M <? 2 ^ prec); destruct (_ <=? _); reflexivity.
Qed.

Lemma round_cell_abs s e0 c : 0 <= c -> e0 <= emin prec emax ->
  SFabs (round_cell prec emax s e0 c) = round_cell prec emax false e0 c.
Proof. intros. rewrite !round_cell_pack by lia. apply pack'_abs. Qed.

Lemma RZ_abs e0 z : e0 <= emin prec emax -> SFabs (RZ prec emax e0 z) = RZ prec emax e0 (Z.abs z).
Proof.
  intros He0. unfold RZ.
  destruct (Z.eqb_spec z 0) as [Z1|Z1]; destruct (Z.eqb_spec (Z.abs z) 0) as [Z2|Z2]; try lia.
  { reflexivity. }
  rewrite round_cell_abs by lia.
  replace (Z.abs z <? 0) with false by (symmetry; apply Z.ltb_ge; lia).
  rewrite Z.abs_idemp. reflexivity.
Qed.

(** ** Multiplication and division as roundings of exact values *)

Lemma Zdigits2_pos_ge1 m : 1 <= Zdigits2 (Z.pos m).
Proof. simpl. lia. Qed.

Lemma Zdigits2_mul_ge a b : 0 < a -> 0 < b ->
  Zdigits2 a + Zdigits2 b - 1 <= Zdigits2 (a * b).
Proof.
  intros Ha Hb.
  pose proof (Zdigits2_bounds a Ha) as [La _]. pose proof (Zdigits2_bounds b Hb) as [Lb _].
  assert (Da : 1 <= Zdigits2 a) by (destruct a; simpl; lia).
  assert (Db : 1 <= Zdigits2 b) by (destruct b; simpl; lia).
  destruct (Z_lt_le_dec (Zdigits2 (a * b)) (Zdigits2 a + Zdigits2 b - 1)) as [Hc|]; [|lia].
  exfalso.
  assert (Hc' : Zdigits2 (a * b) <= (Zdigits2 a - 1) + (Zdigits2 b - 1)) by lia.
  apply Zdigits2_lt_pow in Hc'; try nia.
  rewrite Z.pow_add_r in Hc' by lia. nia.
Qed.

Lemma SFmul_finite sx mx ex sy my ey :
  bounded prec emax mx ex = true -> bounded prec emax my ey = true ->
  SFmul prec emax (S754_finite sx mx ex) (S754_finite sy my ey)
  = round_cell prec emax (xorb sx sy) (2 * emin prec emax)
      (4 * (Vabs prec emax (S754_finite sx mx ex) * Vabs prec emax (S754_finite sy my ey))).
Proof.
  intros Bx By.
  destruct (bounded_facts _ _ Bx) as (Hex & Hdx & Hnx & Hfx).
  destruct (bounded_facts _ _ By) as (Hey & Hdy & Hny & Hfy).
  pose proof emin_nonpos as Hemin.
  pose proof (Zdigits2_pos_ge1 mx). pose proof (Zdigits2_pos_ge1 my).
  pose proof (Zdigits2_mul_ge (Z.pos mx) (Z.pos my) ltac:(lia) ltac:(lia)) as Hd.
  unfold SFmul. rewrite Pos2Z.inj_mul.
  rewrite (bra_fine _ _ _ (2 * emin prec emax)); try lia.
  - f_equal. unfold Vabs.
    replace (ex + ey - 2 * emin prec emax) with ((ex - emin prec emax) + (ey - emin prec emax)) by lia.
    rewrite Z.pow_add_r by lia. ring.
  - unfold fexp in *. lia.
Qed.

Lemma sdiv_scale a D L : 0 < D -> 0 < L -> sdiv (a * L) (D * L) = sdiv a D.
Proof.
  intros HD HL. unfold sdiv.
  rewrite Z.div_mul_cancel_r by lia. rewrite Z.mul_mod_distr_r by lia.
  destruct (Z.eqb_spec (a mod D) 0) as [->|Hn]; [reflexivity|].
  replace (a mod D * L =? 0) with false by (symmetry; apply Z.eqb_neq; nia). reflexivity.
Qed.

Lemma sdiv_cases A D : 0 <= A -> 0 < D ->
  sdiv (2 * A) D =
  4 * (A / D) + (if A mod D =? 0 then 0 else
                 match 2 * (A mod D) ?= D with Lt => 1 | Eq => 2 | Gt => 3 end).
Proof.
  intros HA HD.
  pose proof (Z.div_mod A D ltac:(lia)) as E. pose proof (Z.mod_pos_bound A D HD) as B.
  set (q := A / D) in *. set (r := A mod D) in *.
  unfold sdiv. destruct (Z.compare_spec (2 * r) D) as [Heq|Hlt|Hgt].
  - replace (2 * A / D) with (2 * q + 1) by (apply Z.div_unique with 0; lia).
    replace ((2 * A) mod D) with 0 by (apply Z.mod_unique with (2 * q + 1); lia).
    destruct (Z.eqb_spec r 0); [lia|]. change (0 =? 0) with true. cbv iota. lia.
  - replace (2 * A / D) with (2 * q) by (apply Z.div_unique with (2 * r); lia).
    replace ((2 * A) mod D) with (2 * r) by (apply Z.mod_unique with (2 * q); lia).
    destruct (Z.eqb_spec r 0); destruct (Z.eqb_spec (2 * r) 0); lia.
  - replace (2 * A / D) with (2 * q + 1) by (apply Z.div_unique with (2 * r - D); lia).
    replace ((2 * A) mod D) with (2 * r - D) by (apply Z.mod_unique with (2 * q + 1); lia).
    destruct (Z.eqb_spec r 0); [lia|].
    destruct (Z.eqb_spec (2 * r - D) 0); lia.
Qed.

Lemma rne_cell_4 m : rne_cell (4 * m) = m.
Proof.
  unfold rne_cell. rewrite loc_of_cell_4.
  replace (4 * m / 4) with m by (Z.div_mod_to_equations; lia). reflexivity.
Qed.

Lemma rne_cell_decode q j : 0 <= j < 4 ->
  rne_cell (4 * q + j) =
  if j <=? 1 then q else if j =? 2 then (if Z.even q then q else q + 1) else q + 1.
Proof.
  intros Hj. unfold rne_cell, loc_of_cell, rec_of_cell, loc_of_shr_record, round_nearest_even.
  replace ((4 * q + j) / 4) with q by (Z.div_mod_to_equations; lia).
  replace ((4 * q + j) mod 4) with j by (Z.div_mod_to_equations; lia).
  rewrite Zodd_mod. replace ((4 * q + j) mod 2) with (j mod 2) by (Z.div_mod_to_equations; lia).
  assert (j = 0 \/ j = 1 \/ j = 2 \/ j = 3) as [-> | [-> | [-> | ->]]] by lia; reflexivity.
Qed.

Lemma div_cell A D : 0 <= A -> 0 < D ->
  sdiv (2 * A) D / 4 = A / D /\ loc_of_cell (sdiv (2 * A) D) = new_location D (A mod D).
Proof.
  intros HA HD.
  pose proof (Z.div_mod A D ltac:(lia)) as E. pose proof (Z.mod_pos_bound A D HD) as B.
  set (q := A / D) in *. set (r := A mod D) in *.
  pose proof (sdiv_cases A D HA HD) as Hc. fold q r in Hc.
  rewrite Hc. clear Hc.
  set (j := if r =? 0 then 0 else match 2 * r ?= D with Lt => 1 | Eq => 2 | Gt => 3 end).
  assert (Hj : 0 <= j < 4).
  { unfold j. destruct (r =? 0); [lia|]. destruct (2 * r ?= D); lia. }
  split; [Z.div_mod_to_equations; lia|].
  unfold loc_of_cell, rec_of_cell, loc_of_shr_record.
  replace ((4 * q + j) mod 4) with j by (Z.div_mod_to_equations; lia).
  rewrite Zodd_mod. replace ((4 * q + j) mod 2) with (j mod 2) by (Z.div_mod_to_equations; lia).
  unfold new_location. zstd. rewrite Zeven_mod.
  assert (Hj2 : j mod 2 = if r =? 0 then 0 else match 2 * r ?= D with Eq => 0 | _ => 1 end).
  { unfold j. destruct (r =? 0); [reflexivity|]. destruct (2 * r ?= D); reflexivity. }
  destruct (Z.eqb_spec (D mod 2) 0) as [Hev|Hod].
  - unfold new_location_even. zstd. rewrite Hj2. unfold j.
    destruct (Z.eqb_spec r 0) as [Hr|Hr]; [reflexivity|].
    destruct (2 * r ?= D); reflexivity.
  - unfold new_location_odd. zstd. rewrite Hj2. unfold j.
    destruct (Z.eqb_spec r 0) as [Hr|Hr]; [reflexivity|].
    assert (Hod' : D mod 2 = 1) by (pose proof (Z.mod_pos_bound D 2 ltac:(lia)); lia).
    destruct (Z.compare_spec (2 * r) D) as [Heq|Hlt|Hgt];
    destruct (Z.compare_spec (2 * r + 1) D) as [Heq'|Hlt'|Hgt']; try reflexivity; try lia.
    exfalso. rewrite <- Heq in Hod'. clear - Hod'. Z.div_mod_to_equations. lia.
Qed.

Lemma Zdigits2_div_ge A D : 0 <= A -> 0 < D ->
  Zdigits2 A - Zdigits2 D <= Zdigits2 (A / D).
Proof.
  intros HA HD.
  pose proof (Z.div_mod A D ltac:(lia)) as E. pose proof (Z.mod_pos_bound A D HD) as B.
  assert (Hq : 0 <= A / D) by (apply Z.div_pos; lia).
  pose proof (Zdigits2_nonneg (A / D)) as Hdq. pose proof (Zdigits2_nonneg D) as HdD.
  assert (Hql : A / D < 2 ^ Zdigits2 (A / D)) by (apply Zdigits2_lt_pow; lia).
  assert (HDl : D < 2 ^ Zdigits2 D) by (apply Zdigits2_lt_pow; lia).
  assert (HAl : A < 2 ^ (Zdigits2 (A / D) + Zdigits2 D)).
  { rewrite Z.pow_add_r by lia. nia. }
  apply Zdigits2_lt_pow in HAl; lia.
Qed.

Lemma SFdiv_finite sx mx ex sy my ey e0 :
  bounded prec emax mx ex = true -> bounded prec emax my ey = true ->
  e0 <= emin prec emax - emax ->
  SFdiv prec emax (S754_finite sx mx ex) (S754_finite sy my ey)
  = round_cell prec emax (xorb sx sy) e0 (sdiv (2 * (Z.pos mx * 2 ^ (ex - ey - e0))) (Z.pos my)).
Proof.
  intros Bx By He0.
  destruct (bounded_facts _ _ Bx) as (Hex & _). destruct (bounded_facts _ _ By) as (Hey & _).
  unfold SFdiv, SFdiv_core_binary. zstd.
  set (mu := Zdigits2 (Z.pos mx) + ex - (Zdigits2 (Z.pos my) + ey)).
  set (e' := Z.min (fexp prec emax mu) (ex - ey)).
  pose proof (fexp_ge_emin mu) as Hmu.
  assert (Hs : 0 <= ex - ey - e') by (unfold e'; lia).
  assert (He' : e0 <= e') by (unfold e'; lia).
  set (m' := match ex - ey - e' with
             | 0 => Z.pos mx
             | Z.pos _ => Z.shiftl (Z.pos mx) (ex - ey - e')
             | Z.neg _ => 0
             end).
  assert (Hm' : m' = Z.pos mx * 2 ^ (ex - ey - e')).
  { unfold m'. destruct (ex - ey - e') as [|p|p] eqn:Hse; try lia.
    rewrite Z.shiftl_mul_pow2 by lia. reflexivity. }
  pose proof (Z.pow_pos_nonneg 2 (ex - ey - e') ltac:(lia) Hs) as Hp.
  assert (Hm'pos : 0 < m') by (rewrite Hm'; nia).
  assert (Hdm' : Zdigits2 m' = Zdigits2 (Z.pos mx) + (ex - ey - e')).
  { rewrite Hm'. apply Zdigits2_mul_pow; lia. }
  assert (Hqr : Z.div_eucl m' (Z.pos my) = (m' / Z.pos my, m' mod Z.pos my)).
  { unfold Z.div, Z.modulo. destruct (Z.div_eucl m' (Z.pos my)); reflexivity. }
  rewrite Hqr.
  destruct (div_cell m' (Z.pos my) ltac:(lia) ltac:(lia)) as [Hq Hl].
  rewrite <- Hq, <- Hl. fold (round_cell prec emax (xorb sx sy) e' (sdiv (2 * m') (Z.pos my))).
  set (k := e' - e0). assert (Hk : 0 <= k) by (unfold k; lia).
  pose proof (Z.pow_pos_nonneg 2 k ltac:(lia) Hk) as Hpk.
  assert (Hsh : shrc k (sdiv (2 * (Z.pos mx * 2 ^ (ex - ey - e0))) (Z.pos my))
                = sdiv (2 * m') (Z.pos my)).
  { unfold shrc. replace (2 ^ (k + 1)) with (2 * 2 ^ k) by (rewrite Z.pow_add_r by lia; lia).
    rewrite sdiv_sdiv by lia.
    replace (2 * (Z.pos mx * 2 ^ (ex - ey - e0))) with ((2 * m') * 2 ^ k).
    - apply sdiv_scale; lia.
    - rewrite Hm'. replace (ex - ey - e0) with ((ex - ey - e') + k) by (unfold k; lia).
      rewrite Z.pow_add_r by lia. ring. }
  rewrite (round_cell_coarsen (xorb sx sy) e0 k).
  - rewrite Hsh. f_equal. unfold k. lia.
  - lia.
  - apply sdiv_nonneg; nia.
  - rewrite Hsh. replace (e0 + k) with e' by (unfold k; lia).
    unfold texp. rewrite Hq.
    pose proof (Zdigits2_div_ge m' (Z.pos my) ltac:(lia) ltac:(lia)) as Hd.
    assert (Hge : mu <= Zdigits2 (m' / Z.pos my) + e') by (unfold mu; lia).
    apply fexp_mono in Hge.
    pose proof (Z.le_min_l (fexp prec emax mu) (ex - ey)) as Hmin. fold e' in Hmin. lia.
Qed.



(** ** The four operations on values *)

Lemma SFcompare_zeq a a' b b' : zeq a a' -> zeq b b' ->
  SFcompare a b = SFcompare a' b'.
Proof.
  intros [->|(s1 & s1' & -> & ->)] [->|(s2 & s2' & -> & ->)]; try reflexivity.
  all: repeat match goal with x : spec_float |- _ => destruct x end; reflexivity.
Qed.

Lemma SFleb_zeq a a' b b' : zeq a a' -> zeq b b' -> SFleb a b = SFleb a' b'.
Proof. intros Ha Hb. unfold SFleb. rewrite (SFcompare_zeq _ _ _ _ Ha Hb). reflexivity. Qed.

Lemma zeq_valid a b : zeq a b -> valid_binary prec emax b = true ->
  valid_binary prec emax a = true.
Proof. intros [->|(s & s' & -> & ->)]; auto. Qed.

Lemma RZ_canonical s m e : bounded prec emax m e = true ->
  RZ prec emax (emin prec emax) (Vz prec emax (S754_finite s m e)) = S754_finite s m e.
Proof.
  intros Hb. destruct (bounded_facts _ _ Hb) as (He & _).
  pose proof (Vabs_pos s m e ltac:(lia)) as Hp. rewrite Vz_Vabs. unfold RZ.
  destruct s; unfold cond_Zopp.
  - replace (_ =? 0) with false by (symmetry; apply Z.eqb_neq; lia).
    replace (_ <? 0) with true by (symmetry; apply Z.ltb_lt; lia).
    rewrite Z.abs_opp, Z.abs_eq by lia. apply round_cell_canonical; auto.
  - replace (_ =? 0) with false by (symmetry; apply Z.eqb_neq; lia).
    replace (_ <? 0) with false by (symmetry; apply Z.ltb_ge; lia).
    rewrite Z.abs_eq by lia. apply round_cell_canonical; auto.
Qed.

Theorem SFadd_Vz x y : finite_float prec emax x -> finite_float prec emax y ->
  zeq (SFadd prec emax x y) (RZ prec emax (emin prec emax) (Vz prec emax x + Vz prec emax y)).
Proof.
  intros [Vx Fx] [Vy Fy].
  destruct x as [sx| | |sx mx ex]; try contradiction;
  destruct y as [sy| | |sy my ey]; try contradiction.
  - right. exists (if sx then if sy then true else false else false), false.
    split; [destruct sx, sy; reflexivity|reflexivity].
  - left. cbn [SFadd]. change (Vz prec emax (S754_zero sx)) with 0. rewrite Z.add_0_l.
    symmetry. apply RZ_canonical. exact Vy.
  - left. cbn [SFadd]. change (Vz prec emax (S754_zero sy)) with 0. rewrite Z.add_0_r.
    symmetry. apply RZ_canonical. exact Vx.
  - left. destruct (bounded_facts _ _ Vx) as (Hex & _).
    destruct (bounded_facts _ _ Vy) as (Hey & _).
    apply SFadd_finite; lia.
Qed.

Theorem SFmul_Vz x y : finite_float prec emax x -> finite_float prec emax y ->
  zeq (SFmul prec emax x y) (RZ prec emax (2 * emin prec emax) (Vz prec emax x * Vz prec emax y)).
Proof.
  intros [Vx Fx] [Vy Fy].
  destruct x as [sx| | |sx mx ex]; try contradiction;
  destruct y as [sy| | |sy my ey]; try contradiction.
  - right. exists (xorb sx sy), false. split; reflexivity.
  - right. exists (xorb sx sy), false. split; reflexivity.
  - right. exists (xorb sx sy), false. split; [reflexivity|].
    change (Vz prec emax (S754_zero sy)) with 0. rewrite Z.mul_0_r. reflexivity.
  - left. rewrite SFmul_finite by assumption.
    destruct (bounded_facts _ _ Vx) as (Hex & _).
    destruct (bounded_facts _ _ Vy) as (Hey & _).
    pose proof (Vabs_pos sx mx ex ltac:(lia)) as Px.
    pose proof (Vabs_pos sy my ey ltac:(lia)) as Py.
    rewrite !Vz_Vabs. unfold RZ.
    set (a := Vabs prec emax (S754_finite sx mx ex)) in *.
    set (b := Vabs prec emax (S754_finite sy my ey)) in *.
    assert (Hab : 0 < a * b) by nia.
    destruct sx, sy; unfold cond_Zopp, xorb.
    + replace (- a * - b) with (a * b) by ring.
      replace (_ =? 0) with false by (symmetry; apply Z.eqb_neq; lia).
      replace (_ <? 0) with false by (symmetry; apply Z.ltb_ge; lia).
      rewrite Z.abs_eq by lia. reflexivity.
    + replace (- a * b) with (- (a * b)) by ring.
      replace (_ =? 0) with false by (symmetry; apply Z.eqb_neq; lia).
      replace (_ <? 0) with true by (symmetry; apply Z.ltb_lt; lia).
      rewrite Z.abs_opp, Z.abs_eq by lia. reflexivity.
    + replace (a * - b) with (- (a * b)) by ring.
      replace (_ =? 0) with false by (symmetry; apply Z.eqb_neq; lia).
      replace (_ <? 0) with true by (symmetry; apply Z.ltb_lt; lia).
      rewrite Z.abs_opp, Z.abs_eq by lia. reflexivity.
    + replace (_ =? 0) with false by (symmetry; apply Z.eqb_neq; lia).
      replace (_ <? 0) with false by (symmetry; apply Z.ltb_ge; lia).
      rewrite Z.abs_eq by lia. reflexivity.
Qed.


Theorem SFdiv_Vz x my ey : finite_float prec emax x -> 0 <= Vz prec emax x ->
  bounded prec emax my ey = true ->
  zeq (SFdiv prec emax x (S754_finite false my ey)) (Dq prec emax my ey (Vz prec emax x)).
Proof.
  intros [Vx Fx] Hx By.
  destruct x as [sx| | |sx mx ex]; try contradiction.
  - right. exists (xorb sx false), false. split; reflexivity.
  - left. destruct (bounded_facts _ _ Vx) as (Hex & _).
    destruct (bounded_facts _ _ By) as (Hey & _).
    pose proof (Vabs_pos sx mx ex ltac:(lia)) as Px. rewrite Vz_Vabs in Hx |- *.
    destruct sx; unfold cond_Zopp in *; [lia|].
    rewrite (SFdiv_finite _ _ _ _ _ _ (emin prec emax - emax)) by (auto; lia).
    unfold Dq. replace (_ =? 0) with false by (symmetry; apply Z.eqb_neq; lia).
    cbn [xorb]. do 3 f_equal. unfold Vabs.
    rewrite <- Z.mul_assoc, <- Z.pow_add_r by lia. do 2 f_equal. lia.
Qed.

Lemma Dq_mono my ey z1 z2 : ey <= emax -> 0 <= z1 <= z2 ->
  SFleb (Dq prec emax my ey z1) (Dq prec emax my ey z2) = true.
Proof.
  intros Hey [H1 H12]. unfold Dq.
  pose proof (Z.pow_pos_nonneg 2 (emax - ey) ltac:(lia) ltac:(lia)) as Hp.
  destruct (Z.eqb_spec z1 0) as [Z1|Z1]; destruct (Z.eqb_spec z2 0) as [Z2|Z2]; try lia.
  - reflexivity.
  - apply SFleb_zero_nonneg, round_cell_nonneg; [apply sdiv_nonneg; nia|lia].
  - apply round_cell_mono; [lia|]. split; [apply sdiv_nonneg; nia|].
    apply sdiv_mono; [lia|nia].
Qed.

Lemma Dq_valid my ey z : 0 <= z -> ey <= emax ->
  valid_binary prec emax (Dq prec emax my ey z) = true.
Proof.
  intros Hz Hey. unfold Dq. destruct (z =? 0); [reflexivity|].
  pose proof (Z.pow_pos_nonneg 2 (emax - ey) ltac:(lia) ltac:(lia)) as Hp.
  apply round_cell_valid; [apply sdiv_nonneg; nia|lia].
Qed.

Lemma SFsub_add_opp x y : SFsub prec emax x y = SFadd prec emax x (SFopp y).
Proof.
  destruct x as [sx|sx| |sx mx ex], y as [sy|sy| |sy my ey]; try reflexivity;
    destruct sx, sy; reflexivity.
Qed.

Lemma finite_float_opp x : finite_float prec emax x -> finite_float prec emax (SFopp x).
Proof. intros [V F]. destruct x; try contradiction; split; auto; exact I. Qed.

Lemma finite_float_abs x : finite_float prec emax x -> finite_float prec emax (SFabs x).
Proof. intros [V F]. destruct x; try contradiction; split; auto; exact I. Qed.

Lemma Vz_opp x : Vz prec emax (SFopp x) = - Vz prec emax x.
Proof.
  destruct x as [s|s| |s m e]; try reflexivity;
  destruct s; cbn [SFopp Vz negb cond_Zopp]; lia.
Qed.

Lemma Vz_abs x : finite_float prec emax x -> Vz prec emax (SFabs x) = Z.abs (Vz prec emax x).
Proof.
  intros [V F]. destruct x as [s|s| |s m e]; try contradiction; try reflexivity.
  destruct (bounded_facts _ _ V) as (He & _).
  pose proof (Vabs_pos s m e ltac:(lia)). cbn [SFabs]. rewrite !Vz_Vabs.
  change (Vabs prec emax (S754_finite false m e)) with (Vabs prec emax (S754_finite s m e)).
  destruct s; unfold cond_Zopp; lia.
Qed.

(** ** Monotonicity of the operations *)

Theorem SFadd_mono x x' y y' :
  finite_float prec emax x -> finite_float prec emax x' -> finite_float prec emax y -> finite_float prec emax y' ->
  SFleb x x' = true -> SFleb y y' = true ->
  SFleb (SFadd prec emax x y) (SFadd prec emax x' y') = true.
Proof.
  intros Hx Hx' Hy Hy' Lx Ly.
  rewrite (SFleb_zeq _ _ _ _ (SFadd_Vz x y Hx Hy) (SFadd_Vz x' y' Hx' Hy')).
  apply RZ_mono; [lia|].
  apply SFleb_Vz in Lx; auto using finite_ordered.
  apply SFleb_Vz in Ly; auto using finite_ordered. lia.
Qed.

Theorem SFsub_mono x x' y y' :
  finite_float prec emax x -> finite_float prec emax x' -> finite_float prec emax y -> finite_float prec emax y' ->
  SFleb x x' = true -> SFleb y' y = true ->
  SFleb (SFsub prec emax x y) (SFsub prec emax x' y') = true.
Proof.
  intros Hx Hx' Hy Hy' Lx Ly. rewrite !SFsub_add_opp.
  apply SFadd_mono; auto using finite_float_opp.
  rewrite SFleb_opp. exact Ly.
Qed.

Theorem SFmul_mono x x' y y' :
  finite_float prec emax x -> finite_float prec emax x' -> finite_float prec emax y -> finite_float prec emax y' ->
  0 <= Vz prec emax x -> 0 <= Vz prec emax y ->
  SFleb x x' = true -> SFleb y y' = true ->
  SFleb (SFmul prec emax x y) (SFmul prec emax x' y') = true.
Proof.
  intros Hx Hx' Hy Hy' Px Py Lx Ly.
  rewrite (SFleb_zeq _ _ _ _ (SFmul_Vz x y Hx Hy) (SFmul_Vz x' y' Hx' Hy')).
  pose proof emin_nonpos.
  apply RZ_mono; [lia|].
  apply SFleb_Vz in Lx; auto using finite_ordered.
  apply SFleb_Vz in Ly; auto using finite_ordered. nia.
Qed.

Theorem SFdiv_mono x x' my ey :
  finite_float prec emax x -> finite_float prec emax x' -> bounded prec emax my ey = true ->
  0 <= Vz prec emax x -> SFleb x x' = true ->
  SFleb (SFdiv prec emax x (S754_finite false my ey))
        (SFdiv prec emax x' (S754_finite false my ey)) = true.
Proof.
  intros Hx Hx' By Px Lx. apply SFleb_Vz in Lx; auto using finite_ordered.
  rewrite (SFleb_zeq _ _ _ _ (SFdiv_Vz x my ey Hx Px By)
                             (SFdiv_Vz x' my ey Hx' ltac:(lia) By)).
  destruct (bounded_facts _ _ By) as (Hey & _).
  apply Dq_mono; lia.
Qed.

Lemma SFadd_valid x y : finite_float prec emax x -> finite_float prec emax y ->
  valid_binary prec emax (SFadd prec emax x y) = true.
Proof.
  intros Hx Hy. apply (zeq_valid _ _ (SFadd_Vz x y Hx Hy)). apply RZ_valid. lia.
Qed.

Lemma SFsub_valid x y : finite_float prec emax x -> finite_float prec emax y ->
  valid_binary prec emax (SFsub prec emax x y) = true.
Proof. intros Hx Hy. rewrite SFsub_add_opp. apply SFadd_valid; auto using finite_float_opp. Qed.

Lemma SFmul_valid x y : finite_float prec emax x -> finite_float prec emax y ->
  valid_binary prec emax (SFmul prec emax x y) = true.
Proof.
  intros Hx Hy. apply (zeq_valid _ _ (SFmul_Vz x y Hx Hy)). apply RZ_valid.
  pose proof emin_nonpos. lia.
Qed.

Lemma SFdiv_valid x my ey : finite_float prec emax x -> 0 <= Vz prec emax x ->
  bounded prec emax my ey = true ->
  valid_binary prec emax (SFdiv prec emax x (S754_finite false my ey)) = true.
Proof.
  intros Hx Px By. apply (zeq_valid _ _ (SFdiv_Vz x my ey Hx Px By)).
  destruct (bounded_facts _ _ By) as (Hey & _). apply Dq_valid; lia.
Qed.

Lemma finite_of_bounds lo hi r :
  finite_float prec emax lo -> finite_float prec emax hi -> valid_binary prec emax r = true ->
  SFleb lo r = true -> SFleb r hi = true -> finite_float prec emax r.
Proof.
  intros [_ Flo] [_ Fhi] Vr L H. split; auto.
  destruct r as [s|s| |s m e]; try exact I.
  - destruct s.
    + destruct lo; try contradiction; discriminate.
    + destruct hi; try contradiction; discriminate.
  - destruct lo; try contradiction; discriminate.
Qed.

End RoundingFacts.


(** ** Binary64 instances *)

Lemma prec_pos : 0 < prec.
Proof. reflexivity. Qed.

Lemma prec_lt_emax : prec < emax.
Proof. reflexivity. Qed.

Lemma emin_val : emin prec emax = -1074.
Proof. reflexivity. Qed.

Ltac solve64 := try exact prec_pos; try exact prec_lt_emax; try assumption.




Lemma finite_ordered64 x : finite x -> ordered_float prec emax x.
Proof. apply finite_ordered. Qed.

Lemma leb_scaled x y : ordered_float prec emax x -> ordered_float prec emax y ->
  leb x y = true <-> scaled x <= scaled y.
Proof. apply SFleb_Vz; solve64. Qed.

Lemma ltb_scaled x y : ordered_float prec emax x -> ordered_float prec emax y ->
  ltb x y = true <-> scaled x < scaled y.
Proof. apply SFltb_Vz; solve64. Qed.

Lemma leb_ltb_false x y : ordered_float prec emax x -> ordered_float prec emax y ->
  leb x y = negb (ltb y x).
Proof.
  intros Hx Hy. unfold leb, ltb, SFleb, SFltb.
  rewrite !(SFcompare_Vz prec emax) by solve64.
  rewrite (Z.compare_antisym (Vz prec emax x) (Vz prec emax y)).
  destruct (Vz prec emax x ?= Vz prec emax y); reflexivity.
Qed.


Lemma leb_refl x : ordered_float prec emax x -> leb x x = true.
Proof. intros Hx. apply leb_scaled; auto. lia. Qed.

Lemma within_finite lo hi x : finite lo -> finite hi -> within lo hi x -> finite x.
Proof.
  intros Hlo Hhi (V & L & H).
  exact (finite_of_bounds prec emax lo hi x Hlo Hhi V L H).
Qed.


Lemma within_sub a b c d x y :
  finite a -> finite b -> finite c -> finite d ->
  within a b x -> within c d y ->
  within (sub a d) (sub b c) (sub x y).
Proof.
  intros Fa Fb Fc Fd Wx Wy.
  pose proof (within_finite _ _ _ Fa Fb Wx) as Fx.
  pose proof (within_finite _ _ _ Fc Fd Wy) as Fy.
  destruct Wx as (_ & Lx & Hx), Wy as (_ & Ly & Hy). split; [|split].
  - apply SFsub_valid; solve64.
  - apply SFsub_mono; solve64.
  - apply SFsub_mono; solve64.
Qed.

Lemma within_add a b c d x y :
  finite a -> finite b -> finite c -> finite d ->
  within a b x -> within c d y ->
  within (add a c) (add b d) (add x y).
Proof.
  intros Fa Fb Fc Fd Wx Wy.
  pose proof (within_finite _ _ _ Fa Fb Wx) as Fx.
  pose proof (within_finite _ _ _ Fc Fd Wy) as Fy.
  destruct Wx as (_ & Lx & Hx), Wy as (_ & Ly & Hy). split; [|split].
  - apply SFadd_valid; solve64.
  - apply SFadd_mono; solve64.
  - apply SFadd_mono; solve64.
Qed.

Lemma scaled_nonneg_of_leb a x : finite a -> finite x ->
  0 <= scaled a -> leb a x = true -> 0 <= scaled x.
Proof.
  intros Fa Fx Ha L. apply leb_scaled in L; auto using finite_ordered64. lia.
Qed.

Lemma within_mul a b c d x y :
  finite a -> finite b -> finite c -> finite d ->
  0 <= scaled a -> 0 <= scaled c ->
  within a b x -> within c d y ->
  within (mul a c) (mul b d) (mul x y).
Proof.
  intros Fa Fb Fc Fd Pa Pc Wx Wy.
  pose proof (within_finite _ _ _ Fa Fb Wx) as Fx.
  pose proof (within_finite _ _ _ Fc Fd Wy) as Fy.
  destruct Wx as (_ & Lx & Hx), Wy as (_ & Ly & Hy).
  pose proof (scaled_nonneg_of_leb a x Fa Fx Pa Lx) as Px.
  pose proof (scaled_nonneg_of_leb c y Fc Fy Pc Ly) as Py.
  split; [|split].
  - apply SFmul_valid; solve64.
  - apply SFmul_mono; solve64.
  - apply SFmul_mono; solve64.
Qed.

Lemma within_div a b x md ed :
  finite a -> finite b -> 0 <= scaled a ->
  bounded prec emax md ed = true ->
  within a b x ->
  within (div a (S754_finite false md ed)) (div b (S754_finite false md ed))
         (div x (S754_finite false md ed)).
Proof.
  intros Fa Fb Pa Bd Wx.
  pose proof (within_finite _ _ _ Fa Fb Wx) as Fx.
  destruct Wx as (_ & Lx & Hx).
  pose proof (scaled_nonneg_of_leb a x Fa Fx Pa Lx) as Px.
  split; [|split].
  - apply SFdiv_valid; solve64.
  - apply SFdiv_mono; solve64.
  - apply SFdiv_mono; solve64.
Qed.

Lemma within_abs lo hi m x :
  finite lo -> finite hi -> finite m ->
  leb (opp m) lo = true -> leb hi m = true ->
  within lo hi x -> within (S754_zero false) m (abs x).
Proof.
  intros Flo Fhi Fm L H W. pose proof (within_finite _ _ _ Flo Fhi W) as Fx.
  destruct W as (V & Lx & Hx).
  pose proof (finite_float_abs prec emax x Fx) as Fa.
  pose proof (finite_float_opp prec emax m Fm) as Fo.
  apply leb_scaled in L, H, Lx, Hx; auto using finite_ordered64.
  unfold scaled, opp in *. rewrite Vz_opp in L.
  split; [exact (proj1 Fa)|]. split.
  - apply leb_scaled; auto using finite_ordered64.
    + split; [reflexivity|exact I].
    + unfold scaled, abs. rewrite (Vz_abs prec emax) by solve64.
      change (Vz prec emax (S754_zero false)) with 0. lia.
  - apply leb_scaled; auto using finite_ordered64.
    unfold scaled, abs. rewrite (Vz_abs prec emax) by solve64. lia.
Qed.


(** ** The model at work *)

(** Literals are the doubles Python reads: [0.9] is [0x1.ccccccccccccdp-1]
    and [0.18] is [0x1.70a3d70a3d70ap-3]. *)
Example literals_are_nearest_doubles :
  lit 9 10 = S754_finite false 8106479329266893 (-53) /\
  lit 18 100 = S754_finite false 6485183463413514 (-55) /\
  lit 5 10 = S754_finite false 4503599627370496 (-53) /\
  of_int 30 = S754_finite false 8444249301319680 (-48).
Proof. repeat split; vm_compute; reflexivity. Qed.

(** [round(0.5) == 0], [round(1.5) == 2], [round(2.5) == 2],
    [round(-2.5) == -2] and [round(97.5) == 98]; [round(float('nan'))]
    raises. *)
Example round_is_half_to_even :
  Py.round_float (lit 5 10) = Some 0 /\
  Py.round_float (lit 15 10) = Some 2 /\
  Py.round_float (lit 25 10) = Some 2 /\
  Py.round_float (opp (lit 25 10)) = Some (-2) /\
  Py.round_float (lit 975 10) = Some 98 /\
  Py.round_float S754_nan = None.
Proof. repeat split; vm_compute; reflexivity. Qed.

(** [max(0, -0.0)] and [max(0, float('nan'))] are the int [0];
    [min(100, 250.0)] is the int [100]. *)
Example min_max_keep_the_first_argument :
  Py.max (Py.Int 0) (Py.Float (S754_zero true)) = Py.Int 0 /\
  Py.max (Py.Int 0) (Py.Float S754_nan) = Py.Int 0 /\
  Py.min (Py.Int 100) (Py.Float (of_int 250)) = Py.Int 100.
Proof. repeat split; vm_compute; reflexivity. Qed.

(** The named floats are what their decimal names say. *)
Example named_floats :
  scaled min_subnormal = 1 /\
  scaled min_normal = 2 ^ 52 /\
  next_after_30 = SFsucc prec emax (of_int 30).
Proof. repeat split; vm_compute; reflexivity. Qed.

(** A request with every field absent is served from the defaults
    [tilt=25, azimuth=180, irradiance=4.8, area=18]. *)
Example default_request :
  post_energy_estimate (mkEnergyPayload None None None None)
  = ([Validated; Computed],
     Ok200 {| daily := S754_finite false 6402092050288527 (-48);
              monthly := S754_finite false 6001961297145494 (-43);
              score := 98 |}).
Proof. vm_compute; reflexivity. Qed.

(** With a working database the subscriber is stored and the id returned;
    without the module the request is accepted and not stored. *)
Example subscribe_paths :
  subscribe (Some db_working) subscriber
  = Returns {| status := "ok"; stored := true; id := Some "65f0c0ffee"%string |} /\
  subscribe None subscriber
  = Returns {| status := "ok"; stored := false; id := None |} /\
  subscribe (Some db_interrupted) subscriber = Raises KeyboardInterrupt.
Proof. repeat split; reflexivity. Qed.


(** ** Interval analysis of the estimator *)

(** Closed constants are settled by evaluation. *)
Ltac fin_const :=
  match goal with
  | |- finite ?c => split; [vm_compute; reflexivity | vm_compute; exact I]
  end.
Ltac scaled_const :=
  match goal with
  | |- 0 <= scaled ?c => apply Z.leb_le; vm_compute; reflexivity
  | |- 0 < scaled ?c => apply Z.ltb_lt; vm_compute; reflexivity
  | |- 0 <= Vz prec emax ?c => apply Z.leb_le; vm_compute; reflexivity
  end.

Lemma finite_f0_5 : finite f0_5.
Proof. fin_const. Qed.

Lemma finite_f0_6 : finite f0_6.
Proof. fin_const. Qed.

Lemma finite_f1_5 : finite f1_5.
Proof. fin_const. Qed.


Lemma finite_of_int_40 : finite (of_int 40).
Proof. fin_const. Qed.

Lemma finite_of_int_100 : finite (of_int 100).
Proof. fin_const. Qed.

Lemma within_const c : finite c -> within c c c.
Proof.
  intros F. split; [exact (proj1 F)|].
  split; apply leb_refl; apply finite_ordered64; exact F.
Qed.

Lemma within_div_pos a b x d :
  finite a -> finite b -> 0 <= scaled a ->
  finite d -> 0 < scaled d ->
  within a b x -> within (div a d) (div b d) (div x d).
Proof.
  intros Fa Fb Pa [Vd Fd] Pd W.
  destruct d as [s|s| |s m e]; try contradiction.
  - change (scaled (S754_zero s)) with 0 in Pd. lia.
  - destruct s.
    + exfalso. unfold scaled, Vz, cond_Zopp in Pd.
      pose proof (Z.pow_nonneg 2 (e - emin prec emax) ltac:(lia)). nia.
    + apply within_div; assumption.
Qed.

Lemma valid_input_fields inp : valid_input inp = true ->
  within (of_int 0) (of_int 90) (tilt inp) /\
  within (of_int 0) (of_int 360) (azimuth inp) /\
  (is_float (irradiance inp) /\ leb (of_int 0) (irradiance inp) = true) /\
  (is_float (area inp) /\ leb (of_int 0) (area inp) = true).
Proof.
  unfold valid_input, EnergyInput_wf, EnergyInput_ok, tilt_ok, azimuth_ok,
    irradiance_ok, area_ok, ge_ok, le_ok, within, is_float.
  intros H. repeat (apply andb_true_iff in H; destruct H as [H ?]).
  repeat match goal with
         | h : (_ && _)%bool = true |- _ => apply andb_true_iff in h; destruct h
         end.
  repeat split; assumption.
Qed.

Lemma tiltFactor_within inp : valid_input inp = true ->
  within f0_5 (of_int 1) (tiltFactor inp).
Proof.
  intros H. destruct (valid_input_fields inp H) as (Wt & _).
  assert (W1 : within (sub (of_int 0) (of_int 30)) (sub (of_int 90) (of_int 30))
                      (sub (tilt inp) (of_int 30))).
  { apply within_sub; try fin_const; [exact Wt|apply within_const; fin_const]. }
  assert (W2 : within (S754_zero false) (of_int 60) (abs (sub (tilt inp) (of_int 30)))).
  { apply (within_abs (sub (of_int 0) (of_int 30)) (sub (of_int 90) (of_int 30)));
      [fin_const|fin_const|fin_const|vm_compute; reflexivity|vm_compute; reflexivity|exact W1]. }
  assert (W3 : within (div (S754_zero false) (of_int 120)) (div (of_int 60) (of_int 120))
                      (div (abs (sub (tilt inp) (of_int 30))) (of_int 120))).
  { apply within_div_pos; try fin_const; try scaled_const. exact W2. }
  assert (W4 : within (sub (of_int 1) (div (of_int 60) (of_int 120)))
                      (sub (of_int 1) (div (S754_zero false) (of_int 120)))
                      (tiltFactor inp)).
  { unfold tiltFactor. apply within_sub; try fin_const; [apply within_const; fin_const|exact W3]. }
  replace (sub (of_int 1) (div (of_int 60) (of_int 120))) with f0_5 in W4
    by (vm_compute; reflexivity).
  replace (sub (of_int 1) (div (S754_zero false) (of_int 120))) with (of_int 1) in W4
    by (vm_compute; reflexivity).
  exact W4.
Qed.

Lemma within_closed lo hi c :
  valid_binary prec emax c = true -> leb lo c = true -> leb c hi = true -> within lo hi c.
Proof. intros; split; [|split]; assumption. Qed.

Lemma finite_of_int_180 : finite (of_int 180).
Proof. fin_const. Qed.

Lemma finite_zero : finite (S754_zero false).
Proof. fin_const. Qed.

Lemma azimuth_abs_within inp : valid_input inp = true ->
  within (S754_zero false) (of_int 180) (abs (sub (azimuth inp) (of_int 180))).
Proof.
  intros H. destruct (valid_input_fields inp H) as (_ & Wa & _).
  assert (W1 : within (sub (of_int 0) (of_int 180)) (sub (of_int 360) (of_int 180))
                      (sub (azimuth inp) (of_int 180))).
  { apply within_sub; try fin_const; [exact Wa|apply within_const; fin_const]. }
  apply (within_abs (sub (of_int 0) (of_int 180)) (sub (of_int 360) (of_int 180)));
    [fin_const|fin_const|fin_const|vm_compute; reflexivity|vm_compute; reflexivity|exact W1].
Qed.

Lemma azimuthDeviation_within inp : valid_input inp = true ->
  within (S754_zero false) (of_int 180) (azimuthDeviation inp).
Proof.
  intros H. pose proof (azimuth_abs_within inp H) as W2.
  unfold azimuthDeviation, Py.min, Py.lt. cbn [Py.to_float].
  destruct (ltb (of_int 180) (abs (sub (azimuth inp) (of_int 180)))).
  - cbn [Py.to_float]. apply within_closed; vm_compute; reflexivity.
  - exact W2.
Qed.

Lemma facingSouthFactor_within inp : valid_input inp = true ->
  within (lit 25 100) (of_int 1) (facingSouthFactor inp).
Proof.
  intros H. pose proof (azimuthDeviation_within inp H) as W2.
  assert (W3 : within (div (S754_zero false) (of_int 240)) (div (of_int 180) (of_int 240))
                      (div (azimuthDeviation inp) (of_int 240))).
  { apply within_div_pos; try fin_const; try scaled_const. exact W2. }
  assert (W4 : within (sub (of_int 1) (div (of_int 180) (of_int 240)))
                      (sub (of_int 1) (div (S754_zero false) (of_int 240)))
                      (facingSouthFactor inp)).
  { unfold facingSouthFactor. apply within_sub; try fin_const;
      [apply within_const; fin_const|exact W3]. }
  replace (sub (of_int 1) (div (of_int 180) (of_int 240))) with (lit 25 100) in W4
    by (vm_compute; reflexivity).
  replace (sub (of_int 1) (div (S754_zero false) (of_int 240))) with (of_int 1) in W4
    by (vm_compute; reflexivity).
  exact W4.
Qed.

Lemma weightedSum_within inp : valid_input inp = true ->
  within f0_6 f1_5 (weightedSum inp).
Proof.
  intros H.
  pose proof (tiltFactor_within inp H) as Wt.
  pose proof (facingSouthFactor_within inp H) as Wf.
  assert (W1 : within (mul f0_5 f0_9) (mul (of_int 1) f0_9) (mul (tiltFactor inp) f0_9)).
  { apply within_mul; try fin_const; try scaled_const; [exact Wt|apply within_const; fin_const]. }
  assert (W2 : within (mul (lit 25 100) f0_6) (mul (of_int 1) f0_6)
                      (mul (facingSouthFactor inp) f0_6)).
  { apply within_mul; try fin_const; try scaled_const; [exact Wf|apply within_const; fin_const]. }
  assert (W3 : within (add (mul f0_5 f0_9) (mul (lit 25 100) f0_6))
                      (add (mul (of_int 1) f0_9) (mul (of_int 1) f0_6))
                      (weightedSum inp)).
  { unfold weightedSum. apply within_add; try fin_const; assumption. }
  replace (add (mul f0_5 f0_9) (mul (lit 25 100) f0_6)) with f0_6 in W3
    by (vm_compute; reflexivity).
  replace (add (mul (of_int 1) f0_9) (mul (of_int 1) f0_6)) with f1_5 in W3
    by (vm_compute; reflexivity).
  exact W3.
Qed.

(** The floor of [max(0.5, ...)] is never the selected branch. *)
Lemma k_of_weightedSum inp : valid_input inp = true ->
  ltb f0_5 (weightedSum inp) = true /\ k_of inp = weightedSum inp.
Proof.
  intros H. pose proof (weightedSum_within inp H) as W.
  pose proof (within_finite _ _ _ finite_f0_6 finite_f1_5 W) as Fw.
  destruct W as (_ & L & _).
  assert (Hlt : ltb f0_5 (weightedSum inp) = true).
  { apply ltb_scaled; [apply finite_ordered64; fin_const|apply finite_ordered64; exact Fw|].
    apply leb_scaled in L; [|apply finite_ordered64; fin_const|apply finite_ordered64; exact Fw].
    assert (scaled f0_5 < scaled f0_6) by (apply Z.ltb_lt; vm_compute; reflexivity). lia. }
  split; [exact Hlt|].
  unfold k_of, Py.max, Py.lt. cbn [Py.to_float]. rewrite Hlt. reflexivity.
Qed.

Lemma k_of_within inp : valid_input inp = true -> within f0_6 f1_5 (k_of inp).
Proof.
  intros H. destruct (k_of_weightedSum inp H) as [_ ->]. apply weightedSum_within, H.
Qed.

Lemma percent_within inp : valid_input inp = true ->
  within (of_int 40) (of_int 100) (percent inp).
Proof.
  intros H. pose proof (k_of_within inp H) as Wk.
  assert (W1 : within (div f0_6 f1_5) (div f1_5 f1_5) (div (k_of inp) f1_5)).
  { apply within_div_pos; try fin_const; try scaled_const. exact Wk. }
  assert (W2 : within (mul (div f0_6 f1_5) (of_int 100)) (mul (div f1_5 f1_5) (of_int 100))
                      (percent inp)).
  { unfold percent. apply within_mul; try fin_const; try scaled_const;
      [exact W1|apply within_const; fin_const]. }
  replace (mul (div f0_6 f1_5) (of_int 100)) with (of_int 40) in W2
    by (vm_compute; reflexivity).
  replace (mul (div f1_5 f1_5) (of_int 100)) with (of_int 100) in W2
    by (vm_compute; reflexivity).
  exact W2.
Qed.

(** ** Rounding to an integer *)

Lemma pow1074_pos : 0 < 2 ^ 1074.
Proof. apply Z.pow_pos_nonneg; lia. Qed.

Lemma round_scaled_mono z1 z2 : 0 <= z1 <= z2 -> round_scaled z1 <= round_scaled z2.
Proof.
  intros [H1 H2]. unfold round_scaled. pose proof pow1074_pos as HL.
  apply rne_cell_mono. split.
  - apply sdiv_nonneg; lia.
  - apply sdiv_mono; lia.
Qed.

Lemma nearest_even_cases m d : 0 <= m -> 0 < d ->
  rne_cell (sdiv (2 * m) d) =
  match 2 * (m mod d) ?= d with
  | Lt => m / d
  | Gt => m / d + 1
  | Eq => if Z.even (m / d) then m / d else m / d + 1
  end.
Proof.
  intros Hm Hd. rewrite sdiv_cases by assumption.
  pose proof (Z.mod_pos_bound m d Hd) as B.
  rewrite rne_cell_decode.
  - destruct (Z.eqb_spec (m mod d) 0) as [E|E].
    + rewrite E. change (0 <=? 1) with true. cbv iota.
      replace (2 * 0 ?= d) with Lt by (symmetry; apply Z.compare_lt_iff; lia). reflexivity.
    + destruct (2 * (m mod d) ?= d); reflexivity.
  - destruct (m mod d =? 0); [lia|]. destruct (2 * (m mod d) ?= d); lia.
Qed.

Lemma nearest_even_scaled s m e : bounded prec emax m e = true ->
  Py.nearest_even m e = round_scaled (Vabs prec emax (S754_finite s m e)).
Proof.
  intros Hb. destruct (bounded_facts prec emax m e Hb) as (He & _).
  rewrite emin_val in He. unfold Vabs, round_scaled. rewrite emin_val.
  pose proof pow1074_pos as HL.
  assert (Hnn : forall x, 0 <= x -> rne_cell (sdiv (2 * (x * 2 ^ 1074)) (2 ^ 1074)) = x).
  { intros x Hx. unfold sdiv.
    replace (2 * (x * 2 ^ 1074)) with ((2 * x) * 2 ^ 1074) by ring.
    rewrite Z.div_mul, Z.mod_mul by lia. rewrite Z.eqb_refl.
    replace (2 * (2 * x) + 0) with (4 * x) by ring. apply rne_cell_4. }
  destruct e as [|p|p].
  - cbn [Py.nearest_even]. replace (0 - -1074) with 1074 by lia.
    rewrite Z.pow_0_r, Z.mul_1_r. symmetry. apply Hnn. lia.
  - cbn [Py.nearest_even]. replace (Z.pos p - -1074) with (Z.pos p + 1074) by lia.
    rewrite Z.pow_add_r by lia.
    replace (Z.pos m * (2 ^ Z.pos p * 2 ^ 1074)) with ((Z.pos m * 2 ^ Z.pos p) * 2 ^ 1074) by ring.
    symmetry. apply Hnn.
    pose proof (Z.pow_pos_nonneg 2 (Z.pos p) ltac:(lia) ltac:(lia)). nia.
  - cbn [Py.nearest_even]. cbv zeta.
    pose proof (Z.pow_pos_nonneg 2 (Z.pos p) ltac:(lia) ltac:(lia)) as Hd.
    rewrite <- nearest_even_cases by lia.
    set (k := Z.neg p - -1074). assert (Hk : 0 <= k) by (unfold k; lia).
    pose proof (Z.pow_pos_nonneg 2 k ltac:(lia) Hk) as Hpk.
    replace (2 ^ 1074) with (2 ^ Z.pos p * 2 ^ k).
    + replace (2 * (Z.pos m * 2 ^ k)) with ((2 * Z.pos m) * 2 ^ k) by ring.
      rewrite sdiv_scale by lia. reflexivity.
    + rewrite <- Z.pow_add_r by lia. f_equal. unfold k. lia.
Qed.

Lemma scaled_pos_finite y : finite y -> 0 < scaled y ->
  exists m e, y = S754_finite false m e /\ bounded prec emax m e = true.
Proof.
  intros [V F] P. destruct y as [s|s| |s m e]; try contradiction.
  - change (scaled (S754_zero s)) with 0 in P. lia.
  - destruct s.
    + exfalso. unfold scaled, Vz, cond_Zopp in P.
      pose proof (Z.pow_nonneg 2 (e - emin prec emax) ltac:(lia)). nia.
    + exists m, e. split; [reflexivity|exact V].
Qed.

Lemma round_float_scaled y : finite y -> 0 < scaled y ->
  Py.round_float y = Some (round_scaled (scaled y)).
Proof.
  intros F P. destruct (scaled_pos_finite y F P) as (m & e & -> & Hb).
  cbn [Py.round_float]. f_equal. apply (nearest_even_scaled false m e Hb).
Qed.

Lemma score_of_range inp : valid_input inp = true ->
  exists s, score_of inp = Some s /\ 40 <= s <= 100.
Proof.
  intros H. pose proof (percent_within inp H) as W.
  pose proof (within_finite _ _ _ finite_of_int_40 finite_of_int_100 W) as Fy.
  destruct W as (_ & L & U).
  apply leb_scaled in L, U; auto using finite_ordered64, finite_of_int_40, finite_of_int_100.
  assert (P40 : 0 < scaled (of_int 40)) by scaled_const.
  assert (R40 : round_scaled (scaled (of_int 40)) = 40).
  { pose proof (round_float_scaled _ finite_of_int_40 P40) as E.
    change (Py.round_float (of_int 40)) with (Some 40) in E. congruence. }
  assert (R100 : round_scaled (scaled (of_int 100)) = 100).
  { pose proof (round_float_scaled _ finite_of_int_100 ltac:(lia)) as E.
    change (Py.round_float (of_int 100)) with (Some 100) in E. congruence. }
  unfold score_of, Py.min, Py.lt. cbn [Py.to_float].
  destruct (ltb (percent inp) (of_int 100)).
  - cbn [Py.round]. rewrite round_float_scaled by (auto; lia).
    eexists; split; [reflexivity|].
    pose proof (round_scaled_mono (scaled (of_int 40)) (scaled (percent inp)) ltac:(lia)).
    pose proof (round_scaled_mono (scaled (percent inp)) (scaled (of_int 100)) ltac:(lia)).
    lia.
  - exists 100. split; [reflexivity|lia].
Qed.

(** ** Products of non-negative factors *)

Lemma nonneg_of_leb_zero x : is_float x -> leb (of_int 0) x = true ->
  is_float x /\ nonneg_float x.
Proof.
  intros V L. split; [exact V|].
  destruct x as [s|s| |s m e]; try exact I; try discriminate;
    destruct s; try exact I; discriminate.
Qed.

Lemma mul_finite_nonneg mx ex my ey :
  bounded prec emax mx ex = true -> bounded prec emax my ey = true ->
  is_float (mul (S754_finite false mx ex) (S754_finite false my ey)) /\
  nonneg_float (mul (S754_finite false mx ex) (S754_finite false my ey)).
Proof.
  intros Bx By. unfold mul, is_float.
  rewrite (SFmul_finite prec emax) by solve64.
  destruct (bounded_facts prec emax mx ex Bx) as (Hex & _).
  destruct (bounded_facts prec emax my ey By) as (Hey & _).
  pose proof (Vabs_pos prec emax false mx ex ltac:(lia)).
  pose proof (Vabs_pos prec emax false my ey ltac:(lia)).
  assert (Hc : 0 <= 4 * (Vabs prec emax (S754_finite false mx ex)
                         * Vabs prec emax (S754_finite false my ey))) by nia.
  rewrite emin_val in *. split.
  - apply round_cell_valid; solve64; rewrite ?emin_val; lia.
  - apply round_cell_nonneg; solve64; rewrite ?emin_val; lia.
Qed.

Lemma mul_nonneg_or_nan a b :
  nonneg_or_nan a -> nonneg_or_nan b -> nonneg_or_nan (mul a b).
Proof.
  intros [->|[Va Na]] [->|[Vb Nb]].
  - left; reflexivity.
  - left; reflexivity.
  - left. destruct a; reflexivity.
  - destruct a as [sa|sa| |sa ma ea]; try contradiction;
    destruct b as [sb|sb| |sb mb eb]; try contradiction.
    + right. split; [reflexivity|exact I].
    + left; reflexivity.
    + right. split; [reflexivity|exact I].
    + left; reflexivity.
    + destruct sa, sb; try contradiction. right. split; [reflexivity|exact I].
    + destruct sa, sb; try contradiction. right. split; [reflexivity|exact I].
    + right. split; [reflexivity|exact I].
    + destruct sa, sb; try contradiction. right. split; [reflexivity|exact I].
    + destruct sa, sb; try contradiction. right. apply mul_finite_nonneg; assumption.
Qed.

Lemma finite_pos_nonneg x : finite x -> 0 < scaled x -> nonneg_or_nan x.
Proof.
  intros F P. destruct (scaled_pos_finite x F P) as (m & e & -> & B).
  right. split; [exact B|exact I].
Qed.

Lemma k_of_positive inp : valid_input inp = true ->
  finite (k_of inp) /\ 0 < scaled (k_of inp).
Proof.
  intros H. pose proof (k_of_within inp H) as W.
  pose proof (within_finite _ _ _ finite_f0_6 finite_f1_5 W) as F.
  split; [exact F|]. destruct W as (_ & L & _).
  apply leb_scaled in L; auto using finite_ordered64, finite_f0_6.
  assert (0 < scaled f0_6) by scaled_const. lia.
Qed.

Lemma irradiance_area_class inp : valid_input inp = true ->
  nonneg_or_nan (mul (irradiance inp) (area inp)).
Proof.
  intros H. destruct (valid_input_fields inp H) as (_ & _ & [Vi Li] & [Va La]).
  apply mul_nonneg_or_nan; right; apply nonneg_of_leb_zero; assumption.
Qed.

Lemma dailyKWh_class inp : valid_input inp = true -> nonneg_or_nan (dailyKWh inp).
Proof.
  intros H. unfold dailyKWh.
  destruct (k_of_positive inp H) as [Fk Pk].
  apply mul_nonneg_or_nan; [|apply finite_pos_nonneg; assumption].
  apply mul_nonneg_or_nan; [apply irradiance_area_class; exact H|].
  right. split; vm_compute; [reflexivity|exact I].
Qed.

Lemma monthlyKWh_class inp : valid_input inp = true -> nonneg_or_nan (monthlyKWh inp).
Proof.
  intros H. unfold monthlyKWh.
  apply mul_nonneg_or_nan; [apply dailyKWh_class; exact H|].
  right. split; vm_compute; [reflexivity|exact I].
Qed.

(** [max(0, d)] as a float. *)
Lemma max0_eq d :
  Py.to_float (Py.max (Py.Int 0) (Py.Float d)) = if ltb (of_int 0) d then d else of_int 0.
Proof.
  unfold Py.max, Py.lt. cbn [Py.to_float]. destruct (ltb (of_int 0) d); reflexivity.
Qed.

Lemma max0_nonneg d : leb (of_int 0) (if ltb (of_int 0) d then d else of_int 0) = true.
Proof.
  destruct (ltb (of_int 0) d) eqn:E; [|reflexivity].
  destruct d as [s|s| |s m e]; try discriminate; destruct s; try discriminate; reflexivity.
Qed.

Lemma eqb_refl_nonneg x : is_float x -> nonneg_float x -> eqb x x = true.
Proof.
  intros _ N. destruct x as [s|s| |s m e]; try contradiction; try reflexivity.
  - destruct s; [contradiction|reflexivity].
  - destruct s; [contradiction|].
    unfold eqb, SFeqb, SFcompare. rewrite Z.compare_refl, Pos.compare_cont_spec.
    rewrite Pos.compare_refl. reflexivity.
Qed.

(** [max(0, d * 30) == max(0, d) * 30] *)
Lemma monthly_is_daily_times_30 d : nonneg_or_nan d ->
  eqb (if ltb (of_int 0) (mul d (of_int 30)) then mul d (of_int 30) else of_int 0)
      (mul (if ltb (of_int 0) d then d else of_int 0) (of_int 30)) = true.
Proof.
  intros [->|[V N]]; [reflexivity|].
  destruct d as [s|s| |s m e]; try contradiction.
  - destruct s; reflexivity.
  - destruct s; [contradiction|reflexivity].
  - destruct s; [contradiction|].
    change (ltb (of_int 0) (S754_finite false m e)) with true. cbv iota.
    assert (C : nonneg_or_nan (of_int 30)) by (right; split; vm_compute; [reflexivity|exact I]).
    assert (H30 : of_int 30 = S754_finite false 8444249301319680 (-48))
      by (vm_compute; reflexivity).
    destruct (mul_finite_nonneg m e 8444249301319680 (-48) V ltac:(vm_compute; reflexivity))
      as [Vm Nm].
    rewrite <- H30 in Vm, Nm.
    destruct (mul (S754_finite false m e) (of_int 30)) as [s'|s'| |s' m' e'] eqn:E;
      try contradiction.
    + destruct s'; reflexivity.
    + destruct s'; [contradiction|reflexivity].
    + destruct s'; [contradiction|].
      change (ltb (of_int 0) (S754_finite false m' e')) with true. cbv iota.
      apply eqb_refl_nonneg; [exact Vm|exact I].
Qed.

(** ** The specification's [min], [max] and [round] against Python's *)

Lemma fmin_py a b : ordered_float prec emax a -> ordered_float prec emax b ->
  Spec.fmin a b = if ltb b a then b else a.
Proof.
  intros Ha Hb. unfold Spec.fmin.
  replace (is_nan a) with false by (destruct Ha as [_ F]; destruct a; try reflexivity; contradiction).
  replace (is_nan b) with false by (destruct Hb as [_ F]; destruct b; try reflexivity; contradiction).
  rewrite (leb_ltb_false a b Ha Hb). destruct (ltb b a); reflexivity.
Qed.

Lemma fmax_py a b : ordered_float prec emax a -> ordered_float prec emax b ->
  Spec.fmax a b = if ltb a b then b else a.
Proof.
  intros Ha Hb. unfold Spec.fmax.
  replace (is_nan a) with false by (destruct Ha as [_ F]; destruct a; try reflexivity; contradiction).
  replace (is_nan b) with false by (destruct Hb as [_ F]; destruct b; try reflexivity; contradiction).
  rewrite (leb_ltb_false b a Hb Ha). destruct (ltb a b); reflexivity.
Qed.

Lemma fmax0_py d : nonneg_or_nan d ->
  Spec.fmax (of_int 0) d = if ltb (of_int 0) d then d else of_int 0.
Proof.
  intros [->|[V N]]; [reflexivity|].
  destruct d as [s|s| |s m e]; try contradiction; destruct s; try contradiction; reflexivity.
Qed.

Lemma round_ratio_cases m d : 0 <= m -> 0 < d ->
  Spec.round_ratio m d =
  match 2 * (m mod d) ?= d with
  | Lt => m / d
  | Gt => m / d + 1
  | Eq => if Z.even (m / d) then m / d else m / d + 1
  end.
Proof.
  intros Hm Hd. unfold Spec.round_ratio.
  pose proof (Z.div_mod m d ltac:(lia)) as E. pose proof (Z.mod_pos_bound m d Hd) as B.
  set (q := m / d) in *. set (r := m mod d) in *.
  destruct (Z.compare_spec (2 * r) d) as [Heq|Hlt|Hgt].
  - replace ((2 * m + d) / (2 * d)) with (q + 1) by (apply Z.div_unique with 0; lia).
    replace ((2 * m + d) mod (2 * d)) with 0 by (apply Z.mod_unique with (q + 1); lia).
    rewrite Z.eqb_refl. cbn [andb].
    replace (q + 1) with (Z.succ q) by lia. rewrite Z.odd_succ.
    replace (Z.succ q - 1) with q by lia. destruct (Z.even q); reflexivity.
  - replace ((2 * m + d) / (2 * d)) with q by (apply Z.div_unique with (2 * r + d); lia).
    replace ((2 * m + d) mod (2 * d)) with (2 * r + d) by (apply Z.mod_unique with q; lia).
    replace (2 * r + d =? 0) with false by (symmetry; apply Z.eqb_neq; lia). reflexivity.
  - replace ((2 * m + d) / (2 * d)) with (q + 1) by (apply Z.div_unique with (2 * r - d); lia).
    replace ((2 * m + d) mod (2 * d)) with (2 * r - d) by (apply Z.mod_unique with (q + 1); lia).
    replace (2 * r - d =? 0) with false by (symmetry; apply Z.eqb_neq; lia). reflexivity.
Qed.

Lemma fround_round_float y : is_finite y = true ->
  Py.round_float y = Some (Spec.fround y).
Proof.
  destruct y as [s|s| |s m e]; try discriminate; intros _; [reflexivity|].
  cbn [Py.round_float Spec.fround]. do 2 f_equal.
  all: destruct e as [|p|p]; try reflexivity.
  all: cbn [Py.nearest_even]; cbv zeta; rewrite round_ratio_cases;
    [reflexivity|lia|apply Z.pow_pos_nonneg; lia].
Qed.

Lemma spec_facingSouthFactor inp : valid_input inp = true ->
  Spec.facingSouthFactor inp = facingSouthFactor inp.
Proof.
  intros H.
  pose proof (within_finite _ _ _ finite_zero finite_of_int_180 (azimuth_abs_within inp H)) as Fa.
  unfold Spec.facingSouthFactor, facingSouthFactor, azimuthDeviation, Py.min, Py.lt.
  cbn [Py.to_float].
  rewrite fmin_py; [|apply finite_ordered64; exact Fa|apply finite_ordered64; exact finite_of_int_180].
  destruct (ltb (of_int 180) (abs (sub (azimuth inp) (of_int 180)))); reflexivity.
Qed.

Lemma spec_k inp : valid_input inp = true -> Spec.k inp = k_of inp.
Proof.
  intros H. unfold Spec.k, k_of, Py.max, Py.lt. cbn [Py.to_float].
  change (Spec.tiltFactor inp) with (tiltFactor inp).
  rewrite (spec_facingSouthFactor inp H). fold f0_5 f0_9 f0_6. fold (weightedSum inp).
  pose proof (weightedSum_within inp H) as W.
  pose proof (within_finite _ _ _ finite_f0_6 finite_f1_5 W) as Fw.
  rewrite fmax_py; [|apply finite_ordered64; exact finite_f0_5|apply finite_ordered64; exact Fw].
  destruct (ltb f0_5 (weightedSum inp)); reflexivity.
Qed.

Lemma spec_score inp : valid_input inp = true ->
  score_of inp = Some (Spec.score_of inp).
Proof.
  intros H. unfold Spec.score_of, score_of, Py.min, Py.lt. cbn [Py.to_float].
  rewrite (spec_k inp H). fold f1_5. fold (percent inp).
  pose proof (percent_within inp H) as W.
  pose proof (within_finite _ _ _ finite_of_int_40 finite_of_int_100 W) as Fy.
  rewrite fmin_py; [|apply finite_ordered64; exact finite_of_int_100|apply finite_ordered64; exact Fy].
  destruct (ltb (percent inp) (of_int 100)).
  - cbn [Py.round]. apply fround_round_float.
    destruct Fy as [_ F]. destruct (percent inp); try contradiction; reflexivity.
  - reflexivity.
Qed.

(** ** Distance from a constant, symmetry and monotonicity in the tilt *)

Lemma zeq_abs a b : zeq a b -> SFabs a = SFabs b.
Proof. intros [->|(s & s' & -> & ->)]; reflexivity. Qed.

(** [abs(x - c)] is the rounding of the exact distance between [x] and
    [c]. *)
Lemma abs_sub_scaled x c : finite x -> finite c ->
  abs (sub x c) = RZ prec emax (emin prec emax) (Z.abs (scaled x - scaled c)).
Proof.
  intros Fx Fc. unfold abs, sub. rewrite SFsub_add_opp.
  assert (Z : zeq (SFadd prec emax x (SFopp c))
                  (RZ prec emax (emin prec emax) (Vz prec emax x + Vz prec emax (SFopp c)))).
  { apply SFadd_Vz; solve64. apply finite_float_opp; exact Fc. }
  rewrite (zeq_abs _ _ Z). rewrite Vz_opp. rewrite RZ_abs; solve64; [|lia].
  reflexivity.
Qed.

Lemma abs_sub_mono x x' c : finite x -> finite x' -> finite c ->
  Z.abs (scaled x - scaled c) <= Z.abs (scaled x' - scaled c) ->
  leb (abs (sub x c)) (abs (sub x' c)) = true.
Proof.
  intros Fx Fx' Fc H. rewrite !abs_sub_scaled by assumption.
  apply RZ_mono; solve64. lia.
Qed.

Lemma div_mono_pos x x' d : finite x -> finite x' -> 0 <= scaled x ->
  finite d -> 0 < scaled d -> leb x x' = true -> leb (div x d) (div x' d) = true.
Proof.
  intros Fx Fx' Px Fd Pd L. destruct (scaled_pos_finite d Fd Pd) as (m & e & -> & B).
  apply SFdiv_mono; solve64.
Qed.

Lemma finite_of_int_30 : finite (of_int 30).
Proof. fin_const. Qed.

Lemma finite_of_int_60 : finite (of_int 60).
Proof. fin_const. Qed.

Lemma finite_of_int_1 : finite (of_int 1).
Proof. fin_const. Qed.

Lemma finite_of_int_120 : finite (of_int 120).
Proof. fin_const. Qed.

Lemma finite_f0_9 : finite f0_9.
Proof. fin_const. Qed.

Lemma tilt_finite inp : valid_input inp = true -> finite (tilt inp).
Proof.
  intros H. destruct (valid_input_fields inp H) as (Wt & _).
  apply (within_finite (of_int 0) (of_int 90)); [fin_const|fin_const|exact Wt].
Qed.

Lemma azimuth_finite inp : valid_input inp = true -> finite (azimuth inp).
Proof.
  intros H. destruct (valid_input_fields inp H) as (_ & Wa & _).
  apply (within_finite (of_int 0) (of_int 360)); [fin_const|fin_const|exact Wa].
Qed.

Lemma tilt_abs_within inp : valid_input inp = true ->
  within (S754_zero false) (of_int 60) (abs (sub (tilt inp) (of_int 30))).
Proof.
  intros H. destruct (valid_input_fields inp H) as (Wt & _).
  assert (W1 : within (sub (of_int 0) (of_int 30)) (sub (of_int 90) (of_int 30))
                      (sub (tilt inp) (of_int 30))).
  { apply within_sub; try fin_const; [exact Wt|apply within_const; fin_const]. }
  apply (within_abs (sub (of_int 0) (of_int 30)) (sub (of_int 90) (of_int 30)));
    [fin_const|fin_const|fin_const|vm_compute; reflexivity|vm_compute; reflexivity|exact W1].
Qed.

Lemma tilt_quotient_within inp : valid_input inp = true ->
  within (S754_zero false) f0_5 (div (abs (sub (tilt inp) (of_int 30))) (of_int 120)).
Proof.
  intros H. pose proof (tilt_abs_within inp H) as W2.
  assert (W3 : within (div (S754_zero false) (of_int 120)) (div (of_int 60) (of_int 120))
                      (div (abs (sub (tilt inp) (of_int 30))) (of_int 120))).
  { apply within_div_pos; try fin_const; try scaled_const. exact W2. }
  replace (div (S754_zero false) (of_int 120)) with (S754_zero false) in W3
    by (vm_compute; reflexivity).
  replace (div (of_int 60) (of_int 120)) with f0_5 in W3 by (vm_compute; reflexivity).
  exact W3.
Qed.

Lemma tilt_term_within inp : valid_input inp = true ->
  within (mul f0_5 f0_9) (mul (of_int 1) f0_9) (mul (tiltFactor inp) f0_9).
Proof.
  intros H. pose proof (tiltFactor_within inp H) as Wt.
  apply within_mul; try fin_const; try scaled_const; [exact Wt|apply within_const; fin_const].
Qed.

Lemma azimuth_term_within inp : valid_input inp = true ->
  within (mul (lit 25 100) f0_6) (mul (of_int 1) f0_6) (mul (facingSouthFactor inp) f0_6).
Proof.
  intros H. pose proof (facingSouthFactor_within inp H) as Wf.
  apply within_mul; try fin_const; try scaled_const; [exact Wf|apply within_const; fin_const].
Qed.

Lemma within_lower_nonneg lo hi x : finite lo -> finite hi -> 0 <= scaled lo ->
  within lo hi x -> 0 <= scaled x.
Proof.
  intros Flo Fhi P W. pose proof (within_finite _ _ _ Flo Fhi W) as Fx.
  destruct W as (_ & L & _). exact (scaled_nonneg_of_leb lo x Flo Fx P L).
Qed.

(** The nearer the tilt is to 30, the larger [k], weakly. *)
Lemma k_of_mono_in_tilt i1 i2 :
  valid_input i1 = true -> valid_input i2 = true ->
  azimuth i1 = azimuth i2 ->
  Z.abs (scaled (tilt i1) - scaled (of_int 30))
    <= Z.abs (scaled (tilt i2) - scaled (of_int 30)) ->
  leb (k_of i2) (k_of i1) = true.
Proof.
  intros H1 H2 Haz Hd.
  pose proof (abs_sub_mono _ _ _ (tilt_finite i1 H1) (tilt_finite i2 H2) finite_of_int_30 Hd) as La.
  pose proof (tilt_abs_within i1 H1) as Wa1. pose proof (tilt_abs_within i2 H2) as Wa2.
  pose proof (within_finite _ _ _ finite_zero finite_of_int_60 Wa1) as Fa1.
  pose proof (within_finite _ _ _ finite_zero finite_of_int_60 Wa2) as Fa2.
  assert (Pa1 : 0 <= scaled (abs (sub (tilt i1) (of_int 30)))).
  { apply (within_lower_nonneg _ _ _ finite_zero finite_of_int_60); [reflexivity|exact Wa1]. }
  assert (Lq : leb (div (abs (sub (tilt i1) (of_int 30))) (of_int 120))
                   (div (abs (sub (tilt i2) (of_int 30))) (of_int 120)) = true).
  { apply div_mono_pos;
      [exact Fa1|exact Fa2|exact Pa1|exact finite_of_int_120|scaled_const|exact La]. }
  pose proof (tilt_quotient_within i1 H1) as Wq1. pose proof (tilt_quotient_within i2 H2) as Wq2.
  pose proof (within_finite _ _ _ finite_zero finite_f0_5 Wq1) as Fq1.
  pose proof (within_finite _ _ _ finite_zero finite_f0_5 Wq2) as Fq2.
  assert (Lt : leb (tiltFactor i2) (tiltFactor i1) = true).
  { unfold tiltFactor. apply SFsub_mono; solve64; try exact finite_of_int_1.
    apply leb_refl, finite_ordered64, finite_of_int_1. }
  pose proof (tiltFactor_within i1 H1) as Wt1. pose proof (tiltFactor_within i2 H2) as Wt2.
  pose proof (within_finite _ _ _ finite_f0_5 finite_of_int_1 Wt1) as Ft1.
  pose proof (within_finite _ _ _ finite_f0_5 finite_of_int_1 Wt2) as Ft2.
  assert (Pt2 : 0 <= scaled (tiltFactor i2)).
  { apply (within_lower_nonneg _ _ _ finite_f0_5 finite_of_int_1); [scaled_const|exact Wt2]. }
  assert (Lm : leb (mul (tiltFactor i2) f0_9) (mul (tiltFactor i1) f0_9) = true).
  { apply SFmul_mono; solve64; try exact finite_f0_9.
    - scaled_const.
    - apply leb_refl, finite_ordered64, finite_f0_9. }
  pose proof (tilt_term_within i1 H1) as Wm1. pose proof (tilt_term_within i2 H2) as Wm2.
  assert (Fm1 : finite (mul (tiltFactor i1) f0_9)).
  { apply (within_finite (mul f0_5 f0_9) (mul (of_int 1) f0_9)); [fin_const|fin_const|exact Wm1]. }
  assert (Fm2 : finite (mul (tiltFactor i2) f0_9)).
  { apply (within_finite (mul f0_5 f0_9) (mul (of_int 1) f0_9)); [fin_const|fin_const|exact Wm2]. }
  assert (Ef : facingSouthFactor i1 = facingSouthFactor i2).
  { unfold facingSouthFactor, azimuthDeviation. rewrite Haz. reflexivity. }
  pose proof (azimuth_term_within i1 H1) as Wz.
  assert (Fz : finite (mul (facingSouthFactor i1) f0_6)).
  { apply (within_finite (mul (lit 25 100) f0_6) (mul (of_int 1) f0_6));
      [fin_const|fin_const|exact Wz]. }
  destruct (k_of_weightedSum i1 H1) as [_ ->]. destruct (k_of_weightedSum i2 H2) as [_ ->].
  unfold weightedSum. rewrite <- Ef.
  apply SFadd_mono; solve64. apply leb_refl, finite_ordered64, Fz.
Qed.

(** ** Energy as a function of [k] and of the product [irradiance * area] *)

Lemma nonneg_ordered x : is_float x -> nonneg_float x -> ordered_float prec emax x.
Proof. intros V N. split; [exact V|]. destruct x; try contradiction; exact I. Qed.

Lemma max0_mono d1 d2 : ordered_float prec emax d1 -> ordered_float prec emax d2 ->
  leb d2 d1 = true ->
  leb (if ltb (of_int 0) d2 then d2 else of_int 0)
      (if ltb (of_int 0) d1 then d1 else of_int 0) = true.
Proof.
  intros O1 O2 L.
  assert (O0 : ordered_float prec emax (of_int 0)) by (split; [reflexivity|exact I]).
  pose proof (proj1 (leb_scaled d2 d1 O2 O1) L) as Ls.
  destruct (ltb (of_int 0) d2) eqn:E2; destruct (ltb (of_int 0) d1) eqn:E1.
  - exact L.
  - apply ltb_scaled in E2; auto.
    assert (ltb (of_int 0) d1 = true) by (apply ltb_scaled; auto; lia). congruence.
  - apply leb_scaled; auto. apply ltb_scaled in E1; auto. lia.
  - reflexivity.
Qed.

Lemma daily_mono_in_k p k1 k2 : nonneg_or_nan p ->
  finite k1 -> finite k2 -> 0 < scaled k2 -> leb k2 k1 = true ->
  leb (if ltb (of_int 0) (mul p k2) then mul p k2 else of_int 0)
      (if ltb (of_int 0) (mul p k1) then mul p k1 else of_int 0) = true.
Proof.
  intros Hp F1 F2 P2 L.
  assert (P1 : 0 < scaled k1).
  { apply leb_scaled in L; auto using finite_ordered64. lia. }
  destruct (scaled_pos_finite k1 F1 P1) as (m1 & e1 & E1 & B1).
  destruct (scaled_pos_finite k2 F2 P2) as (m2 & e2 & E2 & B2).
  destruct Hp as [->|[V N]].
  { subst. reflexivity. }
  destruct p as [s|s| |s m e]; try contradiction.
  - subst. destruct s; reflexivity.
  - subst. destruct s; [contradiction|reflexivity].
  - destruct s; [contradiction|].
    apply max0_mono.
    + subst k1. apply nonneg_ordered; apply mul_finite_nonneg; assumption.
    + subst k2. apply nonneg_ordered; apply mul_finite_nonneg; assumption.
    + assert (Fp : finite (S754_finite false m e)) by (split; [exact V|exact I]).
      apply SFmul_mono; solve64.
      * pose proof (Vabs_pos prec emax false m e) as Q.
        destruct (bounded_facts prec emax m e V) as (He & _).
        specialize (Q ltac:(lia)). unfold Vabs in Q. unfold Vz, cond_Zopp. lia.
      * change (0 <= scaled k2). lia.
      * apply leb_refl, finite_ordered64, Fp.
Qed.


Lemma finite_f0_18 : finite f0_18.
Proof. fin_const. Qed.





(** * The estimator's contract *)

Lemma compute_energy_defined inp : valid_input inp = true ->
  exists s, 40 <= s <= 100 /\
    compute_energy inp =
    Some {| daily := if ltb (of_int 0) (dailyKWh inp) then dailyKWh inp else of_int 0;
            monthly := if ltb (of_int 0) (monthlyKWh inp) then monthlyKWh inp else of_int 0;
            score := s |}.
Proof.
  intros H. destruct (score_of_range inp H) as (s & Hs & R).
  exists s. split; [exact R|]. unfold compute_energy. rewrite Hs, !max0_eq. reflexivity.
Qed.

(** C2: for every valid input the output has [daily >= 0], [monthly >= 0]
    and [monthly == daily * 30], the last one as the float comparison of
    [monthly] with the float product [daily * 30]. *)
Theorem C2_daily_monthly_nonneg_and_proportional inp :
  valid_input inp = true ->
  exists out, compute_energy inp = Some out /\
    leb (of_int 0) (daily out) = true /\
    leb (of_int 0) (monthly out) = true /\
    eqb (monthly out) (mul (daily out) (of_int 30)) = true.
Proof.
  intros H. destruct (compute_energy_defined inp H) as (s & _ & E).
  eexists. split; [exact E|]. cbn [daily monthly].
  split; [apply max0_nonneg|]. split; [apply max0_nonneg|].
  unfold monthlyKWh. apply monthly_is_daily_times_30, dailyKWh_class, H.
Qed.

Lemma C2_witness :
  valid_input scenario_optimal = true /\
  exists out, compute_energy scenario_optimal = Some out /\
    leb (of_int 0) (daily out) = true /\
    leb (of_int 0) (monthly out) = true /\
    eqb (monthly out) (mul (daily out) (of_int 30)) = true.
Proof.
  split; [vm_compute; reflexivity|].
  apply (C2_daily_monthly_nonneg_and_proportional scenario_optimal).
  vm_compute; reflexivity.
Defined.

(** C3: for every valid input [compute_energy] returns, and the score it
    returns is an integer between 0 and 100. *)
Theorem C3_score_in_0_100 inp :
  valid_input inp = true ->
  exists out, compute_energy inp = Some out /\ 0 <= score out <= 100.
Proof.
  intros H. destruct (compute_energy_defined inp H) as (s & R & E).
  eexists. split; [exact E|]. cbn [score]. lia.
Qed.

Lemma C3_witness :
  valid_input scenario_zero = true /\
  exists out, compute_energy scenario_zero = Some out /\ 0 <= score out <= 100.
Proof.
  split; [vm_compute; reflexivity|].
  apply (C3_score_in_0_100 scenario_zero). vm_compute; reflexivity.
Defined.

(** C9: for every valid input [tiltFactor] lies in [0.5, 1] and
    [facingSouthFactor] in [0.25, 1]; the weighted sum is at least [0.6], so
    [max(0.5, ...)] returns the sum and never the floor; [k] lies in
    [0.6, 1.5]; and the score returned is at least 40. *)
Theorem C9_factors_k_and_score_bounds inp :
  valid_input inp = true ->
  within (lit 5 10) (of_int 1) (tiltFactor inp) /\
  within (lit 25 100) (of_int 1) (facingSouthFactor inp) /\
  leb (lit 6 10) (weightedSum inp) = true /\
  ltb (lit 5 10) (weightedSum inp) = true /\
  k_of inp = weightedSum inp /\
  within (lit 6 10) (lit 15 10) (k_of inp) /\
  exists out, compute_energy inp = Some out /\ 40 <= score out.
Proof.
  intros H.
  split; [exact (tiltFactor_within inp H)|].
  split; [exact (facingSouthFactor_within inp H)|].
  split; [exact (proj1 (proj2 (weightedSum_within inp H)))|].
  destruct (k_of_weightedSum inp H) as [Hlt Hk].
  split; [exact Hlt|]. split; [exact Hk|].
  split; [exact (k_of_within inp H)|].
  destruct (compute_energy_defined inp H) as (s & R & E).
  eexists. split; [exact E|]. cbn [score]. lia.
Qed.

Lemma C9_witness :
  valid_input scenario_zero = true /\
  within (lit 5 10) (of_int 1) (tiltFactor scenario_zero) /\
  within (lit 25 100) (of_int 1) (facingSouthFactor scenario_zero) /\
  leb (lit 6 10) (weightedSum scenario_zero) = true /\
  ltb (lit 5 10) (weightedSum scenario_zero) = true /\
  k_of scenario_zero = weightedSum scenario_zero /\
  within (lit 6 10) (lit 15 10) (k_of scenario_zero) /\
  exists out, compute_energy scenario_zero = Some out /\ 40 <= score out.
Proof.
  split; [vm_compute; reflexivity|].
  apply (C9_factors_k_and_score_bounds scenario_zero). vm_compute; reflexivity.
Defined.

(** C1: for every valid input [compute_energy] returns exactly the outputs
    of the seven-step formula of the specification, evaluated in binary64
    arithmetic with IEEE [min]/[max] and round-half-to-even. *)
Theorem C1_compute_energy_is_the_formula inp :
  valid_input inp = true ->
  compute_energy inp = Some (Spec.outputs inp).
Proof.
  intros H. destruct (compute_energy_defined inp H) as (s & _ & E).
  rewrite E. pose proof (spec_score inp H) as Hs.
  assert (Es : score_of inp = Some s).
  { unfold compute_energy in E. destruct (score_of inp); [|discriminate].
    injection E as _ _ ->. reflexivity. }
  rewrite Es in Hs. injection Hs as ->.
  unfold Spec.outputs, Spec.monthlyKWh, Spec.dailyKWh. rewrite (spec_k inp H).
  fold f0_18. fold (dailyKWh inp). fold (monthlyKWh inp).
  rewrite (fmax0_py _ (dailyKWh_class inp H)), (fmax0_py _ (monthlyKWh_class inp H)).
  reflexivity.
Qed.

Lemma C1_witness :
  valid_input scenario_optimal = true /\
  compute_energy scenario_optimal = Some (Spec.outputs scenario_optimal).
Proof.
  split; [vm_compute; reflexivity|].
  apply (C1_compute_energy_is_the_formula scenario_optimal). vm_compute; reflexivity.
Defined.

(** C7 as stated fails: at [tilt=30, azimuth=180, irradiance=4.8, area=18]
    the program does not return [daily = 23.328] and [monthly = 699.84],
    and at the all-zero input [k] is not [0.825]. *)
Lemma C7_counterexample :
  ~ (compute_energy scenario_optimal
       = Some {| daily := lit 23328 1000; monthly := lit 69984 100; score := 100 |}
     /\ k_of scenario_optimal = lit 15 10
     /\ compute_energy scenario_zero
       = Some {| daily := of_int 0; monthly := of_int 0; score := 55 |}
     /\ k_of scenario_zero = lit 825 1000).
Proof.
  intros (H & _). vm_compute in H. discriminate H.
Qed.

(** C7, amended: on the first scenario [k = 1.5], [score = 100], [daily] is
    the float just below [23.328] and [monthly] the float just below
    [699.84]; on the second [daily = 0], [monthly = 0], [score = 55] and [k]
    is the float just above [0.825]. *)
Theorem C7_boundary_scenarios :
  compute_energy scenario_optimal
    = Some {| daily := SFpred prec emax (lit 23328 1000);
              monthly := SFpred prec emax (lit 69984 100);
              score := 100 |}
  /\ SFpred prec emax (lit 23328 1000) = S754_finite false 6566248256706182 (-48)
  /\ SFpred prec emax (lit 69984 100) = S754_finite false 6155857740662046 (-43)
  /\ k_of scenario_optimal = lit 15 10
  /\ compute_energy scenario_zero
    = Some {| daily := of_int 0; monthly := of_int 0; score := 55 |}
  /\ k_of scenario_zero = SFsucc prec emax (lit 825 1000)
  /\ SFsucc prec emax (lit 825 1000) = S754_finite false 7430939385161319 (-53).
Proof.
  repeat split; vm_compute; reflexivity.
Qed.












(** C6: two azimuths in [0, 360] at the same distance from 180 on either
    side give the same [facingSouthFactor], hence the same output when
    tilt, irradiance and area are equal. *)
Theorem C6_azimuth_symmetry t a1 a2 i r :
  valid_input (mkEnergyInput t a1 i r) = true ->
  valid_input (mkEnergyInput t a2 i r) = true ->
  scaled a1 - scaled (of_int 180) = scaled (of_int 180) - scaled a2 ->
  facingSouthFactor (mkEnergyInput t a1 i r) = facingSouthFactor (mkEnergyInput t a2 i r) /\
  compute_energy (mkEnergyInput t a1 i r) = compute_energy (mkEnergyInput t a2 i r).
Proof.
  intros H1 H2 Hs.
  pose proof (azimuth_finite _ H1) as F1. pose proof (azimuth_finite _ H2) as F2.
  cbn [azimuth] in F1, F2.
  assert (Ha : abs (sub a1 (of_int 180)) = abs (sub a2 (of_int 180))).
  { rewrite !abs_sub_scaled by (auto using finite_of_int_180). f_equal. lia. }
  assert (Hf : facingSouthFactor (mkEnergyInput t a1 i r)
               = facingSouthFactor (mkEnergyInput t a2 i r)).
  { unfold facingSouthFactor, azimuthDeviation. cbn [azimuth]. rewrite Ha. reflexivity. }
  split; [exact Hf|].
  unfold compute_energy, score_of, percent, monthlyKWh, dailyKWh, k_of, weightedSum.
  rewrite Hf. reflexivity.
Qed.

Lemma C6_witness :
  valid_input (scenario_azimuth (of_int 90)) = true /\
  valid_input (scenario_azimuth (of_int 270)) = true /\
  scaled (of_int 90) - scaled (of_int 180) = scaled (of_int 180) - scaled (of_int 270) /\
  facingSouthFactor (scenario_azimuth (of_int 90))
    = facingSouthFactor (scenario_azimuth (of_int 270)) /\
  compute_energy (scenario_azimuth (of_int 90)) = compute_energy (scenario_azimuth (of_int 270)).
Proof.
  split; [vm_compute; reflexivity|]. split; [vm_compute; reflexivity|].
  split; [vm_compute; reflexivity|].
  apply (C6_azimuth_symmetry (of_int 25) (of_int 90) (of_int 270) (lit 48 10) (of_int 18)).
  - vm_compute; reflexivity.
  - vm_compute; reflexivity.
  - vm_compute; reflexivity.
Defined.


(** ** Further facts about the estimator *)

(** *** The clamps *)

Lemma scaled_inj_pos x y : finite x -> finite y -> 0 < scaled x ->
  scaled x = scaled y -> x = y.
Proof.
  intros Fx Fy Px E.
  destruct (scaled_pos_finite x Fx Px) as (mx & ex & -> & Bx).
  destruct (scaled_pos_finite y Fy ltac:(lia)) as (my & ey & -> & By).
  assert (Ex : RZ prec emax (emin prec emax) (Vz prec emax (S754_finite false mx ex))
               = S754_finite false mx ex) by (apply RZ_canonical; solve64).
  assert (Ey : RZ prec emax (emin prec emax) (Vz prec emax (S754_finite false my ey))
               = S754_finite false my ey) by (apply RZ_canonical; solve64).
  unfold scaled in E. rewrite <- Ex, <- Ey, E. reflexivity.
Qed.

Lemma azimuthDeviation_eq inp : valid_input inp = true ->
  azimuthDeviation inp = abs (sub (azimuth inp) (of_int 180)).
Proof.
  intros H. pose proof (azimuth_abs_within inp H) as W.
  pose proof (within_finite _ _ _ finite_zero finite_of_int_180 W) as F.
  destruct W as (_ & _ & U).
  unfold azimuthDeviation, Py.min, Py.lt. cbn [Py.to_float].
  replace (ltb (of_int 180) (abs (sub (azimuth inp) (of_int 180)))) with false;
    [reflexivity|].
  rewrite (leb_ltb_false _ _ (finite_ordered64 _ F) (finite_ordered64 _ finite_of_int_180)) in U.
  destruct (ltb (of_int 180) (abs (sub (azimuth inp) (of_int 180)))); [discriminate U|reflexivity].
Qed.

Lemma score_of_eq inp : valid_input inp = true ->
  score_of inp = Py.round_float (percent inp).
Proof.
  intros H. pose proof (percent_within inp H) as W.
  pose proof (within_finite _ _ _ finite_of_int_40 finite_of_int_100 W) as F.
  destruct W as (_ & L & U).
  unfold score_of, Py.min, Py.lt. cbn [Py.to_float].
  destruct (ltb (percent inp) (of_int 100)) eqn:E; [reflexivity|].
  cbn [Py.round].
  assert (Es : scaled (percent inp) = scaled (of_int 100)).
  { apply leb_scaled in U; auto using finite_ordered64, finite_of_int_100.
    assert (~ scaled (percent inp) < scaled (of_int 100)).
    { intros C. apply ltb_scaled in C; auto using finite_ordered64, finite_of_int_100.
      congruence. }
    lia. }
  assert (P : 0 < scaled (of_int 100)) by scaled_const.
  rewrite (scaled_inj_pos (percent inp) (of_int 100) F finite_of_int_100 ltac:(lia) Es).
  reflexivity.
Qed.

(** *** Products of non-negative floats, infinities included *)

Lemma leb_infinity x : is_float x -> nonneg_float x -> leb x (S754_infinity false) = true.
Proof.
  intros _ N. destruct x as [s|s| |s m e]; try contradiction;
    destruct s; try contradiction; reflexivity.
Qed.

Lemma finite_pos_scaled m e : bounded prec emax m e = true ->
  finite (S754_finite false m e) /\ 0 < scaled (S754_finite false m e).
Proof.
  intros B. split; [split; [exact B|exact I]|].
  destruct (bounded_facts prec emax m e B) as (He & _).
  pose proof (Vabs_pos prec emax false m e ltac:(lia)) as Q.
  unfold Vabs in Q. unfold scaled, Vz, cond_Zopp. lia.
Qed.

Lemma mul_pos_class x m e : is_float x -> nonneg_float x ->
  bounded prec emax m e = true ->
  is_float (mul x (S754_finite false m e)) /\ nonneg_float (mul x (S754_finite false m e)).
Proof.
  intros V N B. destruct x as [s|s| |s mx ex]; try contradiction.
  - split; [reflexivity|exact I].
  - destruct s; [contradiction|]. split; [reflexivity|exact I].
  - destruct s; [contradiction|]. apply mul_finite_nonneg; assumption.
Qed.

(** Multiplication is monotone on non-negative floats: a zero or an
    infinity on the left, a positive finite factor on the right. *)
Lemma mul_mono_nonneg x x' c c' :
  is_float x -> nonneg_float x -> is_float x' -> nonneg_float x' ->
  finite c -> 0 < scaled c -> finite c' ->
  leb x x' = true -> leb c c' = true ->
  (is_float (mul x c) /\ nonneg_float (mul x c)) /\
  (is_float (mul x' c') /\ nonneg_float (mul x' c')) /\
  leb (mul x c) (mul x' c') = true.
Proof.
  intros Vx Nx Vx' Nx' Fc Pc Fc' Lx Lc.
  assert (Pc' : 0 < scaled c').
  { apply leb_scaled in Lc; auto using finite_ordered64. lia. }
  destruct (scaled_pos_finite c Fc Pc) as (mc & ec & -> & Bc).
  destruct (scaled_pos_finite c' Fc' Pc') as (mc' & ec' & -> & Bc').
  pose proof (mul_pos_class x mc ec Vx Nx Bc) as C.
  pose proof (mul_pos_class x' mc' ec' Vx' Nx' Bc') as C'.
  split; [exact C|]. split; [exact C'|].
  destruct x as [s|s| |s m e]; try contradiction.
  - change (mul (S754_zero s) (S754_finite false mc ec)) with (S754_zero (xorb s false)).
    apply SFleb_zero_nonneg. exact (proj2 C').
  - destruct s; [contradiction|].
    destruct x' as [s'|s'| |s' m' e']; try contradiction;
      try (destruct s'; try contradiction); try discriminate Lx.
    reflexivity.
  - destruct s; [contradiction|].
    destruct x' as [s'|s'| |s' m' e']; try contradiction;
      try (destruct s'; try contradiction); try discriminate Lx.
    + apply leb_infinity; [exact (proj1 C)|exact (proj2 C)].
    + destruct (finite_pos_scaled m e Vx) as [Fx Px].
      destruct (finite_pos_scaled m' e' Vx') as [Fx' _].
      apply SFmul_mono; solve64.
      * change (0 <= scaled (S754_finite false m e)). lia.
      * change (0 <= scaled (S754_finite false mc ec)). lia.
Qed.

(** The product [irradiance * area] of two non-negative fields against
    that of two larger ones. *)
Lemma product_mono i i' r r' :
  is_float i -> nonneg_float i -> is_float i' -> nonneg_float i' ->
  is_float r -> nonneg_float r -> is_float r' -> nonneg_float r' ->
  leb i i' = true -> leb r r' = true ->
  mul i r = S754_nan \/ (exists s, mul i r = S754_zero s) \/
  ((is_float (mul i r) /\ nonneg_float (mul i r)) /\
   (is_float (mul i' r') /\ nonneg_float (mul i' r')) /\
   leb (mul i r) (mul i' r') = true).
Proof.
  intros Vi Ni Vi' Ni' Vr Nr Vr' Nr' Li Lr.
  destruct i as [s|s| |s m e]; try contradiction.
  - destruct r as [t|t| |t n f]; try contradiction;
      [right; left; eexists; reflexivity|left; reflexivity
      |right; left; eexists; reflexivity].
  - destruct s; [contradiction|].
    destruct i' as [s'|s'| |s' m' e']; try contradiction;
      try (destruct s'; try contradiction); try discriminate Li.
    destruct r as [t|t| |t n f]; try contradiction.
    + left; reflexivity.
    + destruct t; [contradiction|].
      destruct r' as [t'|t'| |t' n' f']; try contradiction;
        try (destruct t'; try contradiction); try discriminate Lr.
      right; right. repeat split; reflexivity.
    + destruct t; [contradiction|].
      destruct r' as [t'|t'| |t' n' f']; try contradiction;
        try (destruct t'; try contradiction); try discriminate Lr;
        right; right; repeat split; reflexivity.
  - destruct s; [contradiction|].
    destruct r as [t|t| |t n f]; try contradiction.
    + right; left; eexists; reflexivity.
    + destruct t; [contradiction|].
      destruct r' as [t'|t'| |t' n' f']; try contradiction;
        try (destruct t'; try contradiction); try discriminate Lr.
      destruct i' as [s'|s'| |s' m' e']; try contradiction;
        try (destruct s'; try contradiction); try discriminate Li;
        right; right; repeat split; reflexivity.
    + destruct t; [contradiction|].
      destruct i' as [s'|s'| |s' m' e']; try contradiction;
        try (destruct s'; try contradiction); try discriminate Li;
      destruct r' as [t'|t'| |t' n' f']; try contradiction;
        try (destruct t'; try contradiction); try discriminate Lr;
        right; right.
      * split; [apply mul_finite_nonneg; assumption|].
        split; [split; [reflexivity|exact I]|].
        apply leb_infinity; apply mul_finite_nonneg; assumption.
      * split; [apply mul_finite_nonneg; assumption|].
        split; [split; [reflexivity|exact I]|].
        apply leb_infinity; apply mul_finite_nonneg; assumption.
      * split; [apply mul_finite_nonneg; assumption|].
        split; [split; [reflexivity|exact I]|].
        apply leb_infinity; apply mul_finite_nonneg; assumption.
      * destruct (finite_pos_scaled m e Vi) as [Fi Pi].
        destruct (finite_pos_scaled n f Vr) as [Fr Pr].
        destruct (finite_pos_scaled m' e' Vi') as [Fi' _].
        apply (mul_mono_nonneg (S754_finite false m e) (S754_finite false m' e')
                 (S754_finite false n f) (S754_finite false n' f')); auto.
        split; [exact Vr'|exact I].
Qed.

Lemma f0_18_bits : f0_18 = S754_finite false 6485183463413514 (-55).
Proof. vm_compute; reflexivity. Qed.

Lemma of_int_30_bits : of_int 30 = S754_finite false 8444249301319680 (-48).
Proof. vm_compute; reflexivity. Qed.

(** The energies as functions of the product [irradiance * area]. *)
Lemma energy_mono_in_product p p' k :
  p = S754_nan \/ (exists s, p = S754_zero s) \/
  ((is_float p /\ nonneg_float p) /\ (is_float p' /\ nonneg_float p') /\ leb p p' = true) ->
  finite k -> 0 < scaled k ->
  leb (if ltb (of_int 0) (mul (mul p f0_18) k) then mul (mul p f0_18) k else of_int 0)
      (if ltb (of_int 0) (mul (mul p' f0_18) k) then mul (mul p' f0_18) k else of_int 0)
    = true /\
  leb (if ltb (of_int 0) (mul (mul (mul p f0_18) k) (of_int 30))
       then mul (mul (mul p f0_18) k) (of_int 30) else of_int 0)
      (if ltb (of_int 0) (mul (mul (mul p' f0_18) k) (of_int 30))
       then mul (mul (mul p' f0_18) k) (of_int 30) else of_int 0)
    = true.
Proof.
  intros Hp Fk Pk.
  destruct Hp as [->|[[s ->]|(C & C' & L)]].
  - destruct (scaled_pos_finite k Fk Pk) as (mk & ek & -> & Bk).
    rewrite f0_18_bits.
    change (mul (mul S754_nan (S754_finite false 6485183463413514 (-55)))
                (S754_finite false mk ek)) with S754_nan.
    change (mul S754_nan (of_int 30)) with S754_nan.
    change (ltb (of_int 0) S754_nan) with false. cbv iota.
    split; apply max0_nonneg.
  - destruct (scaled_pos_finite k Fk Pk) as (mk & ek & -> & Bk).
    rewrite f0_18_bits, of_int_30_bits.
    change (mul (mul (S754_zero s) (S754_finite false 6485183463413514 (-55)))
                (S754_finite false mk ek))
      with (S754_zero (xorb (xorb s false) false)).
    change (mul (S754_zero (xorb (xorb s false) false))
                (S754_finite false 8444249301319680 (-48)))
      with (S754_zero (xorb (xorb (xorb s false) false) false)).
    change (ltb (of_int 0) (S754_zero (xorb (xorb s false) false))) with false.
    change (ltb (of_int 0) (S754_zero (xorb (xorb (xorb s false) false) false))) with false.
    cbv iota. rewrite <- of_int_30_bits. split; apply max0_nonneg.
  - destruct C as [V N], C' as [V' N'].
    assert (P18 : 0 < scaled f0_18) by scaled_const.
    assert (P30 : 0 < scaled (of_int 30)) by scaled_const.
    destruct (mul_mono_nonneg p p' f0_18 f0_18 V N V' N' finite_f0_18 P18 finite_f0_18 L
                (leb_refl _ (finite_ordered64 _ finite_f0_18)))
      as ([V1 N1] & [V1' N1'] & L1).
    destruct (mul_mono_nonneg _ _ k k V1 N1 V1' N1' Fk Pk Fk L1
                (leb_refl _ (finite_ordered64 _ Fk)))
      as ([V2 N2] & [V2' N2'] & L2).
    destruct (mul_mono_nonneg _ _ (of_int 30) (of_int 30) V2 N2 V2' N2'
                finite_of_int_30 P30 finite_of_int_30 L2
                (leb_refl _ (finite_ordered64 _ finite_of_int_30)))
      as ([V3 N3] & [V3' N3'] & L3).
    split; apply max0_mono; auto using nonneg_ordered.
Qed.

(** The outputs as functions of [k]. *)
Lemma energy_mono_in_k p k1 k2 : nonneg_or_nan p ->
  finite k1 -> finite k2 -> 0 < scaled k2 -> leb k2 k1 = true ->
  leb (if ltb (of_int 0) (mul (mul p k2) (of_int 30))
       then mul (mul p k2) (of_int 30) else of_int 0)
      (if ltb (of_int 0) (mul (mul p k1) (of_int 30))
       then mul (mul p k1) (of_int 30) else of_int 0) = true.
Proof.
  intros Hp F1 F2 P2 L.
  destruct Hp as [->|[V N]].
  - assert (P1 : 0 < scaled k1).
    { apply leb_scaled in L; auto using finite_ordered64. lia. }
    destruct (scaled_pos_finite k1 F1 P1) as (m1 & e1 & -> & B1).
    destruct (scaled_pos_finite k2 F2 P2) as (m2 & e2 & -> & B2).
    reflexivity.
  - assert (P30 : 0 < scaled (of_int 30)) by scaled_const.
    destruct (mul_mono_nonneg p p k2 k1 V N V N F2 P2 F1
                (leb_refl _ (nonneg_ordered _ V N)) L)
      as ([V2 N2] & [V1 N1] & L1).
    destruct (mul_mono_nonneg _ _ (of_int 30) (of_int 30) V2 N2 V1 N1
                finite_of_int_30 P30 finite_of_int_30 L1
                (leb_refl _ (finite_ordered64 _ finite_of_int_30)))
      as ([V3 N3] & [V3' N3'] & L3).
    apply max0_mono; auto using nonneg_ordered.
Qed.

Lemma percent_mono i1 i2 : valid_input i1 = true -> valid_input i2 = true ->
  leb (k_of i2) (k_of i1) = true -> leb (percent i2) (percent i1) = true.
Proof.
  intros H1 H2 L.
  destruct (k_of_positive i1 H1) as [F1 P1]. destruct (k_of_positive i2 H2) as [F2 P2].
  assert (P15 : 0 < scaled f1_5) by scaled_const.
  assert (Ld : leb (div (k_of i2) f1_5) (div (k_of i1) f1_5) = true).
  { apply div_mono_pos; auto using finite_f1_5. lia. }
  pose proof (k_of_within i1 H1) as W1. pose proof (k_of_within i2 H2) as W2.
  assert (Wd1 : within (div f0_6 f1_5) (div f1_5 f1_5) (div (k_of i1) f1_5)).
  { apply within_div_pos; try fin_const; try scaled_const. exact W1. }
  assert (Wd2 : within (div f0_6 f1_5) (div f1_5 f1_5) (div (k_of i2) f1_5)).
  { apply within_div_pos; try fin_const; try scaled_const. exact W2. }
  assert (Fd1 : finite (div (k_of i1) f1_5)).
  { apply (within_finite (div f0_6 f1_5) (div f1_5 f1_5)); [fin_const|fin_const|exact Wd1]. }
  assert (Fd2 : finite (div (k_of i2) f1_5)).
  { apply (within_finite (div f0_6 f1_5) (div f1_5 f1_5)); [fin_const|fin_const|exact Wd2]. }
  assert (Pd2 : 0 <= scaled (div (k_of i2) f1_5)).
  { apply (within_lower_nonneg (div f0_6 f1_5) (div f1_5 f1_5));
      [fin_const|fin_const|scaled_const|exact Wd2]. }
  unfold percent. apply SFmul_mono; solve64; try exact finite_of_int_100.
  - scaled_const.
  - apply leb_refl, finite_ordered64, finite_of_int_100.
Qed.

Lemma score_mono_in_k i1 i2 : valid_input i1 = true -> valid_input i2 = true ->
  leb (k_of i2) (k_of i1) = true ->
  exists s1 s2, score_of i1 = Some s1 /\ score_of i2 = Some s2 /\ s2 <= s1.
Proof.
  intros H1 H2 L. pose proof (percent_mono i1 i2 H1 H2 L) as Lp.
  pose proof (percent_within i1 H1) as W1. pose proof (percent_within i2 H2) as W2.
  pose proof (within_finite _ _ _ finite_of_int_40 finite_of_int_100 W1) as F1.
  pose proof (within_finite _ _ _ finite_of_int_40 finite_of_int_100 W2) as F2.
  assert (P40 : 0 < scaled (of_int 40)) by scaled_const.
  destruct W1 as (_ & L1 & _), W2 as (_ & L2 & _).
  apply leb_scaled in L1, L2, Lp; auto using finite_ordered64, finite_of_int_40.
  rewrite !score_of_eq by assumption.
  rewrite !round_float_scaled by (auto; lia).
  eexists. eexists. split; [reflexivity|]. split; [reflexivity|].
  apply round_scaled_mono. lia.
Qed.

(** The outputs of two valid inputs with the same irradiance and area. *)
Lemma outputs_mono_in_k i1 i2 :
  valid_input i1 = true -> valid_input i2 = true ->
  irradiance i1 = irradiance i2 -> area i1 = area i2 ->
  leb (k_of i2) (k_of i1) = true ->
  exists o1 o2,
    compute_energy i1 = Some o1 /\ compute_energy i2 = Some o2 /\
    leb (daily o2) (daily o1) = true /\
    leb (monthly o2) (monthly o1) = true /\
    score o2 <= score o1.
Proof.
  intros H1 H2 Ei Ea L.
  destruct (score_mono_in_k i1 i2 H1 H2 L) as (s1 & s2 & S1 & S2 & Ls).
  destruct (k_of_positive i1 H1) as [F1 _]. destruct (k_of_positive i2 H2) as [F2 P2].
  assert (Hp : nonneg_or_nan (mul (mul (irradiance i1) (area i1)) f0_18)).
  { apply mul_nonneg_or_nan; [exact (irradiance_area_class i1 H1)|].
    apply finite_pos_nonneg; [exact finite_f0_18|scaled_const]. }
  unfold compute_energy. rewrite S1, S2, !max0_eq.
  eexists. eexists. split; [reflexivity|]. split; [reflexivity|].
  cbn [daily monthly score]. unfold monthlyKWh, dailyKWh. rewrite <- Ei, <- Ea.
  split; [|split; [|exact Ls]].
  - apply daily_mono_in_k; auto.
  - apply energy_mono_in_k; auto.
Qed.

(** *** Azimuth *)

Lemma finite_of_int_240 : finite (of_int 240).
Proof. fin_const. Qed.

(** The nearer the azimuth is to 180, the larger [k], weakly. *)
Lemma k_of_mono_in_azimuth i1 i2 :
  valid_input i1 = true -> valid_input i2 = true ->
  tilt i1 = tilt i2 ->
  Z.abs (scaled (azimuth i1) - scaled (of_int 180))
    <= Z.abs (scaled (azimuth i2) - scaled (of_int 180)) ->
  leb (k_of i2) (k_of i1) = true.
Proof.
  intros H1 H2 Ht Hd.
  pose proof (abs_sub_mono _ _ _ (azimuth_finite i1 H1) (azimuth_finite i2 H2)
                finite_of_int_180 Hd) as La.
  pose proof (azimuth_abs_within i1 H1) as Wa1. pose proof (azimuth_abs_within i2 H2) as Wa2.
  pose proof (within_finite _ _ _ finite_zero finite_of_int_180 Wa1) as Fa1.
  pose proof (within_finite _ _ _ finite_zero finite_of_int_180 Wa2) as Fa2.
  assert (Pa1 : 0 <= scaled (abs (sub (azimuth i1) (of_int 180)))).
  { apply (within_lower_nonneg _ _ _ finite_zero finite_of_int_180); [reflexivity|exact Wa1]. }
  assert (Lq : leb (div (abs (sub (azimuth i1) (of_int 180))) (of_int 240))
                   (div (abs (sub (azimuth i2) (of_int 180))) (of_int 240)) = true).
  { apply div_mono_pos;
      [exact Fa1|exact Fa2|exact Pa1|exact finite_of_int_240|scaled_const|exact La]. }
  assert (Wq : forall i, valid_input i = true ->
            finite (div (abs (sub (azimuth i) (of_int 180))) (of_int 240))).
  { intros i Hi.
    apply (within_finite (div (S754_zero false) (of_int 240)) (div (of_int 180) (of_int 240)));
      [fin_const|fin_const|].
    apply within_div_pos; try fin_const; try scaled_const. exact (azimuth_abs_within i Hi). }
  pose proof (Wq i1 H1) as Fq1. pose proof (Wq i2 H2) as Fq2.
  assert (Lf : leb (facingSouthFactor i2) (facingSouthFactor i1) = true).
  { unfold facingSouthFactor. rewrite !azimuthDeviation_eq by assumption.
    apply SFsub_mono; solve64; try exact finite_of_int_1.
    apply leb_refl, finite_ordered64, finite_of_int_1. }
  pose proof (facingSouthFactor_within i1 H1) as Wf1.
  pose proof (facingSouthFactor_within i2 H2) as Wf2.
  assert (F25 : finite (lit 25 100)) by fin_const.
  pose proof (within_finite _ _ _ F25 finite_of_int_1 Wf1) as Ff1.
  pose proof (within_finite _ _ _ F25 finite_of_int_1 Wf2) as Ff2.
  assert (Pf2 : 0 <= scaled (facingSouthFactor i2)).
  { apply (within_lower_nonneg _ _ _ F25 finite_of_int_1); [scaled_const|exact Wf2]. }
  assert (Lm : leb (mul (facingSouthFactor i2) f0_6) (mul (facingSouthFactor i1) f0_6) = true).
  { apply SFmul_mono; solve64; try exact finite_f0_6.
    - scaled_const.
    - apply leb_refl, finite_ordered64, finite_f0_6. }
  pose proof (azimuth_term_within i1 H1) as Wm1. pose proof (azimuth_term_within i2 H2) as Wm2.
  assert (Fm1 : finite (mul (facingSouthFactor i1) f0_6)).
  { apply (within_finite (mul (lit 25 100) f0_6) (mul (of_int 1) f0_6));
      [fin_const|fin_const|exact Wm1]. }
  assert (Fm2 : finite (mul (facingSouthFactor i2) f0_6)).
  { apply (within_finite (mul (lit 25 100) f0_6) (mul (of_int 1) f0_6));
      [fin_const|fin_const|exact Wm2]. }
  assert (Et : tiltFactor i1 = tiltFactor i2).
  { unfold tiltFactor. rewrite Ht. reflexivity. }
  pose proof (tilt_term_within i1 H1) as Wz.
  assert (Fz : finite (mul (tiltFactor i1) f0_9)).
  { apply (within_finite (mul f0_5 f0_9) (mul (of_int 1) f0_9));
      [fin_const|fin_const|exact Wz]. }
  destruct (k_of_weightedSum i1 H1) as [_ ->]. destruct (k_of_weightedSum i2 H2) as [_ ->].
  unfold weightedSum. rewrite <- Et.
  apply SFadd_mono; solve64. apply leb_refl, finite_ordered64, Fz.
Qed.

(** *** A month against a day *)

Lemma mul_30_ge x : is_float x -> nonneg_float x -> leb x (mul x (of_int 30)) = true.
Proof.
  intros V N. destruct x as [s|s| |s m e]; try contradiction.
  - destruct s; reflexivity.
  - destruct s; [contradiction|reflexivity].
  - destruct s; [contradiction|].
    destruct (bounded_facts prec emax m e V) as (He & _).
    pose proof emin_val as Hm. rewrite Hm in He.
    assert (E1 : S754_finite false m e
                 = round_cell prec emax false (2 * emin prec emax)
                     (4 * (Z.pos m * 2 ^ (e - 2 * emin prec emax)))).
    { assert (Ec : round_cell prec emax false (emin prec emax)
                     (4 * (Z.pos m * 2 ^ (e - emin prec emax))) = S754_finite false m e)
        by (apply round_cell_canonical; solve64).
      assert (Eb1 : binary_round prec emax false m e
                    = round_cell prec emax false (emin prec emax)
                        (4 * (Z.pos m * 2 ^ (e - emin prec emax))))
        by (apply binary_round_fine; solve64; rewrite ?Hm; lia).
      assert (Eb2 : binary_round prec emax false m e
                    = round_cell prec emax false (2 * emin prec emax)
                        (4 * (Z.pos m * 2 ^ (e - 2 * emin prec emax))))
        by (apply binary_round_fine; solve64; rewrite ?Hm; lia).
      rewrite <- Ec, <- Eb1, Eb2. reflexivity. }
    assert (Em : mul (S754_finite false m e) (S754_finite false 8444249301319680 (-48))
                 = round_cell prec emax (xorb false false) (2 * emin prec emax)
                     (4 * (Vabs prec emax (S754_finite false m e)
                           * Vabs prec emax (S754_finite false 8444249301319680 (-48)))))
      by (apply SFmul_finite; solve64; vm_compute; reflexivity).
    rewrite of_int_30_bits, Em. cbn [xorb]. rewrite E1 at 1.
    apply round_cell_mono; solve64; [rewrite Hm; lia|].
    unfold Vabs. rewrite Hm.
    replace (e - 2 * -1074) with ((e - -1074) + 1074) by lia.
    replace (-48 - -1074) with 1026 by lia.
    rewrite Z.pow_add_r by lia.
    pose proof (Z.pow_pos_nonneg 2 (e - -1074) ltac:(lia) ltac:(lia)) as Q1.
    assert (Q2 : 2 ^ 1074 <= 8444249301319680 * 2 ^ 1026).
    { replace 1074 with (48 + 1026) by lia. rewrite Z.pow_add_r by lia.
      pose proof (Z.pow_pos_nonneg 2 1026 ltac:(lia) ltac:(lia)).
      change (2 ^ 48) with 281474976710656. nia. }
    pose proof (Z.pow_pos_nonneg 2 1074 ltac:(lia) ltac:(lia)) as Q3.
    split; [nia|].
    apply Z.mul_le_mono_nonneg_l; [lia|].
    rewrite <- Z.mul_assoc. apply Z.mul_le_mono_nonneg_l; [lia|].
    apply Z.mul_le_mono_nonneg_l; [lia|exact Q2].
Qed.

(** *** Statements *)

(** X1.  On a valid input neither [min] changes its float argument:
    [abs(azimuth - 180)] never exceeds 180 and [(k / 1.5) * 100] never
    exceeds 100, so the deviation is the absolute difference itself and the
    score is the rounding of the percentage. *)
Theorem clamps_never_bind inp :
  valid_input inp = true ->
  leb (abs (sub (azimuth inp) (of_int 180))) (of_int 180) = true /\
  azimuthDeviation inp = abs (sub (azimuth inp) (of_int 180)) /\
  leb (percent inp) (of_int 100) = true /\
  score_of inp = Py.round_float (percent inp).
Proof.
  intros H.
  destruct (azimuth_abs_within inp H) as (_ & _ & U1).
  destruct (percent_within inp H) as (_ & _ & U2).
  split; [exact U1|]. split; [apply azimuthDeviation_eq; exact H|].
  split; [exact U2|apply score_of_eq; exact H].
Qed.

Lemma clamps_never_bind_witness :
  valid_input scenario_zero = true /\
  azimuthDeviation scenario_zero = abs (sub (of_int 0) (of_int 180)) /\
  score_of scenario_zero = Py.round_float (percent scenario_zero).
Proof.
  split; [vm_compute; reflexivity|].
  destruct (clamps_never_bind scenario_zero) as (_ & E1 & _ & E2);
    [vm_compute; reflexivity|].
  split; [exact E1|exact E2].
Defined.

(** X2.  Whatever the input, a reported energy is [+0.0] or strictly
    positive: [max(0, x)] answers the int [0] for a NaN, for [-0.0] and for
    anything not above zero, so neither NaN nor a negative zero is ever
    returned. *)
Theorem reported_energy_is_zero_or_positive inp out :
  compute_energy inp = Some out ->
  (daily out = S754_zero false \/ ltb (of_int 0) (daily out) = true) /\
  (monthly out = S754_zero false \/ ltb (of_int 0) (monthly out) = true).
Proof.
  unfold compute_energy. destruct (score_of inp) as [s|]; [|discriminate].
  intros E. injection E as <-. cbn [daily monthly]. rewrite !max0_eq.
  split.
  - destruct (ltb (of_int 0) (dailyKWh inp)) eqn:D; [right; exact D|left; reflexivity].
  - destruct (ltb (of_int 0) (monthlyKWh inp)) eqn:D; [right; exact D|left; reflexivity].
Qed.

Lemma reported_energy_is_zero_or_positive_witness :
  dailyKWh scenario_negative_zero = S754_zero true /\
  exists out, compute_energy scenario_negative_zero = Some out /\
    daily out = S754_zero false /\
    (monthly out = S754_zero false \/ ltb (of_int 0) (monthly out) = true).
Proof.
  split; [vm_compute; reflexivity|].
  eexists. split; [vm_compute; reflexivity|]. split; [reflexivity|].
  apply (reported_energy_is_zero_or_positive scenario_negative_zero). vm_compute; reflexivity.
Defined.

(** X3.  With tilt and azimuth fixed, a larger irradiance and a larger
    area never give less energy, per day or per month, and leave the score
    unchanged (infinite fields included). *)
Theorem energy_monotone_in_irradiance_and_area t a i1 r1 i2 r2 :
  valid_input (mkEnergyInput t a i1 r1) = true ->
  valid_input (mkEnergyInput t a i2 r2) = true ->
  leb i1 i2 = true -> leb r1 r2 = true ->
  exists o1 o2,
    compute_energy (mkEnergyInput t a i1 r1) = Some o1 /\
    compute_energy (mkEnergyInput t a i2 r2) = Some o2 /\
    leb (daily o1) (daily o2) = true /\
    leb (monthly o1) (monthly o2) = true /\
    score o1 = score o2.
Proof.
  intros H1 H2 Li Lr.
  destruct (score_of_range _ H1) as (s & S1 & _).
  assert (S2 : score_of (mkEnergyInput t a i2 r2) = Some s) by exact S1.
  destruct (valid_input_fields _ H1) as (_ & _ & [Vi1 Gi1] & [Vr1 Gr1]).
  destruct (valid_input_fields _ H2) as (_ & _ & [Vi2 Gi2] & [Vr2 Gr2]).
  cbn [irradiance area] in *.
  destruct (nonneg_of_leb_zero _ Vi1 Gi1) as [_ Ni1].
  destruct (nonneg_of_leb_zero _ Vr1 Gr1) as [_ Nr1].
  destruct (nonneg_of_leb_zero _ Vi2 Gi2) as [_ Ni2].
  destruct (nonneg_of_leb_zero _ Vr2 Gr2) as [_ Nr2].
  pose proof (product_mono i1 i2 r1 r2 Vi1 Ni1 Vi2 Ni2 Vr1 Nr1 Vr2 Nr2 Li Lr) as P.
  destruct (k_of_positive _ H1) as [Fk Pk].
  destruct (energy_mono_in_product _ _ _ P Fk Pk) as [Ld Lm].
  unfold compute_energy. rewrite S1, S2, !max0_eq.
  eexists. eexists. split; [reflexivity|]. split; [reflexivity|].
  cbn [daily monthly score]. split; [exact Ld|]. split; [exact Lm|reflexivity].
Qed.

Lemma energy_monotone_in_irradiance_and_area_witness :
  leb (lit 48 10) (of_int 6) = true /\ leb (of_int 18) (of_int 20) = true /\
  exists o1 o2,
    compute_energy (mkEnergyInput (of_int 25) (of_int 180) (lit 48 10) (of_int 18)) = Some o1 /\
    compute_energy (mkEnergyInput (of_int 25) (of_int 180) (of_int 6) (of_int 20)) = Some o2 /\
    leb (daily o1) (daily o2) = true /\
    leb (monthly o1) (monthly o2) = true /\
    score o1 = score o2.
Proof.
  split; [vm_compute; reflexivity|]. split; [vm_compute; reflexivity|].
  apply (energy_monotone_in_irradiance_and_area
           (of_int 25) (of_int 180) (lit 48 10) (of_int 18) (of_int 6) (of_int 20));
    vm_compute; reflexivity.
Defined.

(** X4.  With tilt, irradiance and area fixed, an azimuth at least as
    near to 180 gives a [k], a daily and a monthly energy and a score that
    are at least as large. *)
Theorem outputs_monotone_in_azimuth t a1 a2 i r :
  valid_input (mkEnergyInput t a1 i r) = true ->
  valid_input (mkEnergyInput t a2 i r) = true ->
  Z.abs (scaled a1 - scaled (of_int 180)) <= Z.abs (scaled a2 - scaled (of_int 180)) ->
  leb (k_of (mkEnergyInput t a2 i r)) (k_of (mkEnergyInput t a1 i r)) = true /\
  exists o1 o2,
    compute_energy (mkEnergyInput t a1 i r) = Some o1 /\
    compute_energy (mkEnergyInput t a2 i r) = Some o2 /\
    leb (daily o2) (daily o1) = true /\
    leb (monthly o2) (monthly o1) = true /\
    score o2 <= score o1.
Proof.
  intros H1 H2 Hd.
  assert (Lk : leb (k_of (mkEnergyInput t a2 i r)) (k_of (mkEnergyInput t a1 i r)) = true).
  { apply k_of_mono_in_azimuth; auto. }
  split; [exact Lk|]. apply outputs_mono_in_k; auto.
Qed.

Lemma outputs_monotone_in_azimuth_witness :
  Z.abs (scaled (of_int 180) - scaled (of_int 180))
    <= Z.abs (scaled (of_int 90) - scaled (of_int 180)) /\
  leb (k_of (scenario_azimuth (of_int 90))) (k_of (scenario_azimuth (of_int 180))) = true /\
  exists o1 o2,
    compute_energy (scenario_azimuth (of_int 180)) = Some o1 /\
    compute_energy (scenario_azimuth (of_int 90)) = Some o2 /\
    leb (daily o2) (daily o1) = true /\
    leb (monthly o2) (monthly o1) = true /\
    score o2 <= score o1.
Proof.
  split; [vm_compute; discriminate|].
  apply (outputs_monotone_in_azimuth (of_int 25) (of_int 180) (of_int 90)
           (lit 48 10) (of_int 18));
    vm_compute; try reflexivity; discriminate.
Defined.

(** X5.  With azimuth, irradiance and area fixed, a tilt at least as near
    to 30 gives a score and a monthly energy that are at least as large. *)
Theorem score_and_monthly_monotone_in_tilt t1 t2 a i r :
  valid_input (mkEnergyInput t1 a i r) = true ->
  valid_input (mkEnergyInput t2 a i r) = true ->
  Z.abs (scaled t1 - scaled (of_int 30)) <= Z.abs (scaled t2 - scaled (of_int 30)) ->
  exists o1 o2,
    compute_energy (mkEnergyInput t1 a i r) = Some o1 /\
    compute_energy (mkEnergyInput t2 a i r) = Some o2 /\
    score o2 <= score o1 /\
    leb (monthly o2) (monthly o1) = true.
Proof.
  intros H1 H2 Hd.
  assert (Lk : leb (k_of (mkEnergyInput t2 a i r)) (k_of (mkEnergyInput t1 a i r)) = true).
  { apply k_of_mono_in_tilt; auto. }
  destruct (outputs_mono_in_k _ _ H1 H2 eq_refl eq_refl Lk)
    as (o1 & o2 & E1 & E2 & _ & Lm & Ls).
  exists o1, o2. repeat split; assumption.
Qed.

Lemma score_and_monthly_monotone_in_tilt_witness :
  Z.abs (scaled (of_int 30) - scaled (of_int 30))
    <= Z.abs (scaled (of_int 90) - scaled (of_int 30)) /\
  exists o1 o2,
    compute_energy (scenario_tilt (of_int 30)) = Some o1 /\
    compute_energy (scenario_tilt (of_int 90)) = Some o2 /\
    score o2 <= score o1 /\
    leb (monthly o2) (monthly o1) = true.
Proof.
  split; [vm_compute; discriminate|].
  apply (score_and_monthly_monotone_in_tilt (of_int 30) (of_int 90) (of_int 180)
           (lit 48 10) (of_int 18));
    vm_compute; try reflexivity; discriminate.
Defined.

(** X6.  For every valid input the monthly energy is at least the daily
    energy. *)
Theorem monthly_at_least_daily inp :
  valid_input inp = true ->
  exists out, compute_energy inp = Some out /\ leb (daily out) (monthly out) = true.
Proof.
  intros H. destruct (score_of_range inp H) as (s & S & _).
  unfold compute_energy. rewrite S, !max0_eq.
  eexists. split; [reflexivity|]. cbn [daily monthly]. unfold monthlyKWh.
  destruct (dailyKWh_class inp H) as [->|[V N]]; [reflexivity|].
  assert (P30 : 0 < scaled (of_int 30)) by scaled_const.
  destruct (mul_mono_nonneg _ _ (of_int 30) (of_int 30) V N V N
              finite_of_int_30 P30 finite_of_int_30
              (leb_refl _ (nonneg_ordered _ V N))
              (leb_refl _ (finite_ordered64 _ finite_of_int_30)))
    as ([V3 N3] & _ & _).
  apply max0_mono; auto using nonneg_ordered. apply mul_30_ge; assumption.
Qed.

Lemma monthly_at_least_daily_witness :
  valid_input scenario_optimal = true /\
  exists out, compute_energy scenario_optimal = Some out /\
              leb (daily out) (monthly out) = true.
Proof.
  split; [vm_compute; reflexivity|].
  apply (monthly_at_least_daily scenario_optimal). vm_compute; reflexivity.
Defined.

(** X7.  When the float product [irradiance * area] is at most [1e300]
    no step overflows: the daily and the monthly energy are finite. *)
Theorem energy_finite_below_1e300 inp :
  valid_input inp = true ->
  leb (mul (irradiance inp) (area inp)) f1e300 = true ->
  exists out, compute_energy inp = Some out /\
    is_finite (daily out) = true /\ is_finite (monthly out) = true.
Proof.
  intros H L. destruct (score_of_range inp H) as (s & S & _).
  destruct (irradiance_area_class inp H) as [E|[V N]].
  { rewrite E in L. discriminate L. }
  pose proof (k_of_within inp H) as Wk.
  assert (Wp : within (S754_zero false) f1e300 (mul (irradiance inp) (area inp))).
  { split; [exact V|]. split; [apply SFleb_zero_nonneg; exact N|exact L]. }
  assert (W2 : within (mul (S754_zero false) f0_18) (mul f1e300 f0_18)
                      (mul (mul (irradiance inp) (area inp)) f0_18)).
  { apply within_mul; try fin_const; try scaled_const;
      [exact Wp|apply within_const; fin_const]. }
  assert (Wd : within (mul (mul (S754_zero false) f0_18) f0_6)
                      (mul (mul f1e300 f0_18) f1_5) (dailyKWh inp)).
  { unfold dailyKWh. apply within_mul; try fin_const; try scaled_const; assumption. }
  assert (Wm : within (mul (mul (mul (S754_zero false) f0_18) f0_6) (of_int 30))
                      (mul (mul (mul f1e300 f0_18) f1_5) (of_int 30)) (monthlyKWh inp)).
  { unfold monthlyKWh. apply within_mul; try fin_const; try scaled_const;
      [exact Wd|apply within_const; fin_const]. }
  assert (Fd : finite (dailyKWh inp)).
  { apply (within_finite (mul (mul (S754_zero false) f0_18) f0_6)
                         (mul (mul f1e300 f0_18) f1_5)); [fin_const|fin_const|exact Wd]. }
  assert (Fm : finite (monthlyKWh inp)).
  { apply (within_finite (mul (mul (mul (S754_zero false) f0_18) f0_6) (of_int 30))
                         (mul (mul (mul f1e300 f0_18) f1_5) (of_int 30)));
      [fin_const|fin_const|exact Wm]. }
  unfold compute_energy. rewrite S, !max0_eq.
  eexists. split; [reflexivity|]. cbn [daily monthly].
  split.
  - destruct (ltb (of_int 0) (dailyKWh inp)); [|reflexivity].
    destruct Fd as [_ Fd]. destruct (dailyKWh inp); try contradiction; reflexivity.
  - destruct (ltb (of_int 0) (monthlyKWh inp)); [|reflexivity].
    destruct Fm as [_ Fm]. destruct (monthlyKWh inp); try contradiction; reflexivity.
Qed.

Lemma energy_finite_below_1e300_witness :
  valid_input (mkEnergyInput (of_int 30) (of_int 180) f1e300 (of_int 1)) = true /\
  exists out,
    compute_energy (mkEnergyInput (of_int 30) (of_int 180) f1e300 (of_int 1)) = Some out /\
    is_finite (daily out) = true /\ is_finite (monthly out) = true.
Proof.
  split; [vm_compute; reflexivity|].
  apply (energy_finite_below_1e300 (mkEnergyInput (of_int 30) (of_int 180) f1e300 (of_int 1)));
    vm_compute; reflexivity.
Defined.

(** X8.  Two tilts at the same exact distance from 30, one on each side,
    give the same [tiltFactor] and the same output. *)
Theorem tilt_symmetry t1 t2 a i r :
  valid_input (mkEnergyInput t1 a i r) = true ->
  valid_input (mkEnergyInput t2 a i r) = true ->
  scaled t1 - scaled (of_int 30) = scaled (of_int 30) - scaled t2 ->
  tiltFactor (mkEnergyInput t1 a i r) = tiltFactor (mkEnergyInput t2 a i r) /\
  compute_energy (mkEnergyInput t1 a i r) = compute_energy (mkEnergyInput t2 a i r).
Proof.
  intros H1 H2 Hs.
  pose proof (tilt_finite _ H1) as F1. pose proof (tilt_finite _ H2) as F2.
  cbn [tilt] in F1, F2.
  assert (Ha : abs (sub t1 (of_int 30)) = abs (sub t2 (of_int 30))).
  { rewrite !abs_sub_scaled by (auto using finite_of_int_30). f_equal. lia. }
  assert (Hf : tiltFactor (mkEnergyInput t1 a i r) = tiltFactor (mkEnergyInput t2 a i r)).
  { unfold tiltFactor. cbn [tilt]. rewrite Ha. reflexivity. }
  split; [exact Hf|].
  unfold compute_energy, score_of, percent, monthlyKWh, dailyKWh, k_of, weightedSum.
  rewrite Hf. reflexivity.
Qed.

Lemma tilt_symmetry_witness :
  valid_input (scenario_tilt (of_int 0)) = true /\
  valid_input (scenario_tilt (of_int 60)) = true /\
  scaled (of_int 0) - scaled (of_int 30) = scaled (of_int 30) - scaled (of_int 60) /\
  tiltFactor (scenario_tilt (of_int 0)) = tiltFactor (scenario_tilt (of_int 60)) /\
  compute_energy (scenario_tilt (of_int 0)) = compute_energy (scenario_tilt (of_int 60)).
Proof.
  split; [vm_compute; reflexivity|]. split; [vm_compute; reflexivity|].
  split; [vm_compute; reflexivity|].
  apply (tilt_symmetry (of_int 0) (of_int 60) (of_int 180) (lit 48 10) (of_int 18));
    vm_compute; reflexivity.
Defined.


(** ** The diagnostic endpoint *)

Section DictFacts.

Local Open Scope string_scope.

Lemma dict_keys_set k v d : In k (dict_keys d) -> dict_keys (dict_set k v d) = dict_keys d.
Proof.
  induction d as [|[k' v'] rest IH]; intros Hin; [destruct Hin|].
  cbn [dict_set]. destruct (String.eqb k k') eqn:E.
  - apply String.eqb_eq in E. subst k'. reflexivity.
  - cbn [dict_keys List.map fst] in *. f_equal. apply IH.
    destruct Hin as [Heq|Hin]; [|exact Hin].
    subst k'. rewrite String.eqb_refl in E. discriminate E.
Qed.

Lemma dict_get_set_same k v d : dict_get k (dict_set k v d) = Some v.
Proof.
  induction d as [|[k' v'] rest IH]; cbn [dict_set dict_get].
  - rewrite String.eqb_refl. reflexivity.
  - destruct (String.eqb k k') eqn:E; cbn [dict_get].
    + rewrite String.eqb_refl. reflexivity.
    + rewrite E. exact IH.
Qed.

Lemma dict_get_set_other k k' v d : k <> k' ->
  dict_get k' (dict_set k v d) = dict_get k' d.
Proof.
  intros Hne. induction d as [|[k0 v0] rest IH]; cbn [dict_set dict_get].
  - destruct (String.eqb k' k) eqn:E; [|reflexivity].
    apply String.eqb_eq in E. congruence.
  - destruct (String.eqb k k0) eqn:E; cbn [dict_get].
    + apply String.eqb_eq in E. subst k0.
      destruct (String.eqb k' k) eqn:E'; [|reflexivity].
      apply String.eqb_eq in E'. congruence.
    + rewrite IH. reflexivity.
Qed.

End DictFacts.

Local Open Scope string_scope.
Local Open Scope list_scope.

(** The two greeting endpoints answer with one key, [message], and with
    different texts. *)
Example greetings :
  dict_keys read_root = ["message"] /\ dict_keys hello = ["message"] /\
  dict_get "message" read_root <> dict_get "message" hello.
Proof. repeat split; discriminate. Qed.

(** The endpoint, situation by situation: what the import gives, what the
    listing gives, and which handler an exception meets. *)
Ltac diagnose imp :=
  unfold test_database, probe_database, check_environment, list_collections,
    try_except, bind, eval, assign, initial_response;
  let name := fresh "name" in
  let cs := fresh "cs" in
  let e1 := fresh "e" in
  let e0 := fresh "e" in
  let Hexc := fresh "Hexc" in
  let Himp := fresh "Himp" in
  destruct imp as [[[name [cs|e1]]|]|e0];
  cbn [list_collection_names db_name];
  [ | destruct (exc_is_Exception (raised e1)) eqn:Hexc;
      destruct (is_ImportError e1) eqn:Himp;
      cbn beta iota; rewrite ?Hexc, ?Himp
    | | destruct (is_ImportError e0) eqn:Himp;
        destruct (exc_is_Exception (raised e0)) eqn:Hexc;
        cbn beta iota; rewrite ?Hexc, ?Himp ];
  cbn [dict_set dict_get dict_keys List.map fst String.eqb Ascii.eqb Bool.eqb].

Ltac returned H := try discriminate H; injection H as <-.

(** X9.  The endpoint raises nothing that derives from [Exception] or is an
    [ImportError]: an exception that escapes is one that the import of
    [db], or [db.list_collection_names()], raised and no clause caught. *)
Theorem test_database_raises_only_uncaught imp env e :
  test_database imp env = Abrupt e ->
  exc_is_Exception (raised e) = false /\ is_ImportError e = false /\
  (imp = Abrupt e \/
   exists db, imp = Normal (Some db) /\ list_collection_names db = Abrupt e).
Proof.
  diagnose imp; intros H; returned H.
  - repeat split; try assumption. right. eexists. split; reflexivity.
  - repeat split; try assumption. left. reflexivity.
Qed.

Lemma test_database_raises_only_uncaught_witness :
  test_database (Abrupt interrupted) env_url_only = Abrupt interrupted /\
  exc_is_Exception (raised interrupted) = false /\ is_ImportError interrupted = false /\
  (@Abrupt (option DbHandle) interrupted = Abrupt interrupted \/
   exists db, Abrupt interrupted = Normal (Some db)
              /\ list_collection_names db = Abrupt interrupted).
Proof.
  split; [reflexivity|].
  apply (test_database_raises_only_uncaught (Abrupt interrupted) env_url_only interrupted).
  reflexivity.
Defined.

(** X10.  Every response has the six keys of the initial dict, in their
    order, and reports the backend as running. *)
Theorem test_database_response_shape imp env r :
  test_database imp env = Normal r ->
  dict_keys r = response_keys /\
  dict_get "backend" r = Some (VStr (check_mark ++ text " Running")).
Proof.
  diagnose imp; intros H; returned H; split; reflexivity.
Qed.

Lemma test_database_response_shape_witness :
  exists r, test_database (Normal (Some db_unreachable)) env_url_only = Normal r /\
  dict_keys r = response_keys /\
  dict_get "backend" r = Some (VStr (check_mark ++ text " Running")).
Proof.
  eexists. split; [reflexivity|].
  apply (test_database_response_shape (Normal (Some db_unreachable)) env_url_only).
  reflexivity.
Defined.

(** X11.  [database_url] and [database_name] tell only whether the
    environment variables [DATABASE_URL] and [DATABASE_NAME] hold a
    non-empty string: what the [try] block stored there ([db.name]
    included) is overwritten in every response. *)
Theorem test_database_reports_environment imp env r :
  test_database imp env = Normal r ->
  dict_get "database_url" r
    = Some (VStr (if truthy (env "DATABASE_URL")
                  then check_mark ++ text " Set" else cross_mark ++ text " Not Set")) /\
  dict_get "database_name" r
    = Some (VStr (if truthy (env "DATABASE_NAME")
                  then check_mark ++ text " Set" else cross_mark ++ text " Not Set")).
Proof.
  diagnose imp; intros H; returned H; split; reflexivity.
Qed.

Lemma test_database_reports_environment_witness :
  exists r, test_database (Normal (Some db_solar)) env_url_only = Normal r /\
  dict_get "database_url" r = Some (VStr (check_mark ++ text " Set")) /\
  dict_get "database_name" r = Some (VStr (cross_mark ++ text " Not Set")).
Proof.
  eexists. split; [reflexivity|].
  apply (test_database_reports_environment (Normal (Some db_solar)) env_url_only).
  reflexivity.
Defined.

(** X12.  When the listing succeeds the response carries the first ten
    collection names, in the order listed, and reports the database as
    connected and working. *)
Theorem test_database_lists_first_ten env db all :
  list_collection_names db = Normal all ->
  exists r, test_database (Normal (Some db)) env = Normal r /\
    dict_get "collections" r = Some (VList (firstn 10 all)) /\
    (List.length (firstn 10 all) <= 10)%nat /\
    (forall n name, nth_error (firstn 10 all) n = Some name -> nth_error all n = Some name) /\
    dict_get "database" r = Some (VStr (check_mark ++ text " Connected & Working")) /\
    dict_get "connection_status" r = Some (VStr (text "Connected")).
Proof.
  intros Hl. destruct db as [name l]. cbn [list_collection_names] in Hl. subst l.
  eexists. split; [reflexivity|]. split; [reflexivity|].
  split; [apply firstn_le_length|]. split; [|split; reflexivity].
  intros n nm Hn.
  assert (Hlt : (n < 10)%nat).
  { destruct (Nat.lt_ge_cases n 10) as [Hlt|Hge]; [exact Hlt|].
    assert (Hnone : nth_error (firstn 10 all) n = None).
    { apply nth_error_None. pose proof (firstn_le_length 10 all). lia. }
    congruence. }
  rewrite nth_error_firstn in Hn.
  destruct (Nat.ltb n 10) eqn:E; [exact Hn|].
  apply Nat.ltb_ge in E. lia.
Qed.

Lemma test_database_lists_first_ten_witness :
  exists r, test_database (Normal (Some db_solar)) env_url_only = Normal r /\
    dict_get "collections" r
      = Some (VList (List.map text ["c01"; "c02"; "c03"; "c04"; "c05";
                                    "c06"; "c07"; "c08"; "c09"; "c10"])).
Proof.
  destruct (test_database_lists_first_ten env_url_only db_solar
              (List.map text ["c01"; "c02"; "c03"; "c04"; "c05"; "c06";
                              "c07"; "c08"; "c09"; "c10"; "c11"; "c12"])
              eq_refl) as (r & Hr & Hc & _).
  exists r. split; [exact Hr|exact Hc].
Defined.

(** X13.  When [db.list_collection_names()] raises an exception that
    derives from [Exception] (an [ImportError] too: the inner handler is
    the one it meets), the response keeps [Connected] and the empty
    collection list, and [database] is the warning text followed by the
    first 50 characters of [str(e)], 75 characters at most. *)
Theorem test_database_listing_failure env db e :
  list_collection_names db = Abrupt e ->
  exc_is_Exception (raised e) = true ->
  exists r msg, test_database (Normal (Some db)) env = Normal r /\
    dict_get "database" r = Some (VStr msg) /\
    msg = warning_sign ++ text "  Connected but Error: " ++ firstn 50 (str_of e) /\
    (List.length msg <= 75)%nat /\
    dict_get "connection_status" r = Some (VStr (text "Connected")) /\
    dict_get "collections" r = Some (VList []).
Proof.
  intros Hl He. destruct db as [name l]. cbn [list_collection_names] in Hl. subst l.
  unfold test_database, probe_database, check_environment, list_collections,
    try_except, bind, eval, assign, initial_response.
  cbn [list_collection_names db_name]. rewrite He.
  eexists. eexists. split; [reflexivity|]. split; [reflexivity|]. split; [reflexivity|].
  split; [|split; reflexivity].
  rewrite !length_app. pose proof (firstn_le_length 50 (str_of e)).
  change (List.length warning_sign) with 2%nat.
  change (List.length (text "  Connected but Error: ")) with 23%nat. lia.
Qed.

Lemma test_database_listing_failure_witness :
  exists r msg, test_database (Normal (Some db_unreachable)) env_url_only = Normal r /\
    dict_get "database" r = Some (VStr msg) /\
    msg = warning_sign ++ text "  Connected but Error: "
          ++ text "localhost:27017: [Errno 111] Connection refused, t" /\
    (List.length msg <= 75)%nat.
Proof.
  destruct (test_database_listing_failure env_url_only db_unreachable server_timeout
              eq_refl eq_refl) as (r & msg & Hr & Hd & Hm & Hlen & _).
  exists r, msg. repeat split; assumption.
Defined.

(** X14.  When the import of [db] raises, the database is reported as not
    connected with no collections: an [ImportError] gives the fixed
    "module not found" text, any other exception deriving from [Exception]
    the text [Error:] followed by the first 50 characters of [str(e)]. *)
Theorem test_database_import_failure env e :
  is_ImportError e = true \/ exc_is_Exception (raised e) = true ->
  exists r, test_database (Abrupt e) env = Normal r /\
    dict_get "database" r
      = Some (VStr (if is_ImportError e
                    then cross_mark
                         ++ text " Database module not found (run enable-database first)"
                    else cross_mark ++ text " Error: " ++ firstn 50 (str_of e))) /\
    dict_get "connection_status" r = Some (VStr (text "Not Connected")) /\
    dict_get "collections" r = Some (VList []).
Proof.
  intros H.
  unfold test_database, probe_database, check_environment, list_collections,
    try_except, bind, eval, assign, initial_response.
  destruct (is_ImportError e) eqn:Hi.
  - eexists. repeat split; reflexivity.
  - destruct H as [H|H]; [discriminate H|]. rewrite H.
    eexists. repeat split; reflexivity.
Qed.

Lemma test_database_import_failure_witness :
  exists r, test_database (Abrupt module_not_found) env_url_only = Normal r /\
    dict_get "database" r
      = Some (VStr (cross_mark
                    ++ text " Database module not found (run enable-database first)")) /\
    dict_get "connection_status" r = Some (VStr (text "Not Connected")) /\
    dict_get "collections" r = Some (VList []).
Proof.
  apply (test_database_import_failure env_url_only module_not_found).
  left. reflexivity.
Defined.

(** X15.  A response says [Connected] exactly when the import gave a [db]
    object other than [None], whether or not the listing then worked;
    otherwise it says [Not Connected]. *)
Theorem test_database_connected_iff_db imp env r :
  test_database imp env = Normal r ->
  (dict_get "connection_status" r = Some (VStr (text "Connected"))
   <-> exists db, imp = Normal (Some db)) /\
  (dict_get "connection_status" r = Some (VStr (text "Not Connected"))
   <-> forall db, imp <> Normal (Some db)).
Proof.
  diagnose imp; intros H; returned H; (split; split; intros H);
    try (eexists; reflexivity); try reflexivity; try discriminate H;
    try (intros db Hdb; discriminate Hdb);
    try (destruct H as [db Hdb]; discriminate Hdb);
    try (exfalso; eapply H; reflexivity).
Qed.

Lemma test_database_connected_iff_db_witness :
  exists r, test_database (Normal None) env_url_only = Normal r /\
    (dict_get "connection_status" r = Some (VStr (text "Connected"))
     <-> exists db, @Normal (option DbHandle) None = Normal (Some db)) /\
    (dict_get "connection_status" r = Some (VStr (text "Not Connected"))
     <-> forall db, @Normal (option DbHandle) None <> Normal (Some db)).
Proof.
  eexists. split; [reflexivity|].
  apply (test_database_connected_iff_db (Normal None) env_url_only).
  reflexivity.
Defined.

Local Close Scope string_scope.
